(** * AeroFlow wind tunnel: pressure shading, streamline particles, mesh loading

    A shallow embedding of [src/components/WindTunnelScene.tsx] (the
    [AerodynamicMaterial] fragment shader, the [Model] component and the
    [Streamlines] component) together with the parts of three.js they call.

    Numbers.  The source computes with IEEE-754 doubles (JavaScript) and
    32-bit floats (GLSL).  The embedding idealises both as real numbers:
    rounding, overflow and NaN are outside the model.  [Math.random()] is a
    stream of reals in [0, 1) that is threaded explicitly through every
    function that draws from it. *)

From Stdlib Require Import Reals Lra Lia List String Ascii Bool Arith RNsatz.
Import ListNotations.
Open Scope R_scope.

(** ** JavaScript and GLSL primitives *)

(** [a || b] on numbers: [a] unless it is falsy (zero). *)
Definition js_or (a b : R) : R := if Req_dec_T a 0 then b else a.

(** [Math.sign]. *)
Definition Math_sign (a : R) : R :=
  if Rlt_dec 0 a then 1 else if Rlt_dec a 0 then -1 else 0.

(** [Math.abs] and [Math.max]. *)
Definition Math_abs (a : R) : R := Rabs a.
Definition Math_max (a b : R) : R := Rmax a b.

(** [a > b] as a boolean, for conditions joined by [&&]. *)
Definition Rgtb (a b : R) : bool := if Rgt_dec a b then true else false.

(** [Number.EPSILON], 2^-52. *)
Definition Number_EPSILON : R := / 2 ^ 52.

(** ** three.js: Vector3 *)

Module Vector3.

Record t : Type := mk { x : R; y : R; z : R }.

Definition lengthSq (v : t) : R := x v * x v + y v * y v + z v * z v.

Definition length (v : t) : R := sqrt (x v * x v + y v * y v + z v * z v).

Definition multiplyScalar (v : t) (s : R) : t :=
  mk (x v * s) (y v * s) (z v * s).

Definition divideScalar (v : t) (s : R) : t := multiplyScalar v (1 / s).

(** [normalize() { return this.divideScalar( this.length() || 1 ); }] *)
Definition normalize (v : t) : t := divideScalar v (js_or (length v) 1).

Definition dot (a b : t) : R := x a * x b + y a * y b + z a * z b.

Definition subVectors (a b : t) : t :=
  mk (x a - x b) (y a - y b) (z a - z b).

Definition crossVectors (a b : t) : t :=
  mk (y a * z b - z a * y b)
     (z a * x b - x a * z b)
     (x a * y b - y a * x b).

End Vector3.

Abbreviation vec3 := Vector3.mk.

(** ** src/types.ts *)

Record WindSettings : Type := mkWindSettings {
  speed : R;
  directionX : R;
  directionY : R;
  directionZ : R;
  particleCount : nat
}.

(** ** Wind direction, as both frame callbacks derive it *)

(** [Model], useFrame, lines 120-127: the vector written to [uWindDir]. *)
Definition Model_windDir (windSettings : WindSettings) : Vector3.t :=
  let dir := Vector3.normalize
               (vec3 (directionX windSettings)
                     (directionY windSettings)
                     (directionZ windSettings)) in
  if Req_dec_T (Vector3.lengthSq dir) 0 then vec3 1 0 0 else dir.

(** [Streamlines], useFrame, lines 186-187. *)
Definition Streamlines_windDir (direction : Vector3.t) : Vector3.t :=
  let dir := Vector3.normalize direction in
  if Req_dec_T (Vector3.lengthSq dir) 0 then vec3 1 0 0 else dir.

(** ** Streak scale, lines 226-228 *)

Definition stretch (speed : R) : R := Math_max 2 (speed * 0.8).

Definition thickness (sizeOffset : R) : R := 0.3 * sizeOffset.

(** ** GLSL built-ins used by the fragment shader *)

Module GLSL.

Definition dot (a b : Vector3.t) : R := Vector3.dot a b.

Definition neg (v : Vector3.t) : Vector3.t :=
  vec3 (- Vector3.x v) (- Vector3.y v) (- Vector3.z v).

Definition scale (v : Vector3.t) (s : R) : Vector3.t :=
  vec3 (Vector3.x v * s) (Vector3.y v * s) (Vector3.z v * s).

(** [normalize(v) = v / length(v)]. *)
Definition normalize (v : Vector3.t) : Vector3.t :=
  let l := sqrt (dot v v) in
  vec3 (Vector3.x v / l) (Vector3.y v / l) (Vector3.z v / l).

(** [clamp(x, lo, hi) = min(max(x, lo), hi)]. *)
Definition clamp (x lo hi : R) : R := Rmin (Rmax x lo) hi.

(** [smoothstep]: [t = clamp((x - e0) / (e1 - e0), 0, 1); t*t*(3 - 2*t)]. *)
Definition smoothstep (edge0 edge1 x : R) : R :=
  let t := clamp ((x - edge0) / (edge1 - edge0)) 0 1 in
  t * t * (3 - 2 * t).

(** [mix(a, b, t) = a*(1 - t) + b*t], componentwise on vec3. *)
Definition mix1 (a b t : R) : R := a * (1 - t) + b * t.

Definition mix (a b : Vector3.t) (t : R) : Vector3.t :=
  vec3 (mix1 (Vector3.x a) (Vector3.x b) t)
       (mix1 (Vector3.y a) (Vector3.y b) t)
       (mix1 (Vector3.z a) (Vector3.z b) t).

End GLSL.

(** ** AerodynamicMaterial, lines 11-93 *)

Record Uniforms : Type := mkUniforms {
  uWindDir : Vector3.t;
  uColorHigh : Vector3.t;
  uColorMid : Vector3.t;
  uColorLow : Vector3.t;
  uTime : R
}.

Module AerodynamicMaterial.

(** The [uniforms] the material is created with. *)
Definition uniforms : Uniforms :=
  mkUniforms (vec3 1 0 0) (vec3 1 0.2 0) (vec3 1 1 0) (vec3 0 0.5 1) 0.

(** Line 60, before the branch of lines 68-75. *)
Definition intensity0 (u : Uniforms) (vNormal : Vector3.t) : R :=
  GLSL.dot (GLSL.normalize vNormal) (GLSL.neg (GLSL.normalize (uWindDir u))).

(** Lines 64-65. *)
Definition flowPhase (u : Uniforms) (vWorldPosition : Vector3.t) : R :=
  GLSL.dot vWorldPosition (GLSL.normalize (uWindDir u)) * 0.5 - uTime u * 10.

Definition flowEffect (u : Uniforms) (vWorldPosition : Vector3.t) : R :=
  sin (flowPhase u vWorldPosition) * 0.05.

(** Line 70. *)
Definition turbulence (u : Uniforms) (vWorldPosition : Vector3.t) : R :=
  sin (Vector3.x vWorldPosition * 5 + uTime u * 10)
  * sin (Vector3.y vWorldPosition * 5 + uTime u * 8) * 0.15.

(** Lines 68-75: the value of [intensity] when the colour mapping starts. *)
Definition adjustedIntensity (u : Uniforms) (vNormal vWorldPosition : Vector3.t) : R :=
  let intensity := intensity0 u vNormal in
  if Rlt_dec intensity (-0.2)
  then intensity + turbulence u vWorldPosition
  else intensity + flowEffect u vWorldPosition.

(** Lines 77-88: the three-band colour mapping, as a function of the
    adjusted intensity and of the [flowEffect] of line 65. *)
Definition colorMapping (u : Uniforms) (flowEffect intensity : R) : Vector3.t :=
  if Rgt_dec intensity 0.2
  then GLSL.mix (uColorMid u) (uColorHigh u) (GLSL.smoothstep 0.2 1 intensity)
  else if Rgt_dec intensity (-0.2)
  then GLSL.mix (uColorLow u) (uColorMid u) (GLSL.smoothstep (-0.2) 0.2 intensity)
  else GLSL.scale (uColorLow u) (0.6 + flowEffect).

(** [main]: the value written to [gl_FragColor], colour and alpha. *)
Definition fragmentShader (u : Uniforms) (vNormal vWorldPosition : Vector3.t)
  : Vector3.t * R :=
  let flowEffect := flowEffect u vWorldPosition in
  let intensity := adjustedIntensity u vNormal vWorldPosition in
  let color := colorMapping u flowEffect intensity in
  (color, 1).

End AerodynamicMaterial.

(** ** three.js: Quaternion and Matrix4 *)

Module Quaternion.

Record t : Type := mk { x : R; y : R; z : R; w : R }.

Definition length (q : t) : R :=
  sqrt (x q * x q + y q * y q + z q * z q + w q * w q).

Definition normalize (q : t) : t :=
  let l := length q in
  if Req_dec_T l 0 then mk 0 0 0 1
  else let l := 1 / l in mk (x q * l) (y q * l) (z q * l) (w q * l).

(** [setFromUnitVectors(vFrom, vTo)]. *)
Definition setFromUnitVectors (vFrom vTo : Vector3.t) : t :=
  let r := Vector3.dot vFrom vTo + 1 in
  if Rlt_dec r Number_EPSILON then
    let r := 0 in
    if Rgt_dec (Math_abs (Vector3.x vFrom)) (Math_abs (Vector3.z vFrom))
    then normalize (mk (- Vector3.y vFrom) (Vector3.x vFrom) 0 r)
    else normalize (mk 0 (- Vector3.z vFrom) (Vector3.y vFrom) r)
  else
    normalize (mk (Vector3.y vFrom * Vector3.z vTo - Vector3.z vFrom * Vector3.y vTo)
                  (Vector3.z vFrom * Vector3.x vTo - Vector3.x vFrom * Vector3.z vTo)
                  (Vector3.x vFrom * Vector3.y vTo - Vector3.y vFrom * Vector3.x vTo)
                  r).

End Quaternion.

Module Matrix4.

(** The rotation block of a matrix, by columns, as [Matrix4.lookAt] fills
    it: [te[0..2] = _x], [te[4..6] = _y], [te[8..10] = _z]. *)
Record rotation : Type := mkRotation {
  col_x : Vector3.t; col_y : Vector3.t; col_z : Vector3.t
}.

(** [lookAt(eye, target, up)]. *)
Definition lookAt (eye target up : Vector3.t) : rotation :=
  let _z := Vector3.subVectors eye target in
  let _z := if Req_dec_T (Vector3.lengthSq _z) 0
            then vec3 (Vector3.x _z) (Vector3.y _z) 1 else _z in
  let _z := Vector3.normalize _z in
  let _x := Vector3.crossVectors up _z in
  let '(_z, _x) :=
    if Req_dec_T (Vector3.lengthSq _x) 0 then
      let _z := if Req_dec_T (Math_abs (Vector3.z up)) 1
                then vec3 (Vector3.x _z + 0.0001) (Vector3.y _z) (Vector3.z _z)
                else vec3 (Vector3.x _z) (Vector3.y _z) (Vector3.z _z + 0.0001) in
      let _z := Vector3.normalize _z in
      (_z, Vector3.crossVectors up _z)
    else (_z, _x) in
  let _x := Vector3.normalize _x in
  let _y := Vector3.crossVectors _z _x in
  mkRotation _x _y _z.

(** [Quaternion.setFromRotationMatrix(m)]. *)
Definition toQuaternion (m : rotation) : Quaternion.t :=
  let m11 := Vector3.x (col_x m) in let m12 := Vector3.x (col_y m) in
  let m13 := Vector3.x (col_z m) in
  let m21 := Vector3.y (col_x m) in let m22 := Vector3.y (col_y m) in
  let m23 := Vector3.y (col_z m) in
  let m31 := Vector3.z (col_x m) in let m32 := Vector3.z (col_y m) in
  let m33 := Vector3.z (col_z m) in
  let trace := m11 + m22 + m33 in
  if Rgt_dec trace 0 then
    let s := 0.5 / sqrt (trace + 1) in
    Quaternion.mk ((m32 - m23) * s) ((m13 - m31) * s) ((m21 - m12) * s) (0.25 / s)
  else if Rgtb m11 m22 && Rgtb m11 m33 then
    let s := 2 * sqrt (1 + m11 - m22 - m33) in
    Quaternion.mk (0.25 * s) ((m12 + m21) / s) ((m13 + m31) / s) ((m32 - m23) / s)
  else if Rgt_dec m22 m33 then
    let s := 2 * sqrt (1 + m22 - m11 - m33) in
    Quaternion.mk ((m12 + m21) / s) (0.25 * s) ((m23 + m32) / s) ((m13 - m31) / s)
  else
    let s := 2 * sqrt (1 + m33 - m11 - m22) in
    Quaternion.mk ((m13 + m31) / s) ((m23 + m32) / s) (0.25 * s) ((m21 - m12) / s).

(** A full matrix, as [compose] fills it: three scaled axis columns and
    the translation column ([te[3] = te[7] = te[11] = 0], [te[15] = 1]). *)
Record t : Type := mk {
  axis_x : Vector3.t;   (* te[0], te[1], te[2]   *)
  axis_y : Vector3.t;   (* te[4], te[5], te[6]   *)
  axis_z : Vector3.t;   (* te[8], te[9], te[10]  *)
  origin : Vector3.t    (* te[12], te[13], te[14] *)
}.

(** [compose(position, quaternion, scale)]. *)
Definition compose (position : Vector3.t) (quaternion : Quaternion.t)
           (scale : Vector3.t) : t :=
  let x := Quaternion.x quaternion in let y := Quaternion.y quaternion in
  let z := Quaternion.z quaternion in let w := Quaternion.w quaternion in
  let x2 := x + x in let y2 := y + y in let z2 := z + z in
  let xx := x * x2 in let xy := x * y2 in let xz := x * z2 in
  let yy := y * y2 in let yz := y * z2 in let zz := z * z2 in
  let wx := w * x2 in let wy := w * y2 in let wz := w * z2 in
  let sx := Vector3.x scale in let sy := Vector3.y scale in
  let sz := Vector3.z scale in
  mk (vec3 ((1 - (yy + zz)) * sx) ((xy + wz) * sx) ((xz - wy) * sx))
     (vec3 ((xy - wz) * sy) ((1 - (xx + zz)) * sy) ((yz + wx) * sy))
     (vec3 ((xz + wy) * sz) ((yz - wx) * sz) ((1 - (xx + yy)) * sz))
     position.

Definition identity : t :=
  mk (vec3 1 0 0) (vec3 0 1 0) (vec3 0 0 1) (vec3 0 0 0).

End Matrix4.

(** ** Math.random *)

(** The generator: the stream of values [Math.random()] will return and
    the number of values already drawn. *)
Record Rng : Type := mkRng { samples : nat -> R; cursor : nat }.

(** Every sample lies in [0, 1), as [Math.random()] promises. *)
Definition unit_samples (g : Rng) : Prop := forall n, 0 <= samples g n < 1.

(** Computations that draw random numbers. *)
Definition Rand (A : Type) : Type := Rng -> A * Rng.

Definition ret {A : Type} (a : A) : Rand A := fun g => (a, g).

Definition bind {A B : Type} (m : Rand A) (k : A -> Rand B) : Rand B :=
  fun g => let (a, g') := m g in k a g'.

Notation "x <- m ;; k" := (bind m (fun x => k))
  (at level 61, m at next level, right associativity).

Definition Math_random : Rand R :=
  fun g => (samples g (cursor g), mkRng (samples g) (S (cursor g))).

(** ** Streamlines, lines 164-250 *)

Module Particle.

Record t : Type := mk {
  x : R; y : R; z : R;
  speedOffset : R;
  sizeOffset : R
}.

End Particle.

Module Streamlines.

Record Props : Type := mkProps {
  count : nat;
  speed : R;
  direction : Vector3.t;
  bounds : R
}.

(** Lines 172-178: one [temp.push({...})]; the five fields are evaluated
    in the order they are written. *)
Definition newParticle (bounds : R) : Rand Particle.t :=
  rx <- Math_random ;;
  ry <- Math_random ;;
  rz <- Math_random ;;
  rspeed <- Math_random ;;
  rsize <- Math_random ;;
  ret (Particle.mk ((rx - 0.5) * bounds)
                   ((ry - 0.5) * bounds)
                   ((rz - 0.5) * bounds)
                   (rspeed * 0.5 + 0.8)
                   (rsize * 0.5 + 0.5)).

(** Lines 171-179: the remaining [n] iterations of the [for] loop. *)
Fixpoint initLoop (n : nat) (bounds : R) (temp : list Particle.t)
  : Rand (list Particle.t) :=
  match n with
  | O => ret temp
  | S n' => p <- newParticle bounds ;; initLoop n' bounds (temp ++ [p])
  end.

(** Lines 169-181: the function handed to [useMemo]. *)
Definition initParticles (count : nat) (bounds : R) : Rand (list Particle.t) :=
  initLoop count bounds [].

(** The cell of [useMemo(..., [count, bounds])]: the dependencies of the
    last computation and its value. *)
Record Memo : Type := mkMemo {
  dep_count : nat;
  dep_bounds : R;
  particles : list Particle.t
}.

Definition same_deps (m : Memo) (count : nat) (bounds : R) : bool :=
  Nat.eqb (dep_count m) count
  && (if Req_dec_T (dep_bounds m) bounds then true else false).

(** [useMemo] on one render: the first render computes, a later one
    recomputes exactly when a dependency changed. *)
Definition useMemo_particles (cell : option Memo) (count : nat) (bounds : R)
  : Rand Memo :=
  match cell with
  | Some m =>
      if same_deps m count bounds then ret m
      else ps <- initParticles count bounds ;; ret (mkMemo count bounds ps)
  | None => ps <- initParticles count bounds ;; ret (mkMemo count bounds ps)
  end.

(** Lines 200-205 (and 207-210, 212-215 with y and z): the wrap of one
    coordinate, [c] after displacement, [d] the wind component. *)
Definition wrap (c d bounds : R) : Rand R :=
  let halfBounds := bounds / 2 in
  if Rgt_dec (Math_abs c) halfBounds then
    if Rgt_dec (Math_abs d) 0.1
    then r <- Math_random ;; ret (- Math_sign d * halfBounds + (r * 10 - 5))
    else r <- Math_random ;; ret ((r - 0.5) * bounds)
  else ret c.

(** Lines 191-215: the update of the particle's own fields. *)
Definition moveParticle (speed delta bounds : R) (dir : Vector3.t)
           (particle : Particle.t) : Rand Particle.t :=
  let moveSpeed := speed * Particle.speedOffset particle * delta * 5 in
  let x := Particle.x particle + Vector3.x dir * moveSpeed in
  let y := Particle.y particle + Vector3.y dir * moveSpeed in
  let z := Particle.z particle + Vector3.z dir * moveSpeed in
  x <- wrap x (Vector3.x dir) bounds ;;
  y <- wrap y (Vector3.y dir) bounds ;;
  z <- wrap z (Vector3.z dir) bounds ;;
  ret (Particle.mk x y z (Particle.speedOffset particle)
                   (Particle.sizeOffset particle)).

(** [Object3D.lookAt(x, y, z)] on [dummy], an object without parent that
    is neither camera nor light: [_m1.lookAt(_target, _position, this.up)]
    followed by [quaternion.setFromRotationMatrix(_m1)], with [this.up]
    the default (0, 1, 0) and [_position] the object's position. *)
Definition Object3D_lookAt (position target : Vector3.t) : Quaternion.t :=
  Matrix4.toQuaternion (Matrix4.lookAt target position (vec3 0 1 0)).

(** Lines 220-222: the quaternion given to [dummy]. *)
Definition orientation (dir : Vector3.t) (particle : Particle.t) : Quaternion.t :=
  let up := vec3 0 1 0 in
  if Rgt_dec (Math_abs (Vector3.dot dir up)) 0.99
  then Quaternion.setFromUnitVectors (vec3 1 0 0) dir
  else Object3D_lookAt
         (vec3 (Particle.x particle) (Particle.y particle) (Particle.z particle))
         (vec3 (Particle.x particle + Vector3.x dir)
               (Particle.y particle + Vector3.y dir)
               (Particle.z particle + Vector3.z dir)).

(** Lines 226-228: [dummy.scale.set(stretch, thickness, thickness)]. *)
Definition dummyScale (speed : R) (particle : Particle.t) : Vector3.t :=
  vec3 (stretch speed)
       (thickness (Particle.sizeOffset particle))
       (thickness (Particle.sizeOffset particle)).

(** Lines 217-230: [dummy.matrix] after [updateMatrix()].  Position,
    quaternion and scale of [dummy] are all overwritten for each particle,
    so the matrix depends on the moved particle only. *)
Definition instanceMatrix (speed : R) (dir : Vector3.t) (particle : Particle.t)
  : Matrix4.t :=
  let position :=
    vec3 (Particle.x particle) (Particle.y particle) (Particle.z particle) in
  let quaternion := orientation dir particle in
  let scale := dummyScale speed particle in
  Matrix4.compose position quaternion scale.

(** [InstancedMesh.setMatrixAt(i, m)]: a write into the instance buffer;
    a write past its end leaves the buffer as it is. *)
Fixpoint setMatrixAt (buffer : list Matrix4.t) (i : nat) (m : Matrix4.t)
  : list Matrix4.t :=
  match buffer, i with
  | [], _ => []
  | _ :: rest, O => m :: rest
  | b :: rest, S i' => b :: setMatrixAt rest i' m
  end.

(** Lines 189-232: [particles.forEach((particle, i) => ...)] from index
    [i] on; returns the mutated particles and the instance buffer. *)
Fixpoint forEach (speed delta bounds : R) (dir : Vector3.t)
         (ps : list Particle.t) (i : nat) (buffer : list Matrix4.t)
  : Rand (list Particle.t * list Matrix4.t) :=
  match ps with
  | [] => ret ([], buffer)
  | particle :: rest =>
      particle' <- moveParticle speed delta bounds dir particle ;;
      let buffer := setMatrixAt buffer i (instanceMatrix speed dir particle') in
      r <- forEach speed delta bounds dir rest (S i) buffer ;;
      ret (particle' :: fst r, snd r)
  end.

(** The component between renders: the props of the last render (the
    frame callback closes over them), the memo cell holding the pool, and
    [mesh.current], the instance buffer once the mesh is mounted. *)
Record State : Type := mkState {
  props : Props;
  memo : Memo;
  mesh : option (list Matrix4.t)
}.

(** The first render. *)
Definition mount (p : Props) : Rand State :=
  m <- useMemo_particles None (count p) (bounds p) ;;
  ret (mkState p m None).

(** A later render with props [p]: only the memo cell can change. *)
Definition render (p : Props) (st : State) : Rand State :=
  m <- useMemo_particles (Some (memo st)) (count p) (bounds p) ;;
  ret (mkState p m (mesh st)).

(** The commit after a render: [<instancedMesh args={[.., .., count]}>]
    is attached to the ref with room for [count] instances, and replaced
    by a new one when [count] changed. *)
Definition commit (st : State) : State :=
  let fresh := Some (repeat Matrix4.identity (count (props st))) in
  match mesh st with
  | Some buffer =>
      if Nat.eqb (List.length buffer) (count (props st)) then st
      else mkState (props st) (memo st) fresh
  | None => mkState (props st) (memo st) fresh
  end.

(** Lines 183-235: the frame callback, the system's [advance]. *)
Definition useFrame (delta : R) (st : State) : Rand State :=
  match mesh st with
  | None => ret st
  | Some buffer =>
      let dir := Streamlines_windDir (direction (props st)) in
      r <- forEach (speed (props st)) delta (bounds (props st)) dir
                   (particles (memo st)) O buffer ;;
      ret (mkState (props st)
                   (mkMemo (dep_count (memo st)) (dep_bounds (memo st)) (fst r))
                   (Some (snd r)))
  end.

(** What can happen to the mounted component. *)
Inductive Event : Type :=
| Render (p : Props)
| Commit
| Frame (delta : R).

Definition step (e : Event) (st : State) : Rand State :=
  match e with
  | Render p => render p st
  | Commit => ret (commit st)
  | Frame delta => useFrame delta st
  end.

Fixpoint run (es : list Event) (st : State) : Rand State :=
  match es with
  | [] => ret st
  | e :: es' => st' <- step e st ;; run es' st'
  end.

End Streamlines.

(** ** Model, lines 102-155 *)

Module Model.

(** What [STLLoader] hands to [onLoad], and what lines 109-111 do to it.
    The triangle data is identified by the resource it was parsed from. *)
Record BufferGeometry : Type := mkGeometry {
  source : string;
  boundingBox : bool;
  centered : bool;
  vertexNormals : bool
}.

Definition parsed (url : string) : BufferGeometry :=
  mkGeometry url false false false.

Definition computeBoundingBox (geo : BufferGeometry) : BufferGeometry :=
  mkGeometry (source geo) true (centered geo) (vertexNormals geo).

Definition center (geo : BufferGeometry) : BufferGeometry :=
  mkGeometry (source geo) true true (vertexNormals geo).

Definition computeVertexNormals (geo : BufferGeometry) : BufferGeometry :=
  mkGeometry (source geo) (boundingBox geo) (centered geo) true.

(** What the component's caller can be told. *)
Inductive Notification : Type :=
| Loaded
| LoadError (message : string).

(** The part of the world a loader callback can touch: the [geometry]
    state of the component and the notifications its caller received. *)
Record Store : Type := mkStore {
  geometry : option BufferGeometry;
  notified : list Notification
}.

(** The optional [onLoad] prop, a [() => void] of the caller: it can act
    on what the caller knows, not on the component's state. *)
Definition OnLoadProp : Type :=
  option (list Notification -> list Notification).

(** Lines 108-114: the success callback given to [loader.load]. *)
Definition onLoadCallback (onLoad : OnLoadProp) (geo : BufferGeometry)
           (s : Store) : Store :=
  let geo := computeBoundingBox geo in
  let geo := center geo in
  let geo := computeVertexNormals geo in
  let s := mkStore (Some geo) (notified s) in   (* setGeometry(geo) *)
  match onLoad with                             (* if (onLoad) onLoad() *)
  | Some f => mkStore (geometry s) (f (notified s))
  | None => s
  end.

(** A request in flight: [loader.load(url, onLoad, onProgress, onError)]
    with the callbacks it was given. *)
Record Request : Type := mkRequest {
  url : string;
  onLoad : BufferGeometry -> Store -> Store;
  onError : option (string -> Store -> Store)
}.

(** Line 108: the call passes the success callback and nothing else. *)
Definition loader_load (u : string) (onLoadProp : OnLoadProp) : Request :=
  mkRequest u (onLoadCallback onLoadProp) None.

(** How a load ends. *)
Inductive Outcome : Type :=
| Parsed
| Failed (message : string).

(** The loader finishing a request: it calls [onLoad] with the parsed
    geometry, or [onError] when one was given. *)
Definition complete (r : Request) (o : Outcome) (s : Store) : Store :=
  match o with
  | Parsed => onLoad r (parsed (url r)) s
  | Failed message =>
      match onError r with
      | Some f => f message s
      | None => s
      end
  end.

(** The mounted component and its loads in flight. *)
Record World : Type := mkWorld {
  prop_url : option string;
  prop_onLoad : OnLoadProp;
  store : Store;
  inflight : list Request
}.

(** Before any upload: [stlUrl] is null, no geometry, nothing in
    flight. *)
Definition mounted (onLoad : OnLoadProp) : World :=
  mkWorld None onLoad (mkStore None []) [].

(** [WindTunnelScene] uses [Model] without an [onLoad] prop (line 278). *)
Definition initial : World := mounted None.

(** The geometry the success callback installs for resource [u]. *)
Definition loaded (u : string) : BufferGeometry :=
  computeVertexNormals (center (computeBoundingBox (parsed u))).

(** Lines 106-115: a render with prop [url]; the effect runs when the
    dependency changed and issues a load.  It returns no cleanup. *)
Definition setUrl (u : string) (w : World) : World :=
  match prop_url w with
  | Some u' =>
      if String.eqb u' u then w
      else mkWorld (Some u) (prop_onLoad w) (store w)
                   (inflight w ++ [loader_load u (prop_onLoad w)])
  | None =>
      mkWorld (Some u) (prop_onLoad w) (store w)
              (inflight w ++ [loader_load u (prop_onLoad w)])
  end.

(** The first request in flight for [u], and the others. *)
Fixpoint take (u : string) (rs : list Request) : option (Request * list Request) :=
  match rs with
  | [] => None
  | r :: rs' =>
      if String.eqb (url r) u then Some (r, rs')
      else match take u rs' with
           | Some (r', rest) => Some (r', r :: rest)
           | None => None
           end
  end.

(** What can happen: [handleFileUpload] of the application gives the
    component a new [url] (an object URL, fresh for every file), or the
    loader finishes a request for [u]. *)
Inductive Event : Type :=
| Upload (u : string)
| Complete (u : string) (o : Outcome).

Definition step (e : Event) (w : World) : World :=
  match e with
  | Upload u => setUrl u w
  | Complete u o =>
      match take u (inflight w) with
      | Some (r, rest) =>
          mkWorld (prop_url w) (prop_onLoad w) (complete r o (store w)) rest
      | None => w
      end
  end.

Definition run (es : list Event) (w : World) : World :=
  fold_left (fun w e => step e w) es w.

(** Lines 134-153: what the component renders, the geometry of its mesh
    or nothing. *)
Definition rendered (w : World) : option BufferGeometry := geometry (store w).

(** Lines 117-132: the frame callback on [materialRef.current]. *)
Definition useFrame (windSettings : WindSettings) (elapsedTime : R)
           (material : option Uniforms) : option Uniforms :=
  match material with
  | Some u =>
      Some (mkUniforms (Model_windDir windSettings)
                       (uColorHigh u) (uColorMid u) (uColorLow u) elapsedTime)
  | None => None
  end.

End Model.

(** ** WindTunnelScene, lines 259-294 *)

Module WindTunnelScene.

(** Lines 283-288: the props [Streamlines] is rendered with. *)
Definition streamlinesProps (windSettings : WindSettings) : Streamlines.Props :=
  Streamlines.mkProps
    (particleCount windSettings)
    (speed windSettings)
    (vec3 (directionX windSettings) (directionY windSettings)
          (directionZ windSettings))
    150.

End WindTunnelScene.

(** ** ControlPanel: the wind sliders *)

Module ControlPanel.

(** A slider event: the key of [WindSettings] it is bound to and the
    parsed value ([parseFloat], or [parseInt] for the particle count). *)
Inductive SliderChange : Type :=
| Speed (value : R)
| DirectionX (value : R)
| DirectionY (value : R)
| DirectionZ (value : R)
| ParticleCount (value : nat).

(** [handleSliderChange]: the argument of [onSettingsChange],
    [{ ...settings, [key]: value }]. *)
Definition handleSliderChange (settings : WindSettings) (c : SliderChange)
  : WindSettings :=
  match c with
  | Speed v =>
      mkWindSettings v (directionX settings) (directionY settings)
                     (directionZ settings) (particleCount settings)
  | DirectionX v =>
      mkWindSettings (speed settings) v (directionY settings)
                     (directionZ settings) (particleCount settings)
  | DirectionY v =>
      mkWindSettings (speed settings) (directionX settings) v
                     (directionZ settings) (particleCount settings)
  | DirectionZ v =>
      mkWindSettings (speed settings) (directionX settings)
                     (directionY settings) v (particleCount settings)
  | ParticleCount n =>
      mkWindSettings (speed settings) (directionX settings)
                     (directionY settings) (directionZ settings) n
  end.

(** The report panel, [{analysisResult && (...)}]: shown for a non-empty
    string only. *)
Definition reportShown (analysisResult : option string) : bool :=
  match analysisResult with
  | Some EmptyString => false
  | Some _ => true
  | None => false
  end.

End ControlPanel.

(** ** src/services/geminiService.ts *)

Module geminiService.

(** [\w]: a letter, a digit or the underscore. *)
Definition is_word (c : ascii) : bool :=
  let n := nat_of_ascii c in
  ((48 <=? n) && (n <=? 57) || (65 <=? n) && (n <=? 90)
   || (97 <=? n) && (n <=? 122) || (n =? 95))%nat.

(** A literal at the head of the input: what follows it, if it is there. *)
Fixpoint dropLiteral (literal s : string) : option string :=
  match literal with
  | EmptyString => Some s
  | String c literal' =>
      match s with
      | String d s' => if Ascii.eqb c d then dropLiteral literal' s' else None
      | EmptyString => None
      end
  end.

(** [\w+], greedy: what follows the longest run of word characters. *)
Fixpoint dropWord (s : string) : string :=
  match s with
  | String c s' => if is_word c then dropWord s' else s
  | EmptyString => s
  end.

(** Line 12: [imageBase64.replace(/^data:image\/\w+;base64,/, "")].  The
    character after the run of [\w+] must be [;], which is no word
    character, so only the longest run can match. *)
Definition stripHeader (imageBase64 : string) : string :=
  match dropLiteral "data:image/" imageBase64 with
  | Some rest =>
      match rest with
      | String c _ =>
          if is_word c then
            match dropLiteral ";base64," (dropWord rest) with
            | Some base64Data => base64Data
            | None => imageBase64
            end
          else imageBase64
      | EmptyString => imageBase64
      end
  | None => imageBase64
  end.

(** What [ai.models.generateContent] can do: answer, with or without
    text, or throw. *)
Inductive Response : Type :=
| Answered (text : option string)
| Threw (cause : string).

Definition noAnalysis : string := "No analysis could be generated.".

Definition failureMessage : string :=
  "Failed to analyze the aerodynamics. Please check your API key and internet connection.".

(** [response.text || "No analysis could be generated."] *)
Definition textOrDefault (text : option string) : string :=
  match text with
  | Some EmptyString => noAnalysis
  | Some t => t
  | None => noAnalysis
  end.

(** The result of an [async] function: the value it resolves to or the
    message of the [Error] it rejects with. *)
Inductive Settled : Type :=
| Resolved (value : string)
| Rejected (message : string).

(** Lines 6-51: [analyzeAerodynamics], given the answer of the service
    to the request it sends. *)
Definition analyzeAerodynamics (generateContent : string -> R -> Response)
           (imageBase64 : string) (windSpeed : R) : Settled :=
  let base64Data := stripHeader imageBase64 in
  match generateContent base64Data windSpeed with
  | Answered text => Resolved (textOrDefault text)
  | Threw _ => Rejected failureMessage
  end.

End geminiService.

(** ** App (src/unnamed/part_000) *)

Module App.

(** The renderer kept in [glRef]: what its canvas gives for
    [toDataURL('image/png')]. *)
Record Renderer : Type := mkRenderer { toDataURL : string }.

Record State : Type := mkState {
  windSettings : WindSettings;
  stlFileUrl : option string;
  isAnalyzing : bool;
  analysisResult : option string;
  glRef : option Renderer
}.

(** The [useState] initial values and the empty ref. *)
Definition initial : State :=
  mkState (mkWindSettings 20 1 0 0 2000) None false None None.

(** [handleFileUpload], with the object URL made for the file. *)
Definition handleFileUpload (url : string) (st : State) : State :=
  mkState (windSettings st) (Some url) (isAnalyzing st) None (glRef st).

(** An analysis that was started and has not settled: the arguments
    [analyzeAerodynamics] was called with. *)
Record Pending : Type := mkPending { snapshot : string; atSpeed : R }.

(** [handleAnalyze], up to the [await]: without a renderer it returns at
    once; otherwise it sets the two states, takes the snapshot and calls
    the service. *)
Definition handleAnalyze_start (st : State) : State * option Pending :=
  match glRef st with
  | None => (st, None)
  | Some gl =>
      (mkState (windSettings st) (stlFileUrl st) true None (glRef st),
       Some (mkPending (toDataURL gl) (speed (windSettings st))))
  end.

(** [handleAnalyze], from the [await] on: [try], [catch], [finally]. *)
Definition handleAnalyze_finish (r : geminiService.Settled) (st : State) : State :=
  let result :=
    match r with
    | geminiService.Resolved value => value
    | geminiService.Rejected message => ("Error: " ++ message)%string
    end in
  mkState (windSettings st) (stlFileUrl st) false (Some result) (glRef st).

(** The application and the analyses in flight. *)
Record World : Type := mkWorld {
  state : State;
  pending : list Pending
}.

(** What can happen: the canvas is created ([setGl]), a file is chosen, a
    slider moves, the analysis button is clicked, or the service settles
    the oldest analysis in flight with response [r]. *)
Inductive Event : Type :=
| Created (gl : Renderer)
| FileChosen (url : string)
| Slider (c : ControlPanel.SliderChange)
| AnalyzeClicked
| ServiceSettled (r : geminiService.Response).

Definition step (e : Event) (w : World) : World :=
  let st := state w in
  match e with
  | Created gl =>
      mkWorld (mkState (windSettings st) (stlFileUrl st) (isAnalyzing st)
                       (analysisResult st) (Some gl))
              (pending w)
  | FileChosen url => mkWorld (handleFileUpload url st) (pending w)
  | Slider c =>
      mkWorld (mkState (ControlPanel.handleSliderChange (windSettings st) c)
                       (stlFileUrl st) (isAnalyzing st) (analysisResult st)
                       (glRef st))
              (pending w)
  | AnalyzeClicked =>
      (* <button onClick={onAnalyze} disabled={isAnalyzing}> *)
      if isAnalyzing st then w
      else
        match handleAnalyze_start st with
        | (st', Some p) => mkWorld st' (pending w ++ [p])
        | (st', None) => mkWorld st' (pending w)
        end
  | ServiceSettled r =>
      match pending w with
      | p :: rest =>
          mkWorld (handleAnalyze_finish
                     (geminiService.analyzeAerodynamics
                        (fun _ _ => r) (snapshot p) (atSpeed p))
                     st)
                  rest
      | [] => w
      end
  end.

Definition run (es : list Event) (w : World) : World :=
  fold_left (fun w e => step e w) es w.

Definition start : World := mkWorld initial [].

End App.

(** ** Vocabulary of the statements *)

(** The particle lies in the cube of side [bounds] centred at the origin. *)
Definition inside (bounds : R) (p : Particle.t) : Prop :=
  - (bounds / 2) <= Particle.x p <= bounds / 2
  /\ - (bounds / 2) <= Particle.y p <= bounds / 2
  /\ - (bounds / 2) <= Particle.z p <= bounds / 2.

(** The respawn rule for one axis: [c] is the coordinate after
    displacement, [d] the wind component on the axis, [c'] the coordinate
    the frame leaves behind. *)
Definition respawned (c d bounds c' : R) : Prop :=
  (Rabs c > bounds / 2 ->
     (Rabs d > 0.1 ->
        exists r, 0 <= r < 1 /\ -5 <= r * 10 - 5 <= 5
                  /\ c' = - Math_sign d * (bounds / 2) + (r * 10 - 5)
                  /\ (0 < d -> c' = - (bounds / 2) + (r * 10 - 5))
                  /\ (d < 0 -> c' = bounds / 2 + (r * 10 - 5)))
     /\ (Rabs d <= 0.1 ->
        exists r, 0 <= r < 1 /\ c' = (r - 0.5) * bounds
                  /\ - (bounds / 2) <= c' <= bounds / 2))
  /\ (Rabs c <= bounds / 2 -> c' = c).

(** Random numbers an axis consumes: one when it is out of bounds. *)
Definition axis_draws (c bounds : R) : nat :=
  if Rgt_dec (Rabs c) (bounds / 2) then 1%nat else 0%nat.

(** A computation that only moves the cursor of the generator forward. *)
Definition draws_only {A : Type} (m : Rand A) : Prop :=
  forall g, samples (snd (m g)) = samples g.

(** The pool invariant: the pool holds exactly [count] particles, and the
    memo cell was computed for the current [count] and [bounds]. *)
Definition pool_ok (st : Streamlines.State) : Prop :=
  List.length (Streamlines.particles (Streamlines.memo st))
  = Streamlines.count (Streamlines.props st)
  /\ Streamlines.dep_count (Streamlines.memo st)
     = Streamlines.count (Streamlines.props st)
  /\ Streamlines.dep_bounds (Streamlines.memo st)
     = Streamlines.bounds (Streamlines.props st).

(** The life of the component: the first render, then any events. *)
Definition session (p : Streamlines.Props) (es : list Streamlines.Event)
  : Rand Streamlines.State :=
  st <- Streamlines.mount p ;; Streamlines.run es st.

(** Continuity of a colour-valued function at a point, channel by
    channel. *)
Definition continuous_at (f : R -> Vector3.t) (a : R) : Prop :=
  continuity_pt (fun i => Vector3.x (f i)) a
  /\ continuity_pt (fun i => Vector3.y (f i)) a
  /\ continuity_pt (fun i => Vector3.z (f i)) a.

(** Smoothstep semantics of the ramp over [edge0, edge1]: 0 at the lower
    bound, 1 at the upper bound, monotone, derivative 0 at both ends. *)
Definition smooth_ramp (edge0 edge1 : R) : Prop :=
  GLSL.smoothstep edge0 edge1 edge0 = 0
  /\ GLSL.smoothstep edge0 edge1 edge1 = 1
  /\ (forall a b, a <= b -> GLSL.smoothstep edge0 edge1 a <= GLSL.smoothstep edge0 edge1 b)
  /\ derivable_pt_lim (GLSL.smoothstep edge0 edge1) edge0 0
  /\ derivable_pt_lim (GLSL.smoothstep edge0 edge1) edge1 0.

(** The uniforms of a frame: the material's colours with the wind
    direction and time the frame callback wrote. *)
Definition frameUniforms (W : Vector3.t) (t : R) : Uniforms :=
  mkUniforms W
             (uColorHigh AerodynamicMaterial.uniforms)
             (uColorMid AerodynamicMaterial.uniforms)
             (uColorLow AerodynamicMaterial.uniforms)
             t.

(** One colour channel of the two interpolating bands, lines 79-84; [lo],
    [mid] and [hi] are the channel's values in the three reference colours. *)
Definition band (lo mid hi i : R) : R :=
  if Rgt_dec i 0.2
  then GLSL.mix1 mid hi (GLSL.smoothstep 0.2 1 i)
  else GLSL.mix1 lo mid (GLSL.smoothstep (-0.2) 0.2 i).

(** The position of a particle after displacement, lines 191-195. *)
Definition displaced (speed delta : R) (dir : Vector3.t) (p : Particle.t)
  : Vector3.t :=
  let moveSpeed := speed * Particle.speedOffset p * delta * 5 in
  vec3 (Particle.x p + Vector3.x dir * moveSpeed)
       (Particle.y p + Vector3.y dir * moveSpeed)
       (Particle.z p + Vector3.z dir * moveSpeed).

(** The respawn rule on the three axes of a particle: [p] before the
    frame, [p'] after it. *)
Definition wrapped (speed delta bounds : R) (dir : Vector3.t)
           (p p' : Particle.t) : Prop :=
  respawned (Vector3.x (displaced speed delta dir p)) (Vector3.x dir) bounds
            (Particle.x p')
  /\ respawned (Vector3.y (displaced speed delta dir p)) (Vector3.y dir) bounds
               (Particle.y p')
  /\ respawned (Vector3.z (displaced speed delta dir p)) (Vector3.z dir) bounds
               (Particle.z p').

(** Random numbers a particle consumes in one frame. *)
Definition respawns (speed delta bounds : R) (dir : Vector3.t) (p : Particle.t)
  : nat :=
  (axis_draws (Vector3.x (displaced speed delta dir p)) bounds
   + axis_draws (Vector3.y (displaced speed delta dir p)) bounds
   + axis_draws (Vector3.z (displaced speed delta dir p)) bounds)%nat.

(** The wrap scenario of the specification: wind along +X at speed 20,
    one particle at x = 76 in a volume of side 150, the mesh mounted; the
    generator returns 0.5 on every draw. *)
Definition scenario_state : Streamlines.State :=
  Streamlines.mkState (Streamlines.mkProps 1 20 (vec3 1 0 0) 150)
                      (Streamlines.mkMemo 1 150 [Particle.mk 76 0 0 1 1])
                      (Some [Matrix4.identity]).

Definition scenario_rng : Rng := mkRng (fun _ => 0.5) 0.

(** The per-particle variation as the pool creation draws it. *)
Definition offsets_ok (p : Particle.t) : Prop :=
  0.8 <= Particle.speedOffset p <= 1.3 /\ 0.5 <= Particle.sizeOffset p <= 1.

(** The position of a particle. *)
Definition positionOf (p : Particle.t) : Vector3.t :=
  vec3 (Particle.x p) (Particle.y p) (Particle.z p).

(** Every character of the string is a word character. *)
Fixpoint all_word (w : string) : bool :=
  match w with
  | EmptyString => true
  | String c w' => geminiService.is_word c && all_word w'
  end.

(** The header the regular expression of line 12 matches, for image type
    [w]. *)
Definition dataUrlHeader (w : string) : string :=
  ("data:image/" ++ w ++ ";base64,")%string.

(** The event is not the creation of the canvas. *)
Definition notCreated (e : App.Event) : Prop :=
  match e with
  | App.Created _ => False
  | _ => True
  end.


(** The horizontal unit vector across the wind: the [_x] that
    [Matrix4.lookAt] builds from the default up vector and the direction. *)
Definition acrossWind (dir : Vector3.t) : Vector3.t :=
  Vector3.normalize (Vector3.crossVectors (vec3 0 1 0) dir).

(** The squared norm of a quaternion. *)
Definition normSq (q : Quaternion.t) : R :=
  Quaternion.x q * Quaternion.x q + Quaternion.y q * Quaternion.y q
  + Quaternion.z q * Quaternion.z q + Quaternion.w q * Quaternion.w q.

(** The particle that pool creation builds from the five consecutive
    random samples [s k], ..., [s (k + 4)]. *)
(** A direction the sliders can produce: each component between -1 and 1,
    and, the sliders moving in steps of 0.1, either all three zero or a
    squared length of at least 0.01. *)
Definition slider_direction (v : Vector3.t) : Prop :=
  -1 <= Vector3.x v <= 1 /\ -1 <= Vector3.y v <= 1 /\ -1 <= Vector3.z v <= 1
  /\ (Vector3.lengthSq v = 0 \/ 0.01 <= Vector3.lengthSq v).

Definition drawn (s : nat -> R) (k : nat) (bounds : R) : Particle.t :=
  Particle.mk ((s k - 0.5) * bounds)
              ((s (S k) - 0.5) * bounds)
              ((s (S (S k)) - 0.5) * bounds)
              (s (S (S (S k))) * 0.5 + 0.8)
              (s (S (S (S (S k)))) * 0.5 + 0.5).

(** The pool of [count] particles built from the samples from index [k]
    on: particle [j] takes samples [k + 5 j], ..., [k + 5 j + 4]. *)
Definition drawnPool (s : nat -> R) (k count : nat) (bounds : R)
  : list Particle.t :=
  map (fun j => drawn s (k + 5 * j) bounds) (seq 0 count).

(** A computation that leaves the stream of samples alone and never moves
    the cursor back: what it consumes is never handed out again. *)
Definition forward {A : Type} (m : Rand A) : Prop :=
  forall g, samples (snd (m g)) = samples g
            /\ (cursor g <= cursor (snd (m g)))%nat.

(** The respawn rule for one axis, [r] being the random sample the axis
    draws when it is out of bounds: [c] is the coordinate after
    displacement, [d] the wind component, [c'] the coordinate the frame
    leaves behind. *)
Definition respawned_by (r c d bounds c' : R) : Prop :=
  (Rabs c > bounds / 2 ->
     (Rabs d > 0.1 ->
        c' = - Math_sign d * (bounds / 2) + (r * 10 - 5)
        /\ (0 < d -> c' = - (bounds / 2) + (r * 10 - 5))
        /\ (d < 0 -> c' = bounds / 2 + (r * 10 - 5)))
     /\ (Rabs d <= 0.1 -> c' = (r - 0.5) * bounds))
  /\ (Rabs c <= bounds / 2 -> c' = c).

(** The respawn rule on the three axes of a particle, with the samples
    from index [k] on: x takes sample [k] if it is out of bounds, y the
    next unused one, z the one after. *)
Definition wrapped_by (s : nat -> R) (k : nat) (speed delta bounds : R)
           (dir : Vector3.t) (p p' : Particle.t) : Prop :=
  let q := displaced speed delta dir p in
  let ky := (k + axis_draws (Vector3.x q) bounds)%nat in
  let kz := (ky + axis_draws (Vector3.y q) bounds)%nat in
  respawned_by (s k) (Vector3.x q) (Vector3.x dir) bounds (Particle.x p')
  /\ respawned_by (s ky) (Vector3.y q) (Vector3.y dir) bounds (Particle.y p')
  /\ respawned_by (s kz) (Vector3.z q) (Vector3.z dir) bounds (Particle.z p').

(** The same for a whole pool: each particle starts at the sample index
    where the one before it stopped. *)
Fixpoint pool_wrapped_by (s : nat -> R) (k : nat) (speed delta bounds : R)
         (dir : Vector3.t) (ps ps' : list Particle.t) : Prop :=
  match ps, ps' with
  | [], [] => True
  | p :: rest, p' :: rest' =>
      wrapped_by s k speed delta bounds dir p p'
      /\ pool_wrapped_by s (k + respawns speed delta bounds dir p)
                         speed delta bounds dir rest rest'
  | _, _ => False
  end.

(** * Properties *)

(** ** Real-number helpers *)

Lemma sqrt_unit_square : sqrt (1 * 1 + 0 * 0 + 0 * 0) = 1.
Proof.
  replace (1 * 1 + 0 * 0 + 0 * 0) with 1 by ring.
  exact sqrt_1.
Qed.

Lemma js_or_nonzero (a b : R) : a <> 0 -> js_or a b = a.
Proof.
  intros Ha. unfold js_or. destruct (Req_dec_T a 0); [contradiction | reflexivity].
Qed.

Lemma Vector3_eta (v : Vector3.t) :
  vec3 (Vector3.x v) (Vector3.y v) (Vector3.z v) = v.
Proof. destruct v; reflexivity. Qed.

Lemma Vector3_length_sqrt (v : Vector3.t) :
  Vector3.length v = sqrt (Vector3.lengthSq v).
Proof. reflexivity. Qed.

Lemma Vector3_unit_lengthSq (v : Vector3.t) :
  Vector3.length v = 1 -> Vector3.lengthSq v = 1.
Proof.
  intros H. rewrite Vector3_length_sqrt in H.
  assert (Hnn : 0 <= Vector3.lengthSq v).
  { unfold Vector3.lengthSq.
    pose proof (Rle_0_sqr (Vector3.x v)); pose proof (Rle_0_sqr (Vector3.y v));
    pose proof (Rle_0_sqr (Vector3.z v)). unfold Rsqr in *. lra. }
  rewrite <- (sqrt_sqrt _ Hnn). rewrite H. ring.
Qed.

Lemma Vector3_normalize_unit (v : Vector3.t) :
  Vector3.length v = 1 -> Vector3.normalize v = v.
Proof.
  intros H. unfold Vector3.normalize. rewrite H.
  rewrite js_or_nonzero by lra.
  unfold Vector3.divideScalar, Vector3.multiplyScalar.
  destruct v as [a b c]; simpl. f_equal; lra.
Qed.

Lemma Vector3_normalize_zero : Vector3.normalize (vec3 0 0 0) = vec3 0 0 0.
Proof.
  unfold Vector3.normalize, Vector3.divideScalar, Vector3.multiplyScalar; simpl.
  f_equal; ring.
Qed.

(** ** Wind-direction normalisation *)

(** C7: on a unit vector the direction computed by the frame callback of
    [Model] (the shader uniform) and by that of [Streamlines] (the particle
    update) is the vector itself, and on the all-zero vector both yield
    (1, 0, 0): the degenerate input has a defined result. *)
Theorem windDir_unit_fixed_zero_default :
  (forall v : Vector3.t, Vector3.length v = 1 ->
     Streamlines_windDir v = v /\
     forall s n,
       Model_windDir (mkWindSettings s (Vector3.x v) (Vector3.y v) (Vector3.z v) n) = v)
  /\ Streamlines_windDir (vec3 0 0 0) = vec3 1 0 0
  /\ (forall s n, Model_windDir (mkWindSettings s 0 0 0 n) = vec3 1 0 0).
Proof.
  split; [| split].
  - intros v H.
    assert (Hs : Streamlines_windDir v = v).
    { unfold Streamlines_windDir. rewrite (Vector3_normalize_unit v H).
      destruct (Req_dec_T (Vector3.lengthSq v) 0) as [E | _]; [| reflexivity].
      rewrite (Vector3_unit_lengthSq v H) in E. lra. }
    split; [exact Hs |].
    intros s n. unfold Model_windDir; simpl.
    rewrite Vector3_eta. exact Hs.
  - unfold Streamlines_windDir. rewrite Vector3_normalize_zero.
    destruct (Req_dec_T (Vector3.lengthSq (vec3 0 0 0)) 0) as [_ | N];
      [reflexivity |].
    exfalso; apply N; unfold Vector3.lengthSq; simpl; ring.
  - intros s n. unfold Model_windDir; simpl. rewrite Vector3_normalize_zero.
    destruct (Req_dec_T (Vector3.lengthSq (vec3 0 0 0)) 0) as [_ | N];
      [reflexivity |].
    exfalso; apply N; unfold Vector3.lengthSq; simpl; ring.
Qed.

Lemma windDir_unit_fixed_zero_default_witness :
  Vector3.length (vec3 1 0 0) = 1 /\ Streamlines_windDir (vec3 1 0 0) = vec3 1 0 0.
Proof.
  split.
  - exact sqrt_unit_square.
  - apply (proj1 windDir_unit_fixed_zero_default (vec3 1 0 0)).
    exact sqrt_unit_square.
Defined.

(** The frame callback of [Model] writes that direction, and the elapsed
    time, into the uniforms of the mounted material and leaves the three
    reference colours alone. *)
Lemma Model_useFrame_uniforms (ws : WindSettings) (t : R) (u : Uniforms) :
  Model.useFrame ws t (Some u)
  = Some (mkUniforms (Model_windDir ws) (uColorHigh u) (uColorMid u)
                     (uColorLow u) t).
Proof. reflexivity. Qed.

(** ** Streak scale *)

(** C9: for speeds 0 <= s1 <= s2 the stretch factor does not decrease and
    is at least 2, and the two thickness components of the scale given to a
    particle are [0.3 * sizeOffset] whatever the speed. *)
Theorem stretch_monotone_thickness_constant
        (s1 s2 : R) (particle : Particle.t) (H1 : 0 <= s1) (H12 : s1 <= s2) :
  stretch s1 <= stretch s2
  /\ 2 <= stretch s1
  /\ Vector3.x (Streamlines.dummyScale s1 particle) = Rmax 2 (s1 * 0.8)
  /\ Vector3.y (Streamlines.dummyScale s1 particle)
     = Vector3.y (Streamlines.dummyScale s2 particle)
  /\ Vector3.z (Streamlines.dummyScale s1 particle)
     = Vector3.z (Streamlines.dummyScale s2 particle)
  /\ Vector3.y (Streamlines.dummyScale s1 particle) = 0.3 * Particle.sizeOffset particle
  /\ Vector3.z (Streamlines.dummyScale s1 particle) = 0.3 * Particle.sizeOffset particle.
Proof.
  unfold stretch, Math_max, Streamlines.dummyScale, thickness; simpl.
  repeat split; try reflexivity.
  - unfold Rmax.
    destruct (Rle_dec 2 (s1 * 0.8)); destruct (Rle_dec 2 (s2 * 0.8)); lra.
  - apply Rmax_l.
Qed.

Lemma stretch_monotone_thickness_constant_witness :
  0 <= 10 /\ 10 <= 20 /\ stretch 10 <= stretch 20 /\ 2 <= stretch 10.
Proof.
  assert (H1 : 0 <= 10) by lra.
  assert (H2 : 10 <= 20) by lra.
  split; [exact H1 | split; [exact H2 |]].
  pose proof (stretch_monotone_thickness_constant
                10 20 (Particle.mk 0 0 0 1 1) H1 H2) as (Hm & Hf & _).
  split; [exact Hm | exact Hf].
Defined.

(** ** The random monad *)

Lemma draws_only_ret {A : Type} (a : A) : draws_only (ret a).
Proof. intros g; reflexivity. Qed.

Lemma draws_only_random : draws_only Math_random.
Proof. intros g; reflexivity. Qed.

Lemma draws_only_bind {A B : Type} (m : Rand A) (k : A -> Rand B) :
  draws_only m -> (forall a, draws_only (k a)) -> draws_only (bind m k).
Proof.
  intros Hm Hk g. unfold bind.
  specialize (Hm g). destruct (m g) as [a g1]; simpl in Hm.
  rewrite (Hk a g1). exact Hm.
Qed.

Create HintDb rand.
#[local] Hint Resolve draws_only_ret draws_only_random : rand.
#[local] Hint Extern 2 (draws_only (bind _ _)) =>
  apply draws_only_bind; [| intro] : rand.

Lemma unit_samples_kept {A : Type} (m : Rand A) (g : Rng) :
  draws_only m -> unit_samples g -> unit_samples (snd (m g)).
Proof.
  intros Hm Hg n. rewrite (Hm g). apply Hg.
Qed.

Lemma draws_only_newParticle (b : R) : draws_only (Streamlines.newParticle b).
Proof. unfold Streamlines.newParticle. auto 12 with rand. Qed.

Lemma draws_only_initLoop (n : nat) (b : R) (temp : list Particle.t) :
  draws_only (Streamlines.initLoop n b temp).
Proof.
  revert temp. induction n as [| n IH]; intros temp; simpl.
  - auto with rand.
  - apply draws_only_bind; [apply draws_only_newParticle | intro; apply IH].
Qed.

Lemma draws_only_wrap (c d b : R) : draws_only (Streamlines.wrap c d b).
Proof.
  unfold Streamlines.wrap.
  destruct (Rgt_dec (Math_abs c) (b / 2)); [| auto with rand].
  destruct (Rgt_dec (Math_abs d) 0.1); auto with rand.
Qed.

Lemma draws_only_moveParticle (s dt b : R) (dir : Vector3.t) (p : Particle.t) :
  draws_only (Streamlines.moveParticle s dt b dir p).
Proof.
  unfold Streamlines.moveParticle.
  repeat (apply draws_only_bind; [apply draws_only_wrap | intro]).
  auto with rand.
Qed.

(** ** Particle pool *)

Lemma newParticle_inside (b : R) (g : Rng) :
  unit_samples g -> 0 <= b -> inside b (fst (Streamlines.newParticle b g)).
Proof.
  intros Hg Hb. unfold Streamlines.newParticle, bind, ret, Math_random; simpl.
  pose proof (Hg (cursor g)) as H0.
  pose proof (Hg (S (cursor g))) as H1.
  pose proof (Hg (S (S (cursor g)))) as H2.
  unfold inside; simpl. repeat split; nra.
Qed.

Lemma initLoop_length (n : nat) (b : R) (temp : list Particle.t) (g : Rng) :
  List.length (fst (Streamlines.initLoop n b temp g)) = (List.length temp + n)%nat.
Proof.
  revert temp g. induction n as [| n IH]; intros temp g; simpl.
  - unfold ret; simpl. lia.
  - unfold bind.
    destruct (Streamlines.newParticle b g) as [p g1].
    rewrite IH. rewrite length_app; simpl. lia.
Qed.

Lemma initLoop_inside (n : nat) (b : R) (temp : list Particle.t) (g : Rng) :
  unit_samples g -> 0 <= b -> Forall (inside b) temp ->
  Forall (inside b) (fst (Streamlines.initLoop n b temp g)).
Proof.
  revert temp g. induction n as [| n IH]; intros temp g Hg Hb Ht; simpl.
  - exact Ht.
  - unfold bind.
    pose proof (newParticle_inside b g Hg Hb) as Hp.
    pose proof (unit_samples_kept _ g (draws_only_newParticle b) Hg) as Hg1.
    destruct (Streamlines.newParticle b g) as [p g1]; simpl in *.
    apply IH; auto.
    apply Forall_app; split; [exact Ht | constructor; [exact Hp | constructor]].
Qed.

Lemma initParticles_length (n : nat) (b : R) (g : Rng) :
  List.length (fst (Streamlines.initParticles n b g)) = n.
Proof. unfold Streamlines.initParticles. rewrite initLoop_length. reflexivity. Qed.

Lemma initParticles_inside (n : nat) (b : R) (g : Rng) :
  unit_samples g -> 0 <= b ->
  Forall (inside b) (fst (Streamlines.initParticles n b g)).
Proof. intros Hg Hb. apply initLoop_inside; auto. Qed.

Lemma moveParticle_offsets (s dt b : R) (dir : Vector3.t) (p : Particle.t) (g : Rng) :
  Particle.speedOffset (fst (Streamlines.moveParticle s dt b dir p g))
  = Particle.speedOffset p
  /\ Particle.sizeOffset (fst (Streamlines.moveParticle s dt b dir p g))
     = Particle.sizeOffset p.
Proof.
  unfold Streamlines.moveParticle, bind, ret.
  destruct (Streamlines.wrap _ _ _ g) as [x1 g1].
  destruct (Streamlines.wrap _ _ _ g1) as [y1 g2].
  destruct (Streamlines.wrap _ _ _ g2) as [z1 g3].
  simpl. split; reflexivity.
Qed.

Lemma forEach_frame (s dt b : R) (dir : Vector3.t) (ps : list Particle.t) :
  forall (i : nat) (buffer : list Matrix4.t) (g : Rng) ps' buffer' g',
    Streamlines.forEach s dt b dir ps i buffer g = (ps', buffer', g') ->
    List.length ps' = List.length ps
    /\ map Particle.speedOffset ps' = map Particle.speedOffset ps
    /\ map Particle.sizeOffset ps' = map Particle.sizeOffset ps.
Proof.
  induction ps as [| p ps IH]; intros i buffer g ps' buffer' g' H; simpl in H.
  - inversion H; subst. repeat split.
  - unfold bind, ret in H.
    pose proof (moveParticle_offsets s dt b dir p g) as [Hsp Hsz].
    destruct (Streamlines.moveParticle s dt b dir p g) as [p1 g1].
    cbn [fst snd] in Hsp, Hsz.
    destruct (Streamlines.forEach s dt b dir ps (S i) _ g1)
      as [[ps1 buf1] g2] eqn:E.
    apply IH in E. destruct E as (Hl & Ha & Hb).
    inversion H; subst. cbn [fst snd map List.length].
    rewrite Hl, Ha, Hb, Hsp, Hsz. repeat split.
Qed.

Lemma useFrame_frame (delta : R) (st : Streamlines.State) (g : Rng) :
  let st' := fst (Streamlines.useFrame delta st g) in
  Streamlines.props st' = Streamlines.props st
  /\ Streamlines.dep_count (Streamlines.memo st')
     = Streamlines.dep_count (Streamlines.memo st)
  /\ Streamlines.dep_bounds (Streamlines.memo st')
     = Streamlines.dep_bounds (Streamlines.memo st)
  /\ List.length (Streamlines.particles (Streamlines.memo st'))
     = List.length (Streamlines.particles (Streamlines.memo st))
  /\ map Particle.speedOffset (Streamlines.particles (Streamlines.memo st'))
     = map Particle.speedOffset (Streamlines.particles (Streamlines.memo st))
  /\ map Particle.sizeOffset (Streamlines.particles (Streamlines.memo st'))
     = map Particle.sizeOffset (Streamlines.particles (Streamlines.memo st)).
Proof.
  unfold Streamlines.useFrame.
  destruct (Streamlines.mesh st) as [buffer |]; [| cbn; repeat split].
  unfold bind, ret.
  destruct (Streamlines.forEach _ _ _ _ _ _ _ g) as [[ps' buf'] g'] eqn:E.
  apply forEach_frame in E. destruct E as (Hl & Ha & Hb).
  cbn. repeat split; assumption.
Qed.

Lemma frames_keep_offsets (deltas : list R) :
  forall (st : Streamlines.State) (g : Rng),
    let st' := fst (Streamlines.run (map Streamlines.Frame deltas) st g) in
    Streamlines.props st' = Streamlines.props st
    /\ List.length (Streamlines.particles (Streamlines.memo st'))
       = List.length (Streamlines.particles (Streamlines.memo st))
    /\ map Particle.speedOffset (Streamlines.particles (Streamlines.memo st'))
       = map Particle.speedOffset (Streamlines.particles (Streamlines.memo st))
    /\ map Particle.sizeOffset (Streamlines.particles (Streamlines.memo st'))
       = map Particle.sizeOffset (Streamlines.particles (Streamlines.memo st)).
Proof.
  induction deltas as [| d ds IH]; intros st g; cbn [map Streamlines.run].
  - cbn. repeat split.
  - unfold bind. cbn [Streamlines.step].
    pose proof (useFrame_frame d st g) as (Hp & _ & _ & Hl & Ha & Hb).
    destruct (Streamlines.useFrame d st g) as [st1 g1]. cbn [fst] in *.
    specialize (IH st1 g1). cbv zeta in IH. destruct IH as (Hp' & Hl' & Ha' & Hb').
    cbv zeta. repeat split; congruence.
Qed.

(** C10: a frame callback, and any number of them in a row, leaves the
    [speedOffset] and [sizeOffset] of every particle as they were (and the
    props, the memo dependencies and the number of particles with them):
    only positions and instance matrices change. *)
Theorem advance_keeps_speedOffset_sizeOffset :
  (forall (delta : R) (st : Streamlines.State) (g : Rng),
     let st' := fst (Streamlines.useFrame delta st g) in
     map Particle.speedOffset (Streamlines.particles (Streamlines.memo st'))
     = map Particle.speedOffset (Streamlines.particles (Streamlines.memo st))
     /\ map Particle.sizeOffset (Streamlines.particles (Streamlines.memo st'))
        = map Particle.sizeOffset (Streamlines.particles (Streamlines.memo st))
     /\ Streamlines.props st' = Streamlines.props st
     /\ Streamlines.dep_count (Streamlines.memo st')
        = Streamlines.dep_count (Streamlines.memo st)
     /\ Streamlines.dep_bounds (Streamlines.memo st')
        = Streamlines.dep_bounds (Streamlines.memo st))
  /\ (forall (deltas : list R) (st : Streamlines.State) (g : Rng),
        let st' := fst (Streamlines.run (map Streamlines.Frame deltas) st g) in
        map Particle.speedOffset (Streamlines.particles (Streamlines.memo st'))
        = map Particle.speedOffset (Streamlines.particles (Streamlines.memo st))
        /\ map Particle.sizeOffset (Streamlines.particles (Streamlines.memo st'))
           = map Particle.sizeOffset (Streamlines.particles (Streamlines.memo st))).
Proof.
  split.
  - intros delta st g.
    pose proof (useFrame_frame delta st g) as H. cbv zeta in *.
    destruct H as (Hp & Hc & Hb & _ & Ha & Hz). repeat split; assumption.
  - intros deltas st g.
    pose proof (frames_keep_offsets deltas st g) as H. cbv zeta in *.
    destruct H as (_ & _ & Ha & Hz). split; assumption.
Qed.

Lemma useMemo_first (n : nat) (b : R) (g : Rng) :
  fst (Streamlines.useMemo_particles None n b g)
  = Streamlines.mkMemo n b (fst (Streamlines.initParticles n b g)).
Proof.
  unfold Streamlines.useMemo_particles, bind, ret.
  destruct (Streamlines.initParticles n b g); reflexivity.
Qed.

Lemma same_deps_true (m : Streamlines.Memo) (n : nat) (b : R) :
  Streamlines.same_deps m n b = true <->
  Streamlines.dep_count m = n /\ Streamlines.dep_bounds m = b.
Proof.
  unfold Streamlines.same_deps. rewrite andb_true_iff, Nat.eqb_eq.
  destruct (Req_dec_T (Streamlines.dep_bounds m) b); split; intros [H1 H2];
    split; auto; discriminate.
Qed.

Lemma useMemo_changed (m : Streamlines.Memo) (n : nat) (b : R) (g : Rng) :
  Streamlines.dep_count m <> n \/ Streamlines.dep_bounds m <> b ->
  fst (Streamlines.useMemo_particles (Some m) n b g)
  = Streamlines.mkMemo n b (fst (Streamlines.initParticles n b g)).
Proof.
  intros H. unfold Streamlines.useMemo_particles.
  destruct (Streamlines.same_deps m n b) eqn:E.
  - apply same_deps_true in E. destruct E; destruct H; contradiction.
  - unfold bind, ret. destruct (Streamlines.initParticles n b g); reflexivity.
Qed.

Lemma mount_pool_ok (p : Streamlines.Props) (g : Rng) :
  pool_ok (fst (Streamlines.mount p g)).
Proof.
  unfold Streamlines.mount, bind, ret.
  pose proof (useMemo_first (Streamlines.count p) (Streamlines.bounds p) g) as H.
  destruct (Streamlines.useMemo_particles None _ _ g) as [m g1].
  cbn [fst] in *. subst m. unfold pool_ok; cbn.
  rewrite initParticles_length. repeat split.
Qed.

Lemma step_pool_ok (e : Streamlines.Event) (st : Streamlines.State) (g : Rng) :
  pool_ok st -> pool_ok (fst (Streamlines.step e st g)).
Proof.
  intros (Hl & Hc & Hb). destruct e as [p | | delta]; cbn [Streamlines.step].
  - unfold Streamlines.render, Streamlines.useMemo_particles.
    destruct (Streamlines.same_deps (Streamlines.memo st) (Streamlines.count p)
                                    (Streamlines.bounds p)) eqn:E.
    + apply same_deps_true in E. destruct E as [E1 E2].
      unfold bind, ret, pool_ok; cbn. repeat split; congruence.
    + unfold bind, ret.
      pose proof (initParticles_length (Streamlines.count p) (Streamlines.bounds p) g).
      destruct (Streamlines.initParticles _ _ g) as [ps g1].
      unfold pool_ok; cbn in *. repeat split; assumption.
  - unfold ret, pool_ok, Streamlines.commit; cbn [fst].
    destruct (Streamlines.mesh st) as [buffer |];
      [destruct (Nat.eqb _ _) |]; cbn; repeat split; assumption.
  - pose proof (useFrame_frame delta st g) as H. cbv zeta in H.
    destruct H as (Hp & Hdc & Hdb & Hlen & _ & _).
    unfold pool_ok. rewrite Hp, Hdc, Hdb, Hlen. repeat split; assumption.
Qed.

Lemma run_pool_ok (es : list Streamlines.Event) :
  forall (st : Streamlines.State) (g : Rng),
    pool_ok st -> pool_ok (fst (Streamlines.run es st g)).
Proof.
  induction es as [| e es IH]; intros st g H; cbn [Streamlines.run].
  - exact H.
  - unfold bind.
    pose proof (step_pool_ok e st g H) as H1.
    destruct (Streamlines.step e st g) as [st1 g1]. cbn [fst] in H1.
    apply IH; exact H1.
Qed.

(** *** The samples a fresh pool is made of *)

Lemma newParticle_drawn (b : R) (g : Rng) :
  Streamlines.newParticle b g
  = (drawn (samples g) (cursor g) b, mkRng (samples g) (5 + cursor g)).
Proof. reflexivity. Qed.

Lemma drawnPool_S (s : nat -> R) (k n : nat) (b : R) :
  drawnPool s k (S n) b = drawn s k b :: drawnPool s (5 + k) n b.
Proof.
  unfold drawnPool. rewrite <- cons_seq, <- seq_shift, map_cons, map_map.
  rewrite Nat.mul_0_r, Nat.add_0_r. f_equal.
  apply map_ext. intros j. f_equal. lia.
Qed.

Lemma initLoop_drawn (n : nat) (b : R) :
  forall (temp : list Particle.t) (g : Rng),
    Streamlines.initLoop n b temp g
    = (temp ++ drawnPool (samples g) (cursor g) n b,
       mkRng (samples g) (5 * n + cursor g)).
Proof.
  induction n as [| n IH]; intros temp g; simpl Streamlines.initLoop.
  - unfold ret, drawnPool. simpl. rewrite app_nil_r. destruct g; reflexivity.
  - unfold bind. rewrite newParticle_drawn. rewrite IH.
    cbn [samples cursor]. rewrite drawnPool_S, <- app_assoc. simpl app.
    f_equal. f_equal. lia.
Qed.

Lemma initParticles_drawn (n : nat) (b : R) (g : Rng) :
  Streamlines.initParticles n b g
  = (drawnPool (samples g) (cursor g) n b, mkRng (samples g) (5 * n + cursor g)).
Proof. unfold Streamlines.initParticles. rewrite initLoop_drawn. reflexivity. Qed.

Lemma forward_ret {A : Type} (a : A) : forward (ret a).
Proof. intros g. split; [reflexivity | apply Nat.le_refl]. Qed.

Lemma forward_random : forward Math_random.
Proof. intros g. split; [reflexivity | simpl; lia]. Qed.

Lemma forward_bind {A B : Type} (m : Rand A) (k : A -> Rand B) :
  forward m -> (forall a, forward (k a)) -> forward (bind m k).
Proof.
  intros Hm Hk g. unfold bind.
  destruct (Hm g) as [H1 H2]. destruct (m g) as [a g1]. cbn [snd] in H1, H2.
  destruct (Hk a g1) as [H3 H4]. split; [congruence | lia].
Qed.

Lemma forward_initParticles (n : nat) (b : R) :
  forward (Streamlines.initParticles n b).
Proof. intros g. rewrite initParticles_drawn. simpl. split; [reflexivity | lia]. Qed.

Lemma forward_useMemo (cell : option Streamlines.Memo) (n : nat) (b : R) :
  forward (Streamlines.useMemo_particles cell n b).
Proof.
  unfold Streamlines.useMemo_particles.
  destruct cell as [m |]; [destruct (Streamlines.same_deps m n b) |];
    try apply forward_ret;
    (apply forward_bind; [apply forward_initParticles | intro; apply forward_ret]).
Qed.

Lemma forward_wrap (c d b : R) : forward (Streamlines.wrap c d b).
Proof.
  unfold Streamlines.wrap.
  destruct (Rgt_dec (Math_abs c) (b / 2)); [| apply forward_ret].
  destruct (Rgt_dec (Math_abs d) 0.1);
    (apply forward_bind; [apply forward_random | intro; apply forward_ret]).
Qed.

Lemma forward_moveParticle (s dt b : R) (dir : Vector3.t) (p : Particle.t) :
  forward (Streamlines.moveParticle s dt b dir p).
Proof.
  unfold Streamlines.moveParticle.
  repeat (apply forward_bind; [apply forward_wrap | intro]).
  apply forward_ret.
Qed.

Lemma forward_forEach (s dt b : R) (dir : Vector3.t) (ps : list Particle.t) :
  forall i buffer, forward (Streamlines.forEach s dt b dir ps i buffer).
Proof.
  induction ps as [| p ps IH]; intros i buffer; simpl.
  - apply forward_ret.
  - apply forward_bind; [apply forward_moveParticle | intro p'].
    apply forward_bind; [apply IH | intro; apply forward_ret].
Qed.

Lemma forward_step (e : Streamlines.Event) (st : Streamlines.State) :
  forward (Streamlines.step e st).
Proof.
  destruct e as [p | | delta]; cbn [Streamlines.step].
  - unfold Streamlines.render.
    apply forward_bind; [apply forward_useMemo | intro; apply forward_ret].
  - apply forward_ret.
  - unfold Streamlines.useFrame. destruct (Streamlines.mesh st); [| apply forward_ret].
    apply forward_bind; [apply forward_forEach | intro; apply forward_ret].
Qed.

(** C8: the pool is created with [count] particles inside the cube of side
    [bounds]; at every moment of the component's life it holds exactly
    [count] particles; a frame neither adds nor removes one; and a render
    whose [count] or [bounds] differs from the current one always replaces
    the pool by a freshly drawn one of the new size.  Freshly drawn: at
    creation and at every rebuild, particle [j] of the pool is made of the
    five random samples number [5 j] to [5 j + 4] counted from the
    generator's position, one sample per field and none shared; the
    generator moves on by [5 * count], and no step of the component ever
    moves it back, so a rebuilt pool owes nothing to the particles it
    replaces nor to any sample used before. *)
Theorem pool_always_particleCount :
  (forall (p : Streamlines.Props) (g : Rng),
     unit_samples g -> 0 <= Streamlines.bounds p ->
     let st := fst (Streamlines.mount p g) in
     List.length (Streamlines.particles (Streamlines.memo st)) = Streamlines.count p
     /\ Forall (inside (Streamlines.bounds p))
               (Streamlines.particles (Streamlines.memo st)))
  /\ (forall (p : Streamlines.Props) (es : list Streamlines.Event) (g : Rng),
        let st := fst (session p es g) in
        List.length (Streamlines.particles (Streamlines.memo st))
        = Streamlines.count (Streamlines.props st))
  /\ (forall (delta : R) (st : Streamlines.State) (g : Rng),
        List.length (Streamlines.particles
                       (Streamlines.memo (fst (Streamlines.useFrame delta st g))))
        = List.length (Streamlines.particles (Streamlines.memo st)))
  /\ (forall (st : Streamlines.State) (p : Streamlines.Props) (g : Rng),
        pool_ok st ->
        Streamlines.count p <> Streamlines.count (Streamlines.props st)
        \/ Streamlines.bounds p <> Streamlines.bounds (Streamlines.props st) ->
        let st' := fst (Streamlines.render p st g) in
        Streamlines.particles (Streamlines.memo st')
        = fst (Streamlines.initParticles (Streamlines.count p) (Streamlines.bounds p) g)
        /\ List.length (Streamlines.particles (Streamlines.memo st'))
           = Streamlines.count p
        /\ Streamlines.props st' = p
        /\ (unit_samples g -> 0 <= Streamlines.bounds p ->
            Forall (inside (Streamlines.bounds p))
                   (Streamlines.particles (Streamlines.memo st'))))
  /\ (forall (p : Streamlines.Props) (g : Rng),
        Streamlines.particles (Streamlines.memo (fst (Streamlines.mount p g)))
        = drawnPool (samples g) (cursor g) (Streamlines.count p) (Streamlines.bounds p)
        /\ snd (Streamlines.mount p g)
           = mkRng (samples g) (5 * Streamlines.count p + cursor g))
  /\ (forall (st : Streamlines.State) (p : Streamlines.Props) (g : Rng),
        pool_ok st ->
        Streamlines.count p <> Streamlines.count (Streamlines.props st)
        \/ Streamlines.bounds p <> Streamlines.bounds (Streamlines.props st) ->
        Streamlines.particles (Streamlines.memo (fst (Streamlines.render p st g)))
        = drawnPool (samples g) (cursor g) (Streamlines.count p) (Streamlines.bounds p)
        /\ snd (Streamlines.render p st g)
           = mkRng (samples g) (5 * Streamlines.count p + cursor g))
  /\ (forall (e : Streamlines.Event) (st : Streamlines.State) (g : Rng),
        samples (snd (Streamlines.step e st g)) = samples g
        /\ (cursor g <= cursor (snd (Streamlines.step e st g)))%nat).
Proof.
  split; [| split; [| split; [| split; [| split; [| split]]]]].
  - intros p g Hg Hb st. subst st.
    unfold Streamlines.mount, bind, ret.
    pose proof (useMemo_first (Streamlines.count p) (Streamlines.bounds p) g) as H.
    destruct (Streamlines.useMemo_particles None _ _ g) as [m g1].
    cbn [fst] in *. subst m. cbn. split.
    + apply initParticles_length.
    + apply initParticles_inside; assumption.
  - intros p es g st. subst st. unfold session, bind.
    pose proof (mount_pool_ok p g) as H.
    destruct (Streamlines.mount p g) as [st0 g0]. cbn [fst] in H.
    apply (run_pool_ok es st0 g0) in H. destruct H as (Hl & _). exact Hl.
  - intros delta st g.
    pose proof (useFrame_frame delta st g) as H. cbv zeta in H.
    destruct H as (_ & _ & _ & Hl & _). exact Hl.
  - intros st p g (Hl & Hc & Hb) Hchg st'. subst st'.
    unfold Streamlines.render, bind, ret.
    assert (Hm : Streamlines.dep_count (Streamlines.memo st) <> Streamlines.count p
                 \/ Streamlines.dep_bounds (Streamlines.memo st) <> Streamlines.bounds p).
    { rewrite Hc, Hb. destruct Hchg as [H | H]; [left | right]; congruence. }
    pose proof (useMemo_changed (Streamlines.memo st) _ _ g Hm) as H.
    destruct (Streamlines.useMemo_particles _ _ _ g) as [m g1].
    cbn [fst] in *. subst m. cbn. repeat split.
    + apply initParticles_length.
    + intros Hg Hb0. apply initParticles_inside; assumption.
  - intros p g. unfold Streamlines.mount, Streamlines.useMemo_particles, bind, ret.
    rewrite initParticles_drawn. split; reflexivity.
  - intros st p g (Hl & Hc & Hb) Hchg.
    unfold Streamlines.render, Streamlines.useMemo_particles.
    destruct (Streamlines.same_deps (Streamlines.memo st) (Streamlines.count p)
                                    (Streamlines.bounds p)) eqn:E.
    + apply same_deps_true in E. destruct E as [E1 E2].
      exfalso. destruct Hchg as [H | H]; apply H; congruence.
    + unfold bind, ret. rewrite initParticles_drawn. split; reflexivity.
  - intros e st g. apply forward_step.
Qed.

Lemma pool_always_particleCount_witness :
  unit_samples (mkRng (fun _ => 0) 0)
  /\ 0 <= Streamlines.bounds (Streamlines.mkProps 2 20 (vec3 1 0 0) 150)
  /\ List.length
       (Streamlines.particles
          (Streamlines.memo
             (fst (Streamlines.mount (Streamlines.mkProps 2 20 (vec3 1 0 0) 150)
                                     (mkRng (fun _ => 0) 0)))))
     = 2%nat.
Proof.
  assert (Hg : unit_samples (mkRng (fun _ => 0) 0)) by (intros n; simpl; lra).
  assert (Hb : 0 <= Streamlines.bounds (Streamlines.mkProps 2 20 (vec3 1 0 0) 150))
    by (simpl; lra).
  split; [exact Hg | split; [exact Hb |]].
  exact (proj1 (proj1 pool_always_particleCount
                      (Streamlines.mkProps 2 20 (vec3 1 0 0) 150)
                      (mkRng (fun _ => 0) 0) Hg Hb)).
Defined.

(** ** Wrap-around *)

Lemma Math_sign_pos (d : R) : 0 < d -> Math_sign d = 1.
Proof. intros H. unfold Math_sign. destruct (Rlt_dec 0 d); [reflexivity | lra]. Qed.

Lemma Math_sign_neg (d : R) : d < 0 -> Math_sign d = -1.
Proof.
  intros H. unfold Math_sign.
  destruct (Rlt_dec 0 d); [lra |]. destruct (Rlt_dec d 0); [reflexivity | lra].
Qed.

Lemma axis_draws_le_1 (c b : R) : (axis_draws c b <= 1)%nat.
Proof. unfold axis_draws. destruct (Rgt_dec (Rabs c) (b / 2)); lia. Qed.

Lemma wrap_respawned (c d b : R) (g : Rng) :
  unit_samples g -> 0 <= b ->
  respawned c d b (fst (Streamlines.wrap c d b g))
  /\ cursor (snd (Streamlines.wrap c d b g)) = (cursor g + axis_draws c b)%nat.
Proof.
  intros Hg Hb. pose proof (Hg (cursor g)) as Hr.
  unfold Streamlines.wrap, axis_draws, Math_abs, respawned.
  destruct (Rgt_dec (Rabs c) (b / 2)) as [Hc | Hc].
  - destruct (Rgt_dec (Rabs d) 0.1) as [Hd | Hd];
      unfold bind, ret, Math_random; cbn [fst snd cursor samples].
    + split; [| lia]. split; [| intros; lra].
      intros _. split; [| intros; lra].
      intros _. exists (samples g (cursor g)).
      split; [exact Hr |]. split; [lra |]. split; [reflexivity |].
      split; intros Hs.
      * rewrite (Math_sign_pos d Hs). lra.
      * rewrite (Math_sign_neg d Hs). lra.
    + split; [| lia]. split; [| intros; lra].
      intros _. split; [intros; lra |].
      intros _. exists (samples g (cursor g)).
      split; [exact Hr |]. split; [reflexivity | nra].
  - unfold ret; cbn [fst snd]. split; [| lia].
    split; [intros; lra | intros _; reflexivity].
Qed.

Lemma moveParticle_wrapped
      (speed delta bounds : R) (dir : Vector3.t) (particle : Particle.t) (g : Rng) :
  unit_samples g -> 0 <= bounds ->
  let r := Streamlines.moveParticle speed delta bounds dir particle g in
  wrapped speed delta bounds dir particle (fst r)
  /\ cursor (snd r) = (cursor g + respawns speed delta bounds dir particle)%nat.
Proof.
  intros Hg Hb r. subst r.
  unfold wrapped, respawns, displaced, Streamlines.moveParticle.
  cbn [Vector3.x Vector3.y Vector3.z].
  set (moveSpeed := speed * Particle.speedOffset particle * delta * 5).
  set (x := Particle.x particle + Vector3.x dir * moveSpeed).
  set (y := Particle.y particle + Vector3.y dir * moveSpeed).
  set (z := Particle.z particle + Vector3.z dir * moveSpeed).
  unfold bind, ret.
  pose proof (wrap_respawned x (Vector3.x dir) bounds g Hg Hb) as [Hx Cx].
  pose proof (unit_samples_kept _ g (draws_only_wrap x (Vector3.x dir) bounds) Hg) as Hg1.
  destruct (Streamlines.wrap x (Vector3.x dir) bounds g) as [x1 g1].
  cbn [fst snd] in Hx, Cx, Hg1.
  pose proof (wrap_respawned y (Vector3.y dir) bounds g1 Hg1 Hb) as [Hy Cy].
  pose proof (unit_samples_kept _ g1 (draws_only_wrap y (Vector3.y dir) bounds) Hg1) as Hg2.
  destruct (Streamlines.wrap y (Vector3.y dir) bounds g1) as [y1 g2].
  cbn [fst snd] in Hy, Cy, Hg2.
  pose proof (wrap_respawned z (Vector3.z dir) bounds g2 Hg2 Hb) as [Hz Cz].
  destruct (Streamlines.wrap z (Vector3.z dir) bounds g2) as [z1 g3].
  cbn [fst snd] in Hz, Cz. cbn [fst snd Particle.x Particle.y Particle.z].
  split; [split; [exact Hx | split; [exact Hy | exact Hz]] | lia].
Qed.

Lemma forEach_wrapped (speed delta bounds : R) (dir : Vector3.t)
      (ps : list Particle.t) :
  0 <= bounds ->
  forall (i : nat) (buffer : list Matrix4.t) (g : Rng) ps' buffer' g',
    unit_samples g ->
    Streamlines.forEach speed delta bounds dir ps i buffer g = (ps', buffer', g') ->
    Forall2 (wrapped speed delta bounds dir) ps ps'.
Proof.
  intros Hb.
  induction ps as [| p ps IH]; intros i buffer g ps' buffer' g' Hg H; simpl in H.
  - inversion H; subst. constructor.
  - unfold bind, ret in H.
    pose proof (moveParticle_wrapped speed delta bounds dir p g Hg Hb) as [Hw _].
    pose proof (unit_samples_kept _ g
                  (draws_only_moveParticle speed delta bounds dir p) Hg) as Hg1.
    destruct (Streamlines.moveParticle speed delta bounds dir p g) as [p1 g1].
    cbn [fst snd] in Hw, Hg1.
    destruct (Streamlines.forEach speed delta bounds dir ps (S i) _ g1)
      as [[ps1 buf1] g2] eqn:E.
    apply (IH _ _ _ _ _ _ Hg1) in E.
    inversion H; subst. cbn [fst]. constructor; assumption.
Qed.

Lemma wrap_respawned_by (c d b : R) (g : Rng) :
  respawned_by (samples g (cursor g)) c d b (fst (Streamlines.wrap c d b g))
  /\ snd (Streamlines.wrap c d b g)
     = mkRng (samples g) (cursor g + axis_draws c b).
Proof.
  unfold Streamlines.wrap, axis_draws, Math_abs, respawned_by.
  destruct (Rgt_dec (Rabs c) (b / 2)) as [Hc | Hc].
  - destruct (Rgt_dec (Rabs d) 0.1) as [Hd | Hd];
      unfold bind, ret, Math_random; cbn [fst snd cursor samples].
    + split; [| f_equal; lia]. split; [| intros; lra].
      intros _. split; [| intros; lra].
      intros _. split; [reflexivity |]. split; intros Hs.
      * rewrite (Math_sign_pos d Hs). lra.
      * rewrite (Math_sign_neg d Hs). lra.
    + split; [| f_equal; lia]. split; [| intros; lra].
      intros _. split; [intros; lra | intros _; reflexivity].
  - unfold ret; cbn [fst snd]. split.
    + split; [intros; lra | intros _; reflexivity].
    + rewrite Nat.add_0_r. destruct g; reflexivity.
Qed.

Lemma moveParticle_wrapped_by
      (speed delta bounds : R) (dir : Vector3.t) (particle : Particle.t) (g : Rng) :
  wrapped_by (samples g) (cursor g) speed delta bounds dir particle
             (fst (Streamlines.moveParticle speed delta bounds dir particle g))
  /\ snd (Streamlines.moveParticle speed delta bounds dir particle g)
     = mkRng (samples g) (cursor g + respawns speed delta bounds dir particle).
Proof.
  unfold wrapped_by, respawns, displaced, Streamlines.moveParticle.
  cbn [Vector3.x Vector3.y Vector3.z].
  set (moveSpeed := speed * Particle.speedOffset particle * delta * 5).
  set (x := Particle.x particle + Vector3.x dir * moveSpeed).
  set (y := Particle.y particle + Vector3.y dir * moveSpeed).
  set (z := Particle.z particle + Vector3.z dir * moveSpeed).
  unfold bind, ret.
  pose proof (wrap_respawned_by x (Vector3.x dir) bounds g) as [Hx Gx].
  destruct (Streamlines.wrap x (Vector3.x dir) bounds g) as [x1 g1].
  cbn [fst snd] in Hx, Gx. subst g1.
  pose proof (wrap_respawned_by y (Vector3.y dir) bounds
                (mkRng (samples g) (cursor g + axis_draws x bounds))) as [Hy Gy].
  destruct (Streamlines.wrap y (Vector3.y dir) bounds _) as [y1 g2].
  cbn [fst snd samples cursor] in Hy, Gy. subst g2.
  pose proof (wrap_respawned_by z (Vector3.z dir) bounds
                (mkRng (samples g)
                       (cursor g + axis_draws x bounds + axis_draws y bounds)))
    as [Hz Gz].
  destruct (Streamlines.wrap z (Vector3.z dir) bounds _) as [z1 g3].
  cbn [fst snd samples cursor] in Hz, Gz. subst g3.
  cbn [fst snd Particle.x Particle.y Particle.z].
  split; [split; [exact Hx | split; [exact Hy | exact Hz]] |].
  f_equal. lia.
Qed.

Lemma forEach_wrapped_by (speed delta bounds : R) (dir : Vector3.t)
      (ps : list Particle.t) :
  forall (i : nat) (buffer : list Matrix4.t) (g : Rng) ps' buffer' g',
    Streamlines.forEach speed delta bounds dir ps i buffer g = (ps', buffer', g') ->
    pool_wrapped_by (samples g) (cursor g) speed delta bounds dir ps ps'.
Proof.
  induction ps as [| p ps IH]; intros i buffer g ps' buffer' g' H; simpl in H.
  - inversion H; subst. exact I.
  - unfold bind, ret in H.
    pose proof (moveParticle_wrapped_by speed delta bounds dir p g) as [Hw Hg1].
    destruct (Streamlines.moveParticle speed delta bounds dir p g) as [p1 g1].
    cbn [fst snd] in Hw, Hg1. subst g1.
    destruct (Streamlines.forEach speed delta bounds dir ps (S i) _ _)
      as [[ps1 buf1] g2] eqn:E.
    apply IH in E. cbn [samples cursor] in E.
    inversion H; subst. cbn [fst]. simpl. split; assumption.
Qed.

(** C6: in one frame, for every particle and each of its three axes, if
    the coordinate after displacement is out of bounds it is respawned
    from the next unused random sample [r] of the generator: at
    [-sign(dir) * bounds/2 + (r*10 - 5)], a jitter in [-5, 5], when the
    wind component exceeds 0.1 in magnitude, and at [(r - 0.5) * bounds]
    otherwise, which lies in [-bounds/2, bounds/2] and reaches every point
    of that interval for exactly the sample [t / bounds + 0.5]; a
    coordinate within bounds keeps its displaced value.  The samples are
    handed out in order, x then y then z, particle after particle, one per
    axis out of bounds and none twice, so each axis is respawned at most
    once. *)
Theorem wrap_each_axis_once
        (delta : R) (st : Streamlines.State) (g : Rng)
        (Hg : unit_samples g)
        (Hb : 0 <= Streamlines.bounds (Streamlines.props st)) :
  let speed := Streamlines.speed (Streamlines.props st) in
  let bounds := Streamlines.bounds (Streamlines.props st) in
  let dir := Streamlines_windDir (Streamlines.direction (Streamlines.props st)) in
  (Streamlines.mesh st <> None ->
   pool_wrapped_by (samples g) (cursor g) speed delta bounds dir
                   (Streamlines.particles (Streamlines.memo st))
                   (Streamlines.particles
                      (Streamlines.memo (fst (Streamlines.useFrame delta st g)))))
  /\ (forall (particle : Particle.t) (g0 : Rng),
        let r := Streamlines.moveParticle speed delta bounds dir particle g0 in
        wrapped_by (samples g0) (cursor g0) speed delta bounds dir particle (fst r)
        /\ snd r = mkRng (samples g0)
                         (cursor g0 + respawns speed delta bounds dir particle)
        /\ (axis_draws (Vector3.x (displaced speed delta dir particle)) bounds <= 1)%nat
        /\ (axis_draws (Vector3.y (displaced speed delta dir particle)) bounds <= 1)%nat
        /\ (axis_draws (Vector3.z (displaced speed delta dir particle)) bounds <= 1)%nat)
  /\ (forall n, -5 <= samples g n * 10 - 5 <= 5
                /\ - (bounds / 2) <= (samples g n - 0.5) * bounds <= bounds / 2)
  /\ (0 < bounds ->
      forall t, - (bounds / 2) <= t < bounds / 2 ->
        0 <= t / bounds + 0.5 < 1
        /\ forall c d g0,
             Rabs c > bounds / 2 -> Rabs d <= 0.1 ->
             (fst (Streamlines.wrap c d bounds g0) = t
              <-> samples g0 (cursor g0) = t / bounds + 0.5)).
Proof.
  intros speed bounds dir. split; [| split; [| split]].
  - intros Hmesh. unfold Streamlines.useFrame.
    destruct (Streamlines.mesh st) as [buffer |]; [| contradiction].
    unfold bind, ret. fold speed bounds dir.
    destruct (Streamlines.forEach speed delta bounds dir _ 0 buffer g)
      as [[ps' buf'] g'] eqn:E.
    cbn. eapply forEach_wrapped_by; eassumption.
  - intros particle g0 r.
    pose proof (moveParticle_wrapped_by speed delta bounds dir particle g0)
      as [Hw Hc].
    split; [exact Hw |]. split; [exact Hc |].
    split; [| split]; apply axis_draws_le_1.
  - intros n. pose proof (Hg n) as Hn. fold bounds in Hb. split; [lra | nra].
  - intros Hpos t Ht.
    assert (Hq : t / bounds * bounds = t) by (field; lra).
    assert (Hr : 0 <= t / bounds + 0.5 < 1).
    { split.
      - assert (0 <= (t / bounds + 0.5) * bounds) by (rewrite Rmult_plus_distr_r, Hq; lra).
        nra.
      - assert ((t / bounds + 0.5) * bounds < 1 * bounds)
          by (rewrite Rmult_plus_distr_r, Hq; lra).
        nra. }
    split; [exact Hr |].
    intros c d g0 Hc Hd.
    destruct (wrap_respawned_by c d bounds g0) as [[Hout _] _].
    destruct (Hout Hc) as [_ Hsmall]. rewrite (Hsmall Hd).
    split; intros H.
    + assert (E : (samples g0 (cursor g0) - 0.5) * bounds
                  = (t / bounds + 0.5 - 0.5) * bounds).
      { rewrite H. replace (t / bounds + 0.5 - 0.5) with (t / bounds) by ring.
        symmetry. exact Hq. }
      apply Rmult_eq_reg_r in E; lra.
    + rewrite H. replace (t / bounds + 0.5 - 0.5) with (t / bounds) by ring.
      exact Hq.
Qed.

Lemma wrap_each_axis_once_witness :
  unit_samples scenario_rng
  /\ 0 <= Streamlines.bounds (Streamlines.props scenario_state)
  /\ (Streamlines.mesh scenario_state <> None ->
      pool_wrapped_by (samples scenario_rng) (cursor scenario_rng)
                      20 0 150 (Streamlines_windDir (vec3 1 0 0))
                      [Particle.mk 76 0 0 1 1]
                      (Streamlines.particles
                         (Streamlines.memo
                            (fst (Streamlines.useFrame 0 scenario_state scenario_rng))))).
Proof.
  assert (Hg : unit_samples scenario_rng) by (intros n; simpl; lra).
  assert (Hb : 0 <= Streamlines.bounds (Streamlines.props scenario_state))
    by (simpl; lra).
  split; [exact Hg | split; [exact Hb |]].
  exact (proj1 (wrap_each_axis_once 0 scenario_state scenario_rng Hg Hb)).
Defined.

(** The scenario of the specification: wind along +X, a particle at
    x = 76 in a volume of side 150, the next random sample 0.5 (no
    jitter).  The particle re-enters at x = -75; y and z are untouched and
    one random number is consumed. *)
Example scenario_x76 :
  Streamlines.moveParticle 20 0 150 (vec3 1 0 0) (Particle.mk 76 0 0 1 1) scenario_rng
  = (Particle.mk (-75) 0 0 1 1, mkRng (fun _ => 0.5) 1).
Proof.
  unfold Streamlines.moveParticle, Streamlines.wrap, Math_abs, scenario_rng.
  cbn [Particle.x Particle.y Particle.z Particle.speedOffset Particle.sizeOffset
       Vector3.x Vector3.y Vector3.z].
  replace (76 + 1 * (20 * 1 * 0 * 5)) with 76 by ring.
  replace (0 + 0 * (20 * 1 * 0 * 5)) with 0 by ring.
  rewrite Rabs_R0, Rabs_R1, (Rabs_right 76) by lra.
  destruct (Rgt_dec 76 (150 / 2)) as [_ | H]; [| exfalso; apply H; lra].
  destruct (Rgt_dec 1 0.1) as [_ | H]; [| exfalso; apply H; lra].
  destruct (Rgt_dec 0 (150 / 2)) as [H | _]; [lra |].
  unfold bind, ret, Math_random; cbn [samples cursor].
  rewrite (Math_sign_pos 1) by lra.
  f_equal. f_equal; lra.
Qed.

(** ** Smooth ramp *)

Lemma clamp01_range (a : R) : 0 <= GLSL.clamp a 0 1 <= 1.
Proof.
  unfold GLSL.clamp, Rmin, Rmax.
  destruct (Rle_dec a 0); destruct (Rle_dec _ 1); lra.
Qed.

Lemma clamp01_mono (a b : R) : a <= b -> GLSL.clamp a 0 1 <= GLSL.clamp b 0 1.
Proof.
  intros H. unfold GLSL.clamp, Rmin, Rmax.
  destruct (Rle_dec a 0); destruct (Rle_dec b 0);
    repeat match goal with |- context [Rle_dec ?p 1] => destruct (Rle_dec p 1) end;
    lra.
Qed.

Lemma clamp01_step (a b : R) :
  a <= b -> GLSL.clamp b 0 1 - GLSL.clamp a 0 1 <= b - a.
Proof.
  intros H. unfold GLSL.clamp, Rmin, Rmax.
  destruct (Rle_dec a 0); destruct (Rle_dec b 0);
    repeat match goal with |- context [Rle_dec ?p 1] => destruct (Rle_dec p 1) end;
    lra.
Qed.

Lemma clamp01_id (a : R) : 0 <= a <= 1 -> GLSL.clamp a 0 1 = a.
Proof.
  intros H. unfold GLSL.clamp, Rmin, Rmax.
  destruct (Rle_dec a 0); destruct (Rle_dec _ 1); lra.
Qed.

Lemma hermite_step (s t : R) :
  0 <= s -> s <= t -> t <= 1 ->
  0 <= t * t * (3 - 2 * t) - s * s * (3 - 2 * s) <= 6 * (t - s).
Proof.
  intros H0 Hst H1.
  replace (t * t * (3 - 2 * t) - s * s * (3 - 2 * s))
    with ((t - s) * (t * (3 - 2 * t - s) + s * (3 - 2 * s - t))) by ring.
  assert (Hq : 0 <= t * (3 - 2 * t - s) + s * (3 - 2 * s - t) <= 6).
  { split.
    - apply Rplus_le_le_0_compat; apply Rmult_le_pos; lra.
    - assert (t * (3 - 2 * t - s) <= 3) by nra.
      assert (s * (3 - 2 * s - t) <= 3) by nra. lra. }
  split.
  - apply Rmult_le_pos; lra.
  - rewrite (Rmult_comm 6). apply Rmult_le_compat_l; lra.
Qed.

Lemma smoothstep_mono (e0 e1 a b : R) :
  e0 < e1 -> a <= b -> GLSL.smoothstep e0 e1 a <= GLSL.smoothstep e0 e1 b.
Proof.
  intros He Hab. unfold GLSL.smoothstep.
  assert (Hq : (a - e0) / (e1 - e0) <= (b - e0) / (e1 - e0)).
  { unfold Rdiv. apply Rmult_le_compat_r; [| lra].
    left. apply Rinv_0_lt_compat. lra. }
  pose proof (clamp01_mono _ _ Hq) as Hc.
  pose proof (clamp01_range ((a - e0) / (e1 - e0))) as Ra.
  pose proof (clamp01_range ((b - e0) / (e1 - e0))) as Rb.
  pose proof (hermite_step _ _ (proj1 Ra) Hc (proj2 Rb)). lra.
Qed.

(** The ramp moves by at most [6 / (e1 - e0)] per unit of its argument. *)
Lemma smoothstep_step (e0 e1 a b : R) :
  e0 < e1 -> a <= b ->
  0 <= GLSL.smoothstep e0 e1 b - GLSL.smoothstep e0 e1 a
  <= 6 / (e1 - e0) * (b - a).
Proof.
  intros He Hab. unfold GLSL.smoothstep.
  assert (Hw : 0 < / (e1 - e0)) by (apply Rinv_0_lt_compat; lra).
  assert (Hq : (a - e0) / (e1 - e0) <= (b - e0) / (e1 - e0)).
  { unfold Rdiv. apply Rmult_le_compat_r; lra. }
  pose proof (clamp01_mono _ _ Hq) as Hc.
  pose proof (clamp01_step _ _ Hq) as Hs.
  pose proof (clamp01_range ((a - e0) / (e1 - e0))) as Ra.
  pose proof (clamp01_range ((b - e0) / (e1 - e0))) as Rb.
  pose proof (hermite_step _ _ (proj1 Ra) Hc (proj2 Rb)) as Hh.
  split; [lra |].
  replace ((b - e0) / (e1 - e0) - (a - e0) / (e1 - e0))
    with (/ (e1 - e0) * (b - a)) in Hs by (unfold Rdiv; ring).
  unfold Rdiv. lra.
Qed.

Lemma smoothstep_lower (e0 e1 : R) : e0 < e1 -> GLSL.smoothstep e0 e1 e0 = 0.
Proof.
  intros He. unfold GLSL.smoothstep.
  replace ((e0 - e0) / (e1 - e0)) with 0 by (unfold Rdiv; ring).
  rewrite clamp01_id by lra. ring.
Qed.

Lemma smoothstep_upper (e0 e1 : R) : e0 < e1 -> GLSL.smoothstep e0 e1 e1 = 1.
Proof.
  intros He. unfold GLSL.smoothstep.
  replace ((e1 - e0) / (e1 - e0)) with 1 by (field; lra).
  rewrite clamp01_id by lra. ring.
Qed.

Lemma clamp01_near_0 (q : R) :
  0 <= GLSL.clamp q 0 1 /\ GLSL.clamp q 0 1 <= Rabs q.
Proof.
  unfold GLSL.clamp, Rmin, Rmax, Rabs.
  destruct (Rle_dec q 0); destruct (Rle_dec _ 1); destruct (Rcase_abs q); lra.
Qed.

Lemma clamp01_near_1 (q : R) :
  0 <= 1 - GLSL.clamp (1 + q) 0 1 /\ 1 - GLSL.clamp (1 + q) 0 1 <= Rabs q.
Proof.
  unfold GLSL.clamp, Rmin, Rmax, Rabs.
  destruct (Rle_dec (1 + q) 0); destruct (Rle_dec _ 1); destruct (Rcase_abs q); lra.
Qed.

(** A difference quotient whose numerator is quadratically small. *)
Lemma quotient_small (X h k eps : R) :
  h <> 0 -> 0 <= k -> Rabs X <= k * (Rabs h * Rabs h) -> k * Rabs h < eps ->
  Rabs (X / h) < eps.
Proof.
  intros Hh Hk HX Hsmall.
  assert (Ha : 0 < Rabs h) by (apply Rabs_pos_lt; exact Hh).
  unfold Rdiv. rewrite Rabs_mult, (Rabs_inv h).
  apply Rle_lt_trans with (k * Rabs h); [| exact Hsmall].
  apply Rmult_le_reg_r with (Rabs h); [exact Ha |].
  rewrite Rmult_assoc, Rinv_l by lra. lra.
Qed.

Lemma smoothstep_flat_lower (e0 e1 : R) :
  e0 < e1 -> derivable_pt_lim (GLSL.smoothstep e0 e1) e0 0.
Proof.
  intros He eps Heps.
  set (w := e1 - e0). assert (Hw : 0 < w) by (unfold w; lra).
  assert (Hd : 0 < eps * (w * w) / 3).
  { apply Rdiv_lt_0_compat; [| lra]. apply Rmult_lt_0_compat; nra. }
  exists (mkposreal _ Hd). intros h Hh Hlt; simpl in Hlt.
  rewrite (smoothstep_lower e0 e1 He). rewrite !Rminus_0_r.
  assert (Hiw : 0 < / w) by (apply Rinv_0_lt_compat; exact Hw).
  apply quotient_small with (k := 3 * (/ w * / w)); [exact Hh | nra | |].
  - unfold GLSL.smoothstep. fold w.
    replace ((e0 + h - e0) / w) with (h * / w) by (unfold Rdiv; ring).
    pose proof (clamp01_near_0 (h * / w)) as [C0 C1].
    pose proof (clamp01_range (h * / w)) as [_ C2].
    rewrite Rabs_mult, (Rabs_right (/ w)) in C1 by lra.
    set (c := GLSL.clamp (h * / w) 0 1) in *.
    assert (Ha : 0 <= Rabs h) by apply Rabs_pos.
    rewrite Rabs_right by nra.
    assert (Hcc : c * c <= (Rabs h * / w) * (Rabs h * / w)) by nra.
    nra.
  - assert (Hww : w * w * (/ w * / w) = 1) by (field; lra).
    assert (Ha : 0 <= Rabs h) by apply Rabs_pos.
    assert (H3 : 3 * Rabs h < eps * (w * w)) by lra.
    assert (Hp : 0 < / w * / w) by nra.
    assert (3 * Rabs h * (/ w * / w) < eps * (w * w) * (/ w * / w)) by nra.
    nra.
Qed.

Lemma smoothstep_flat_upper (e0 e1 : R) :
  e0 < e1 -> derivable_pt_lim (GLSL.smoothstep e0 e1) e1 0.
Proof.
  intros He eps Heps.
  set (w := e1 - e0). assert (Hw : 0 < w) by (unfold w; lra).
  assert (Hd : 0 < eps * (w * w) / 3).
  { apply Rdiv_lt_0_compat; [| lra]. apply Rmult_lt_0_compat; nra. }
  exists (mkposreal _ Hd). intros h Hh Hlt; simpl in Hlt.
  rewrite (smoothstep_upper e0 e1 He). rewrite Rminus_0_r.
  assert (Hiw : 0 < / w) by (apply Rinv_0_lt_compat; exact Hw).
  apply quotient_small with (k := 3 * (/ w * / w)); [exact Hh | nra | |].
  - unfold GLSL.smoothstep. fold w.
    replace ((e1 + h - e0) / w) with (1 + h * / w) by (unfold w; field; lra).
    pose proof (clamp01_near_1 (h * / w)) as [C0 C1].
    pose proof (clamp01_range (1 + h * / w)) as [C3 C2].
    rewrite Rabs_mult, (Rabs_right (/ w)) in C1 by lra.
    set (c := GLSL.clamp (1 + h * / w) 0 1) in *.
    assert (Ha : 0 <= Rabs h) by apply Rabs_pos.
    replace (c * c * (3 - 2 * c) - 1) with (- ((1 - c) * (1 - c) * (1 + 2 * c))) by ring.
    assert (Hsq : 0 <= (1 - c) * (1 - c)) by (apply Rmult_le_pos; lra).
    assert (Hnn : 0 <= (1 - c) * (1 - c) * (1 + 2 * c))
      by (apply Rmult_le_pos; lra).
    rewrite Rabs_Ropp, Rabs_right by lra.
    assert (Hcc : (1 - c) * (1 - c) <= (Rabs h * / w) * (Rabs h * / w)) by nra.
    assert (Hle : (1 - c) * (1 - c) * (1 + 2 * c) <= (1 - c) * (1 - c) * 3)
      by (apply Rmult_le_compat_l; lra).
    lra.
  - assert (Hww : w * w * (/ w * / w) = 1) by (field; lra).
    assert (Ha : 0 <= Rabs h) by apply Rabs_pos.
    assert (H3 : 3 * Rabs h < eps * (w * w)) by lra.
    assert (Hp : 0 < / w * / w) by nra.
    assert (3 * Rabs h * (/ w * / w) < eps * (w * w) * (/ w * / w)) by nra.
    nra.
Qed.

Lemma smoothstep_smooth_ramp (e0 e1 : R) : e0 < e1 -> smooth_ramp e0 e1.
Proof.
  intros He. unfold smooth_ramp.
  split; [apply smoothstep_lower; exact He |].
  split; [apply smoothstep_upper; exact He |].
  split; [intros a b Hab; apply smoothstep_mono; assumption |].
  split; [apply smoothstep_flat_lower | apply smoothstep_flat_upper]; exact He.
Qed.

(** ** Colour mapping *)

Lemma mix1_diff (a b s s' : R) :
  GLSL.mix1 a b s - GLSL.mix1 a b s' = (b - a) * (s - s').
Proof. unfold GLSL.mix1. ring. Qed.

Lemma Rabs_scaled (k X B : R) : 0 <= X <= B -> Rabs (k * X) <= Rabs k * B.
Proof.
  intros [H0 H1]. rewrite Rabs_mult, (Rabs_right X) by lra.
  apply Rmult_le_compat_l; [apply Rabs_pos | exact H1].
Qed.

Lemma ramp_high_step (a b : R) :
  a <= b ->
  0 <= GLSL.smoothstep 0.2 1 b - GLSL.smoothstep 0.2 1 a <= 8 * (b - a).
Proof.
  intros H. pose proof (smoothstep_step 0.2 1 a b ltac:(lra) H) as [H0 H1].
  assert (E : 6 / (1 - 0.2) = 7.5) by lra. rewrite E in H1. lra.
Qed.

Lemma ramp_mid_step (a b : R) :
  a <= b ->
  0 <= GLSL.smoothstep (-0.2) 0.2 b - GLSL.smoothstep (-0.2) 0.2 a <= 15 * (b - a).
Proof.
  intros H. pose proof (smoothstep_step (-0.2) 0.2 a b ltac:(lra) H) as [H0 H1].
  assert (E : 6 / (0.2 - -0.2) = 15) by lra. rewrite E in H1. lra.
Qed.

(** The two bands, glued at 0.2, move by at most a constant per unit. *)
Lemma band_step (lo mid hi i j : R) :
  j <= i ->
  Rabs (band lo mid hi i - band lo mid hi j)
  <= (8 * Rabs (hi - mid) + 15 * Rabs (mid - lo)) * (i - j).
Proof.
  intros Hji.
  pose proof (Rabs_pos (hi - mid)) as PA. pose proof (Rabs_pos (mid - lo)) as PB.
  unfold band.
  destruct (Rgt_dec i 0.2) as [Hi | Hi]; destruct (Rgt_dec j 0.2) as [Hj | Hj];
    try lra.
  - rewrite mix1_diff.
    pose proof (Rabs_scaled (hi - mid) _ _ (ramp_high_step j i Hji)). nra.
  - replace (GLSL.mix1 mid hi (GLSL.smoothstep 0.2 1 i)
             - GLSL.mix1 lo mid (GLSL.smoothstep (-0.2) 0.2 j))
      with ((hi - mid) * (GLSL.smoothstep 0.2 1 i - GLSL.smoothstep 0.2 1 0.2)
            + (mid - lo) * (GLSL.smoothstep (-0.2) 0.2 0.2
                            - GLSL.smoothstep (-0.2) 0.2 j)).
    2:{ rewrite (smoothstep_lower 0.2 1) by lra.
        rewrite (smoothstep_upper (-0.2) 0.2) by lra.
        unfold GLSL.mix1. ring. }
    eapply Rle_trans; [apply Rabs_triang |].
    pose proof (Rabs_scaled (hi - mid) _ _ (ramp_high_step 0.2 i ltac:(lra))).
    pose proof (Rabs_scaled (mid - lo) _ _ (ramp_mid_step j 0.2 ltac:(lra))).
    nra.
  - rewrite mix1_diff.
    pose proof (Rabs_scaled (mid - lo) _ _ (ramp_mid_step j i Hji)). nra.
Qed.

Lemma band_lipschitz (lo mid hi i j : R) :
  Rabs (band lo mid hi i - band lo mid hi j)
  <= (8 * Rabs (hi - mid) + 15 * Rabs (mid - lo)) * Rabs (i - j).
Proof.
  destruct (Rle_dec j i) as [H | H].
  - rewrite (Rabs_right (i - j)) by lra. apply band_step; exact H.
  - rewrite (Rabs_minus_sym (band lo mid hi i)), (Rabs_minus_sym i).
    rewrite (Rabs_right (j - i)) by lra. apply band_step; lra.
Qed.

(** A function that is the glued bands above -0.2 is continuous there. *)
Lemma continuous_above_wake (f : R -> R) (lo mid hi a : R) :
  (forall i, i > -0.2 -> f i = band lo mid hi i) ->
  a > -0.2 -> continuity_pt f a.
Proof.
  intros Hf Ha eps Heps.
  set (K := 8 * Rabs (hi - mid) + 15 * Rabs (mid - lo)).
  assert (HK : 0 <= K).
  { unfold K. pose proof (Rabs_pos (hi - mid)). pose proof (Rabs_pos (mid - lo)). lra. }
  assert (Hq : 0 < eps / (K + 1)) by (apply Rdiv_lt_0_compat; lra).
  exists (Rmin (a + 0.2) (eps / (K + 1))). split.
  - apply Rmin_pos; lra.
  - intros x [_ Hx]. simpl in Hx |- *. unfold R_dist in *.
    assert (H1 : Rabs (x - a) < a + 0.2)
      by (eapply Rlt_le_trans; [exact Hx | apply Rmin_l]).
    assert (H2 : Rabs (x - a) < eps / (K + 1))
      by (eapply Rlt_le_trans; [exact Hx | apply Rmin_r]).
    assert (Hxa : x > -0.2).
    { unfold Rabs in H1. destruct (Rcase_abs (x - a)); lra. }
    rewrite (Hf x Hxa), (Hf a Ha).
    eapply Rle_lt_trans; [apply band_lipschitz |]. fold K.
    pose proof (Rabs_pos (x - a)) as Hp.
    assert (H3 : Rabs (x - a) * (K + 1) < eps).
    { apply (Rmult_lt_compat_r (K + 1)) in H2; [| lra].
      unfold Rdiv in H2. rewrite Rmult_assoc, Rinv_l in H2 by lra. lra. }
    nra.
Qed.

(** A function that is constant up to -0.2 is continuous below it. *)
Lemma continuous_in_wake (f : R -> R) (k a : R) :
  (forall i, i <= -0.2 -> f i = k) -> a < -0.2 -> continuity_pt f a.
Proof.
  intros Hf Ha eps Heps.
  exists (-0.2 - a). split; [lra |].
  intros x [_ Hx]. simpl in Hx |- *. unfold R_dist in *.
  assert (Hxa : x <= -0.2).
  { unfold Rabs in Hx. destruct (Rcase_abs (x - a)); lra. }
  rewrite (Hf x Hxa), (Hf a ltac:(lra)).
  rewrite Rminus_diag, Rabs_R0. lra.
Qed.

Lemma colorMapping_bands (u : Uniforms) (fe i : R) :
  i > -0.2 ->
  Vector3.x (AerodynamicMaterial.colorMapping u fe i)
  = band (Vector3.x (uColorLow u)) (Vector3.x (uColorMid u)) (Vector3.x (uColorHigh u)) i
  /\ Vector3.y (AerodynamicMaterial.colorMapping u fe i)
     = band (Vector3.y (uColorLow u)) (Vector3.y (uColorMid u)) (Vector3.y (uColorHigh u)) i
  /\ Vector3.z (AerodynamicMaterial.colorMapping u fe i)
     = band (Vector3.z (uColorLow u)) (Vector3.z (uColorMid u)) (Vector3.z (uColorHigh u)) i.
Proof.
  intros Hi. unfold AerodynamicMaterial.colorMapping, band.
  destruct (Rgt_dec i 0.2); [repeat split |].
  destruct (Rgt_dec i (-0.2)); [repeat split | lra].
Qed.

Lemma colorMapping_wake (u : Uniforms) (fe i : R) :
  i <= -0.2 ->
  AerodynamicMaterial.colorMapping u fe i = GLSL.scale (uColorLow u) (0.6 + fe).
Proof.
  intros Hi. unfold AerodynamicMaterial.colorMapping.
  destruct (Rgt_dec i 0.2); [lra |].
  destruct (Rgt_dec i (-0.2)); [lra | reflexivity].
Qed.

Lemma colorMapping_continuous (u : Uniforms) (fe a : R) :
  a <> -0.2 -> continuous_at (AerodynamicMaterial.colorMapping u fe) a.
Proof.
  intros Ha. destruct (Rlt_dec a (-0.2)) as [Hlt | Hge].
  - repeat split;
      (eapply continuous_in_wake; [| exact Hlt]);
      intros i Hi; rewrite (colorMapping_wake u fe i Hi); reflexivity.
  - assert (Hgt : a > -0.2) by lra.
    repeat split;
      (eapply continuous_above_wake; [| exact Hgt]);
      intros i Hi; apply (colorMapping_bands u fe i Hi).
Qed.

Lemma flowEffect_range (u : Uniforms) (P : Vector3.t) :
  -0.05 <= AerodynamicMaterial.flowEffect u P <= 0.05.
Proof.
  unfold AerodynamicMaterial.flowEffect.
  pose proof (SIN_bound (AerodynamicMaterial.flowPhase u P)). lra.
Qed.

Lemma turbulence_range (u : Uniforms) (P : Vector3.t) :
  -0.15 <= AerodynamicMaterial.turbulence u P <= 0.15.
Proof.
  unfold AerodynamicMaterial.turbulence.
  pose proof (SIN_bound (Vector3.x P * 5 + uTime u * 10)).
  pose proof (SIN_bound (Vector3.y P * 5 + uTime u * 8)). nra.
Qed.

(** The wake branch breaks continuity at -0.2: the blue channel jumps
    from [0.6 + flowEffect] to values near 1. *)
Lemma colorMapping_jump (W : Vector3.t) (t fe : R) :
  -0.05 <= fe <= 0.05 ->
  ~ continuity_pt
      (fun i => Vector3.z (AerodynamicMaterial.colorMapping (frameUniforms W t) fe i))
      (-0.2).
Proof.
  intros Hfe Hc.
  destruct (Hc 0.1 ltac:(lra)) as [alp [Halp H]].
  set (eta := Rmin (alp / 2) 0.01).
  assert (He : 0 < eta) by (apply Rmin_pos; lra).
  assert (He1 : eta <= alp / 2) by apply Rmin_l.
  assert (He2 : eta <= 0.01) by apply Rmin_r.
  specialize (H (-0.2 + eta)).
  simpl in H. unfold R_dist, D_x, no_cond in H.
  assert (Hd : Rabs (-0.2 + eta - -0.2) < alp).
  { replace (-0.2 + eta - -0.2) with eta by ring. rewrite Rabs_right; lra. }
  assert (Hne : -0.2 <> -0.2 + eta) by lra.
  specialize (H (conj (conj I Hne) Hd)).
  rewrite (colorMapping_wake _ fe (-0.2)) in H by lra.
  destruct (colorMapping_bands (frameUniforms W t) fe (-0.2 + eta) ltac:(lra))
    as (_ & _ & Hz).
  rewrite Hz in H. clear Hz. simpl in H. unfold band in H.
  destruct (Rgt_dec (-0.2 + eta) 0.2) as [Hbig | _]; [lra |].
  pose proof (ramp_mid_step (-0.2) (-0.2 + eta) ltac:(lra)) as [S0 S1].
  rewrite (smoothstep_lower (-0.2) 0.2) in S0, S1 by lra.
  unfold GLSL.mix1 in H.
  set (s := GLSL.smoothstep (-0.2) 0.2 (-0.2 + eta)) in *.
  unfold Rabs in H.
  destruct (Rcase_abs (1 * (1 - s) + 0 * s - 1 * (0.6 + fe))); lra.
Qed.

Lemma GLSL_normalize_unit (v : Vector3.t) :
  Vector3.lengthSq v = 1 -> GLSL.normalize v = v.
Proof.
  intros H. unfold GLSL.normalize, GLSL.dot, Vector3.dot.
  change (Vector3.x v * Vector3.x v + Vector3.y v * Vector3.y v
          + Vector3.z v * Vector3.z v) with (Vector3.lengthSq v).
  rewrite H, sqrt_1. destruct v as [a b c]; simpl. f_equal; lra.
Qed.

Lemma unit_dot_range (N W : Vector3.t) :
  Vector3.lengthSq N = 1 -> Vector3.lengthSq W = 1 ->
  -1 <= Vector3.dot N W <= 1.
Proof.
  destruct N as [a b c], W as [d e f].
  unfold Vector3.lengthSq, Vector3.dot; simpl. intros HN HW.
  pose proof (Rle_0_sqr (a + d)); pose proof (Rle_0_sqr (b + e));
    pose proof (Rle_0_sqr (c + f)); pose proof (Rle_0_sqr (a - d));
    pose proof (Rle_0_sqr (b - e)); pose proof (Rle_0_sqr (c - f)).
  unfold Rsqr in *. lra.
Qed.

Lemma intensity_range (W N P : Vector3.t) (t : R) :
  Vector3.lengthSq N = 1 -> Vector3.lengthSq W = 1 ->
  -1 <= AerodynamicMaterial.intensity0 (frameUniforms W t) N <= 1
  /\ -1.15 <= AerodynamicMaterial.adjustedIntensity (frameUniforms W t) N P <= 1.05.
Proof.
  intros HN HW.
  assert (H0 : -1 <= AerodynamicMaterial.intensity0 (frameUniforms W t) N <= 1).
  { unfold AerodynamicMaterial.intensity0; simpl.
    rewrite (GLSL_normalize_unit N HN), (GLSL_normalize_unit W HW).
    pose proof (unit_dot_range N W HN HW) as Hd.
    unfold GLSL.dot, GLSL.neg, Vector3.dot in *; simpl. lra. }
  split; [exact H0 |].
  unfold AerodynamicMaterial.adjustedIntensity.
  pose proof (flowEffect_range (frameUniforms W t) P).
  pose proof (turbulence_range (frameUniforms W t) P).
  destruct (Rlt_dec _ (-0.2)); lra.
Qed.

(** C4: for unit [N] and [W] the intensity lies in [-1, 1] and the
    adjusted intensity in [-1.15, 1.05]; the Mid-to-High and Low-to-Mid
    branches agree at 0.2 and the colour mapping is continuous there; the
    ramp of either band is 0 at its lower bound, 1 at its upper bound,
    monotone, with derivative 0 at both ends; and the colour mapping is
    continuous at every adjusted intensity other than -0.2 and not
    continuous at -0.2. *)
Theorem color_mapping_continuous_except_wake
        (N W P : Vector3.t) (t : R)
        (HN : Vector3.lengthSq N = 1) (HW : Vector3.lengthSq W = 1) :
  let u := frameUniforms W t in
  let fe := AerodynamicMaterial.flowEffect u P in
  (-1 <= AerodynamicMaterial.intensity0 u N <= 1
   /\ -1.15 <= AerodynamicMaterial.adjustedIntensity u N P <= 1.05)
  /\ (GLSL.mix (uColorMid u) (uColorHigh u) (GLSL.smoothstep 0.2 1 0.2)
      = GLSL.mix (uColorLow u) (uColorMid u) (GLSL.smoothstep (-0.2) 0.2 0.2)
      /\ continuous_at (AerodynamicMaterial.colorMapping u fe) 0.2)
  /\ smooth_ramp 0.2 1
  /\ smooth_ramp (-0.2) 0.2
  /\ (forall i, i <> -0.2 -> continuous_at (AerodynamicMaterial.colorMapping u fe) i)
  /\ ~ continuous_at (AerodynamicMaterial.colorMapping u fe) (-0.2).
Proof.
  intros u fe.
  split; [apply intensity_range; assumption |].
  split.
  { split.
    - rewrite (smoothstep_lower 0.2 1), (smoothstep_upper (-0.2) 0.2) by lra.
      unfold GLSL.mix, GLSL.mix1; simpl. f_equal; ring.
    - apply colorMapping_continuous. lra. }
  split; [apply smoothstep_smooth_ramp; lra |].
  split; [apply smoothstep_smooth_ramp; lra |].
  split; [intros i Hi; apply colorMapping_continuous; exact Hi |].
  intros (_ & _ & Hz).
  apply (colorMapping_jump W t fe); [apply flowEffect_range | exact Hz].
Qed.

Lemma color_mapping_continuous_except_wake_witness :
  Vector3.lengthSq (vec3 0 1 0) = 1
  /\ Vector3.lengthSq (vec3 1 0 0) = 1
  /\ smooth_ramp 0.2 1.
Proof.
  assert (HN : Vector3.lengthSq (vec3 0 1 0) = 1)
    by (unfold Vector3.lengthSq; simpl; ring).
  assert (HW : Vector3.lengthSq (vec3 1 0 0) = 1)
    by (unfold Vector3.lengthSq; simpl; ring).
  split; [exact HN | split; [exact HW |]].
  exact (proj1 (proj2 (proj2
           (color_mapping_continuous_except_wake
              (vec3 0 1 0) (vec3 1 0 0) (vec3 0 0 0) 0 HN HW)))).
Defined.

(** ** Wake colour *)

(** C5: when the adjusted intensity is at most -0.2 the colour written is
    the Low colour times [0.6 + flowEffect], with [flowEffect] the value
    [sin(dot(P, W) * 0.5 - t * 10) * 0.05] of line 65, the one the
    non-wake branch adds to the intensity; alpha is 1 for every fragment. *)
Theorem wake_color_low_scaled
        (u : Uniforms) (N P : Vector3.t)
        (H : AerodynamicMaterial.adjustedIntensity u N P <= -0.2) :
  let W := GLSL.normalize (uWindDir u) in
  let flowEffect := sin (GLSL.dot P W * 0.5 - uTime u * 10) * 0.05 in
  fst (AerodynamicMaterial.fragmentShader u N P)
  = GLSL.scale (uColorLow u) (0.6 + flowEffect)
  /\ (forall N', ~ AerodynamicMaterial.intensity0 u N' < -0.2 ->
        AerodynamicMaterial.adjustedIntensity u N' P
        = AerodynamicMaterial.intensity0 u N' + flowEffect)
  /\ (forall u' N' P', snd (AerodynamicMaterial.fragmentShader u' N' P') = 1).
Proof.
  intros W flowEffect. split; [| split].
  - unfold AerodynamicMaterial.fragmentShader. cbn [fst].
    rewrite colorMapping_wake by exact H. reflexivity.
  - intros N' HN'. unfold AerodynamicMaterial.adjustedIntensity.
    destruct (Rlt_dec _ (-0.2)); [contradiction | reflexivity].
  - intros u' N' P'. reflexivity.
Qed.

Lemma wake_example :
  AerodynamicMaterial.adjustedIntensity
    AerodynamicMaterial.uniforms (vec3 1 0 0) (vec3 0 0 0) = -1.
Proof.
  assert (Hu : Vector3.lengthSq (vec3 1 0 0) = 1)
    by (unfold Vector3.lengthSq; simpl; ring).
  unfold AerodynamicMaterial.adjustedIntensity, AerodynamicMaterial.intensity0.
  change (uWindDir AerodynamicMaterial.uniforms) with (vec3 1 0 0).
  rewrite (GLSL_normalize_unit _ Hu).
  unfold GLSL.dot, GLSL.neg, Vector3.dot; simpl.
  destruct (Rlt_dec _ (-0.2)) as [_ | Hn]; [| exfalso; apply Hn; lra].
  unfold AerodynamicMaterial.turbulence; simpl.
  replace (0 * 5 + 0 * 10) with 0 by ring. rewrite sin_0. ring.
Qed.

Lemma wake_color_low_scaled_witness :
  AerodynamicMaterial.adjustedIntensity
    AerodynamicMaterial.uniforms (vec3 1 0 0) (vec3 0 0 0) <= -0.2
  /\ fst (AerodynamicMaterial.fragmentShader
            AerodynamicMaterial.uniforms (vec3 1 0 0) (vec3 0 0 0))
     = GLSL.scale (vec3 0 0.5 1)
         (0.6 + sin (GLSL.dot (vec3 0 0 0) (GLSL.normalize (vec3 1 0 0)) * 0.5
                     - 0 * 10) * 0.05).
Proof.
  assert (H : AerodynamicMaterial.adjustedIntensity
                AerodynamicMaterial.uniforms (vec3 1 0 0) (vec3 0 0 0) <= -0.2)
    by (rewrite wake_example; lra).
  split; [exact H |].
  exact (proj1 (wake_color_low_scaled
                  AerodynamicMaterial.uniforms (vec3 1 0 0) (vec3 0 0 0) H)).
Defined.

(** ** Streak orientation *)

Lemma Vector3_unit_length (v : Vector3.t) :
  Vector3.lengthSq v = 1 -> Vector3.length v = 1.
Proof. intros H. rewrite Vector3_length_sqrt, H. exact sqrt_1. Qed.

Lemma Streamlines_windDir_unit (v : Vector3.t) :
  Vector3.lengthSq v = 1 -> Streamlines_windDir v = v.
Proof.
  intros H. unfold Streamlines_windDir.
  rewrite (Vector3_normalize_unit v (Vector3_unit_length v H)).
  destruct (Req_dec_T (Vector3.lengthSq v) 0); [lra | reflexivity].
Qed.

Lemma lookAt_along_x (a b c : R) :
  Matrix4.lookAt (vec3 (a + 1) (b + 0) (c + 0)) (vec3 a b c) (vec3 0 1 0)
  = Matrix4.mkRotation (vec3 0 0 (-1)) (vec3 0 1 0) (vec3 1 0 0).
Proof.
  unfold Matrix4.lookAt.
  assert (Hz : Vector3.subVectors (vec3 (a + 1) (b + 0) (c + 0)) (vec3 a b c)
               = vec3 1 0 0).
  { unfold Vector3.subVectors; simpl. f_equal; ring. }
  rewrite Hz.
  assert (H1 : Vector3.lengthSq (vec3 1 0 0) = 1)
    by (unfold Vector3.lengthSq; simpl; ring).
  destruct (Req_dec_T (Vector3.lengthSq (vec3 1 0 0)) 0) as [E | _]; [lra |].
  rewrite (Vector3_normalize_unit _ (Vector3_unit_length _ H1)).
  assert (Hx : Vector3.crossVectors (vec3 0 1 0) (vec3 1 0 0) = vec3 0 0 (-1)).
  { unfold Vector3.crossVectors; simpl. f_equal; ring. }
  rewrite Hx.
  assert (H2 : Vector3.lengthSq (vec3 0 0 (-1)) = 1)
    by (unfold Vector3.lengthSq; simpl; ring).
  destruct (Req_dec_T (Vector3.lengthSq (vec3 0 0 (-1))) 0) as [E | _]; [lra |].
  rewrite (Vector3_normalize_unit _ (Vector3_unit_length _ H2)).
  unfold Vector3.crossVectors; simpl. f_equal. f_equal; ring.
Qed.

Lemma sqrt2_facts : 0 < sqrt 2 /\ sqrt 2 * sqrt 2 = 2 /\ / sqrt 2 = sqrt 2 / 2.
Proof.
  assert (Hp : 0 < sqrt 2) by (apply sqrt_lt_R0; lra).
  assert (Hs : sqrt 2 * sqrt 2 = 2) by (apply sqrt_sqrt; lra).
  split; [exact Hp | split; [exact Hs |]].
  apply Rmult_eq_reg_l with (sqrt 2); [| lra].
  rewrite Rinv_r by lra. lra.
Qed.

(** The matrix of the rotation by a quarter turn about Y, the quaternion
    (0, h, 0, h) with [2 * h * h = 1]. *)
Lemma compose_quarter_turn_y (position scale : Vector3.t) (h : R) :
  2 * (h * h) = 1 ->
  Matrix4.compose position (Quaternion.mk 0 h 0 h) scale
  = Matrix4.mk (vec3 0 0 (- Vector3.x scale))
               (vec3 0 (Vector3.y scale) 0)
               (vec3 (Vector3.z scale) 0 0)
               position.
Proof.
  intros Hh. unfold Matrix4.compose.
  cbn [Quaternion.x Quaternion.y Quaternion.z Quaternion.w].
  pose proof (f_equal (Rmult (Vector3.x scale)) Hh) as Hx.
  pose proof (f_equal (Rmult (Vector3.y scale)) Hh) as Hy.
  pose proof (f_equal (Rmult (Vector3.z scale)) Hh) as Hz.
  f_equal; f_equal; lra.
Qed.

(** C3, on the ordinary look-at branch.  With the wind along +X (the
    application's default) the branch is taken, and the instance matrix
    sends the local X axis, the one scaled by the stretch factor, to
    [stretch * (0, 0, -1)], perpendicular to the wind, while the local Z
    axis, scaled by the thickness, is the one sent along the wind. *)
Theorem lookAt_branch_stretch_across_wind (speed : R) (particle : Particle.t) :
  let dir := Streamlines_windDir (vec3 1 0 0) in
  let m := Streamlines.instanceMatrix speed dir particle in
  dir = vec3 1 0 0
  /\ ~ Math_abs (Vector3.dot dir (vec3 0 1 0)) > 0.99
  /\ Matrix4.axis_x m = GLSL.scale (vec3 0 0 (-1)) (stretch speed)
  /\ Matrix4.axis_z m = GLSL.scale dir (thickness (Particle.sizeOffset particle))
  /\ Vector3.dot (Matrix4.axis_x m) dir = 0
  /\ Matrix4.axis_x m <> GLSL.scale dir (stretch speed).
Proof.
  intros dir m.
  assert (Hdir : dir = vec3 1 0 0).
  { apply Streamlines_windDir_unit. unfold Vector3.lengthSq; simpl; ring. }
  assert (Hup : ~ Math_abs (Vector3.dot (vec3 1 0 0) (vec3 0 1 0)) > 0.99).
  { unfold Math_abs, Vector3.dot; simpl.
    replace (1 * 0 + 0 * 1 + 0 * 0) with 0 by ring. rewrite Rabs_R0. lra. }
  destruct sqrt2_facts as (Hp & Hs & Hi).
  assert (Hm : m = Matrix4.mk (vec3 0 0 (- stretch speed))
                              (vec3 0 (thickness (Particle.sizeOffset particle)) 0)
                              (vec3 (thickness (Particle.sizeOffset particle)) 0 0)
                              (vec3 (Particle.x particle) (Particle.y particle)
                                    (Particle.z particle))).
  { subst m. rewrite Hdir.
    unfold Streamlines.instanceMatrix, Streamlines.orientation.
    destruct (Rgt_dec _ 0.99) as [Hbad | _]; [contradiction |].
    unfold Streamlines.Object3D_lookAt. cbn [Vector3.x Vector3.y Vector3.z].
    rewrite lookAt_along_x.
    unfold Matrix4.toQuaternion. cbn [Matrix4.col_x Matrix4.col_y Matrix4.col_z
                                      Vector3.x Vector3.y Vector3.z].
    destruct (Rgt_dec (0 + 1 + 0) 0) as [_ | Hn]; [| exfalso; apply Hn; lra].
    replace (0 + 1 + 0 + 1) with 2 by ring.
    replace (Quaternion.mk ((0 - 0) * (0.5 / sqrt 2)) ((1 - -1) * (0.5 / sqrt 2))
                           ((0 - 0) * (0.5 / sqrt 2)) (0.25 / (0.5 / sqrt 2)))
      with (Quaternion.mk 0 (sqrt 2 / 2) 0 (sqrt 2 / 2)).
    2:{ assert (Hi2 : / (0.5 * (sqrt 2 / 2)) = 2 * sqrt 2).
        { apply Rmult_eq_reg_l with (0.5 * (sqrt 2 / 2)); [| lra].
          rewrite Rinv_r by lra. lra. }
        f_equal; unfold Rdiv; rewrite Hi; try rewrite Hi2; lra. }
    apply compose_quarter_turn_y. lra. }
  split; [exact Hdir |]. split; [rewrite Hdir; exact Hup |].
  rewrite Hm, Hdir. cbn [Matrix4.axis_x Matrix4.axis_z].
  assert (Hst : 2 <= stretch speed) by (unfold stretch, Math_max; apply Rmax_l).
  unfold GLSL.scale, Vector3.dot; cbn [Vector3.x Vector3.y Vector3.z].
  split; [f_equal; ring |]. split; [f_equal; ring |]. split; [ring |].
  intros E. injection E as E1 E2 E3. lra.
Qed.

Lemma Number_EPSILON_small : Number_EPSILON <= / 2.
Proof.
  unfold Number_EPSILON.
  apply Rinv_le_contravar; [lra |].
  change (2 ^ 52) with (2 * 2 ^ 51).
  pose proof (pow_R1_Rle 2 51 ltac:(lra)). lra.
Qed.

(** The near-vertical branch, for comparison: there the local X axis, the
    stretched one, is sent onto the wind direction. *)
Lemma setFromUnitVectors_branch_stretch_along_wind
      (speed : R) (dir : Vector3.t) (particle : Particle.t) :
  Vector3.lengthSq dir = 1 ->
  Math_abs (Vector3.dot dir (vec3 0 1 0)) > 0.99 ->
  Matrix4.axis_x (Streamlines.instanceMatrix speed dir particle)
  = GLSL.scale dir (stretch speed).
Proof.
  destruct dir as [a b c]. unfold Vector3.lengthSq, Math_abs, Vector3.dot.
  cbn [Vector3.x Vector3.y Vector3.z]. intros Hn Hv.
  assert (Hb : b * b > 0.98).
  { replace (a * 0 + b * 1 + c * 0) with b in Hv by ring.
    unfold Rabs in Hv. destruct (Rcase_abs b); nra. }
  assert (Ha : -0.15 < a) by nra.
  unfold Streamlines.instanceMatrix, Streamlines.orientation, Math_abs, Vector3.dot.
  cbn [Vector3.x Vector3.y Vector3.z].
  destruct (Rgt_dec _ 0.99) as [_ | Hbad]; [| contradiction].
  unfold Quaternion.setFromUnitVectors, Vector3.dot.
  cbn [Vector3.x Vector3.y Vector3.z].
  pose proof Number_EPSILON_small as He.
  destruct (Rlt_dec (1 * a + 0 * b + 0 * c + 1) Number_EPSILON) as [Hr | _]; [lra |].
  unfold Quaternion.normalize, Quaternion.length.
  cbn [Quaternion.x Quaternion.y Quaternion.z Quaternion.w].
  set (S := (0 * c - 0 * b) * (0 * c - 0 * b) + (0 * a - 1 * c) * (0 * a - 1 * c)
            + (1 * b - 0 * a) * (1 * b - 0 * a)
            + (1 * a + 0 * b + 0 * c + 1) * (1 * a + 0 * b + 0 * c + 1)).
  assert (HS : S = 2 * (1 + a)) by (unfold S; nra).
  assert (HL : 0 < sqrt S) by (apply sqrt_lt_R0; lra).
  destruct (Req_dec_T (sqrt S) 0) as [E | _]; [lra |].
  set (k := 1 / sqrt S).
  assert (Hk : k * k * (2 * (1 + a)) = 1).
  { unfold k. rewrite <- HS. rewrite <- (sqrt_sqrt S) at 3 by lra. field. lra. }
  unfold Matrix4.compose, Streamlines.dummyScale, GLSL.scale.
  cbn [Quaternion.x Quaternion.y Quaternion.z Quaternion.w Matrix4.axis_x
       Vector3.x Vector3.y Vector3.z].
  set (sx := stretch speed).
  assert (E1 : k * k * (c * c + b * b) * 2 = 1 - a).
  { replace (c * c + b * b) with ((1 - a) * (1 + a)) by nra.
    replace (k * k * ((1 - a) * (1 + a)) * 2)
      with ((1 - a) * (k * k * (2 * (1 + a)))) by ring.
    rewrite Hk. ring. }
  pose proof (f_equal (Rmult sx) E1) as X1.
  pose proof (f_equal (Rmult (b * sx)) Hk) as X2.
  pose proof (f_equal (Rmult (c * sx)) Hk) as X3.
  f_equal; lra.
Qed.

(** ** Mesh loading *)

Open Scope string_scope.


Lemma take_Forall (P : Model.Request -> Prop) (u : string) (rs : list Model.Request) :
  Forall P rs ->
  match Model.take u rs with
  | Some (r, rest) => P r /\ Forall P rest
  | None => True
  end.
Proof.
  induction rs as [| r rs IH]; intros H; simpl; [exact I |].
  inversion H as [| ? ? Hr Hrs]; subst.
  destruct (String.eqb (Model.url r) u); [split; assumption |].
  specialize (IH Hrs). destruct (Model.take u rs) as [[r' rest] |]; [| exact I].
  destruct IH as [H1 H2]. split; [exact H1 | constructor; assumption].
Qed.






(** C2 as stated fails: a load that fails reports nothing.  Whether the
    component was given an [onLoad] prop or not, after the failed load the
    caller has received no notification at all, so no [LoadError]. *)
Lemma failed_load_not_reported :
  let trace := [Model.Upload "bad.stl";
                Model.Complete "bad.stl" (Model.Failed "malformed")] in
  Model.notified (Model.store (Model.run trace Model.initial)) = []
  /\ Model.notified
       (Model.store (Model.run trace (Model.mounted (Some (cons Model.Loaded)))))
     = []
  /\ ~ In (Model.LoadError "malformed")
          (Model.notified (Model.store (Model.run trace Model.initial))).
Proof.
  cbv zeta. split; [reflexivity |]. split; [reflexivity |].
  intros H. exact H.
Qed.

Lemma step_no_onError (e : Model.Event) (w : Model.World) :
  Forall (fun r => Model.onError r = None) (Model.inflight w) ->
  Forall (fun r => Model.onError r = None) (Model.inflight (Model.step e w)).
Proof.
  intros H. destruct e as [u | u o]; simpl.
  - unfold Model.setUrl.
    destruct (Model.prop_url w) as [u' |];
      [destruct (String.eqb u' u); [exact H |] |];
      simpl; apply Forall_app; split; try exact H;
      constructor; [reflexivity | constructor | reflexivity | constructor].
  - pose proof (take_Forall _ u _ H) as Ht.
    destruct (Model.take u (Model.inflight w)) as [[r rest] |]; [| exact H].
    simpl. apply Ht.
Qed.

Lemma run_no_onError (es : list Model.Event) :
  forall w,
    Forall (fun r => Model.onError r = None) (Model.inflight w) ->
    Forall (fun r => Model.onError r = None) (Model.inflight (Model.run es w)).
Proof.
  unfold Model.run.
  induction es as [| e es IH]; intros w H; simpl; [exact H |].
  apply IH. apply step_no_onError. exact H.
Qed.

(** C2, amended: when a load fails, at any moment of the component's
    life and whatever [onLoad] prop it was given, the component's state is
    what it was: the geometry rendered before (or none) is still rendered,
    the current upload is unchanged, the caller receives no notification,
    and nothing but the list of loads in flight has changed. *)
Theorem failed_load_leaves_state
        (onLoad : Model.OnLoadProp) (es : list Model.Event)
        (u message : string) :
  let w := Model.run es (Model.mounted onLoad) in
  let w' := Model.step (Model.Complete u (Model.Failed message)) w in
  Model.store w' = Model.store w
  /\ Model.rendered w' = Model.rendered w
  /\ Model.notified (Model.store w') = Model.notified (Model.store w)
  /\ Model.prop_url w' = Model.prop_url w
  /\ w' = Model.mkWorld (Model.prop_url w) (Model.prop_onLoad w) (Model.store w)
                        (Model.inflight w').
Proof.
  intros w w'.
  assert (Hs : Model.store w' = Model.store w
               /\ Model.prop_url w' = Model.prop_url w
               /\ Model.prop_onLoad w' = Model.prop_onLoad w).
  { subst w'. simpl.
    pose proof (run_no_onError es (Model.mounted onLoad) (Forall_nil _)) as Hinv.
    fold w in Hinv.
    pose proof (take_Forall _ u _ Hinv) as Ht.
    destruct (Model.take u (Model.inflight w)) as [[r rest] |];
      [| repeat split; reflexivity].
    destruct Ht as [Hr _]. simpl. unfold Model.complete. rewrite Hr.
    repeat split; reflexivity. }
  destruct Hs as (Hs & Hu & Ho).
  split; [exact Hs |]. unfold Model.rendered. rewrite Hs.
  split; [reflexivity |]. split; [reflexivity |]. split; [exact Hu |].
  rewrite <- Hs, <- Hu, <- Ho. destruct w'; reflexivity.
Qed.

Close Scope string_scope.

(** * Further properties of the code *)

(** ** Wind direction for arbitrary settings *)

Lemma lengthSq_nonneg (v : Vector3.t) : 0 <= Vector3.lengthSq v.
Proof.
  unfold Vector3.lengthSq.
  pose proof (Rle_0_sqr (Vector3.x v)); pose proof (Rle_0_sqr (Vector3.y v));
    pose proof (Rle_0_sqr (Vector3.z v)). unfold Rsqr in *. lra.
Qed.

Lemma lengthSq_zero (v : Vector3.t) : Vector3.lengthSq v = 0 -> v = vec3 0 0 0.
Proof.
  destruct v as [a b c]. unfold Vector3.lengthSq; simpl. intros H.
  assert (a = 0) by nra. assert (b = 0) by nra. assert (c = 0) by nra.
  subst. reflexivity.
Qed.

Lemma normalize_nonzero (v : Vector3.t) :
  Vector3.lengthSq v <> 0 ->
  0 < Vector3.length v
  /\ Vector3.normalize v
     = vec3 (Vector3.x v / Vector3.length v) (Vector3.y v / Vector3.length v)
            (Vector3.z v / Vector3.length v)
  /\ Vector3.lengthSq (Vector3.normalize v) = 1.
Proof.
  intros Hnz. pose proof (lengthSq_nonneg v) as Hnn.
  assert (HL : 0 < Vector3.length v).
  { rewrite Vector3_length_sqrt. apply sqrt_lt_R0. lra. }
  assert (HLL : Vector3.length v * Vector3.length v = Vector3.lengthSq v).
  { rewrite Vector3_length_sqrt. apply sqrt_sqrt. exact Hnn. }
  assert (Hn : Vector3.normalize v
               = vec3 (Vector3.x v / Vector3.length v) (Vector3.y v / Vector3.length v)
                      (Vector3.z v / Vector3.length v)).
  { unfold Vector3.normalize. rewrite js_or_nonzero by lra.
    unfold Vector3.divideScalar, Vector3.multiplyScalar, Rdiv.
    f_equal; ring. }
  split; [exact HL |]. split; [exact Hn |].
  rewrite Hn. unfold Vector3.lengthSq at 1. cbn [Vector3.x Vector3.y Vector3.z].
  set (L := Vector3.length v) in *.
  replace (Vector3.x v / L * (Vector3.x v / L) + Vector3.y v / L * (Vector3.y v / L)
           + Vector3.z v / L * (Vector3.z v / L))
    with (Vector3.lengthSq v / (L * L)) by (unfold Vector3.lengthSq; field; lra).
  rewrite HLL. field. lra.
Qed.

Lemma Streamlines_windDir_cases (v : Vector3.t) :
  (Vector3.lengthSq v = 0 /\ Streamlines_windDir v = vec3 1 0 0)
  \/ (Vector3.lengthSq v <> 0 /\ Streamlines_windDir v = Vector3.normalize v).
Proof.
  destruct (Req_dec_T (Vector3.lengthSq v) 0) as [Hz | Hnz].
  - left. split; [exact Hz |].
    rewrite (lengthSq_zero v Hz). unfold Streamlines_windDir.
    rewrite Vector3_normalize_zero.
    destruct (Req_dec_T _ 0) as [_ | N]; [reflexivity |].
    exfalso; apply N; unfold Vector3.lengthSq; simpl; ring.
  - right. split; [exact Hnz |].
    destruct (normalize_nonzero v Hnz) as (_ & _ & H1).
    unfold Streamlines_windDir.
    destruct (Req_dec_T _ 0) as [E | _]; [lra | reflexivity].
Qed.

(** X1: whatever the three direction settings are, the direction the
    particle update uses has length exactly 1, normalising it again
    changes nothing, and it is the very vector the frame callback of
    [Model] writes to the shader for the same settings. *)
Theorem windDir_always_unit :
  (forall v, Vector3.lengthSq (Streamlines_windDir v) = 1)
  /\ (forall v, Streamlines_windDir (Streamlines_windDir v) = Streamlines_windDir v)
  /\ (forall ws,
        Model_windDir ws
        = Streamlines_windDir
            (Streamlines.direction (WindTunnelScene.streamlinesProps ws))).
Proof.
  assert (Hunit : forall v, Vector3.lengthSq (Streamlines_windDir v) = 1).
  { intros v. destruct (Streamlines_windDir_cases v) as [[_ E] | [Hnz E]]; rewrite E.
    - unfold Vector3.lengthSq; simpl; ring.
    - apply (normalize_nonzero v Hnz). }
  split; [exact Hunit |]. split.
  - intros v. apply Streamlines_windDir_unit. apply Hunit.
  - intros ws. reflexivity.
Qed.

(** X2: over the real numbers (rounding of the doubles aside) and within
    the range of the direction sliders, only the direction of the settings
    vector matters: when the three direction settings and their multiples
    by a common positive factor are both slider directions, components in
    [-1, 1] and a squared length of 0 or at least 0.01, so that no
    intermediate value overflows or underflows, the wind direction of the
    multiple is the wind direction of the original. *)
Theorem windDir_scale_invariant (v : Vector3.t) (k : R) (Hk : 0 < k)
        (Hv : slider_direction v)
        (Hkv : slider_direction (Vector3.multiplyScalar v k)) :
  Streamlines_windDir (Vector3.multiplyScalar v k) = Streamlines_windDir v.
Proof.
  assert (Hsq : Vector3.lengthSq (Vector3.multiplyScalar v k)
                = k * k * Vector3.lengthSq v).
  { unfold Vector3.lengthSq, Vector3.multiplyScalar; simpl. ring. }
  destruct (Streamlines_windDir_cases v) as [[Hz E] | [Hnz E]]; rewrite E.
  - rewrite (lengthSq_zero v Hz).
    replace (Vector3.multiplyScalar (vec3 0 0 0) k) with (vec3 0 0 0)
      by (unfold Vector3.multiplyScalar; simpl; f_equal; ring).
    destruct (Streamlines_windDir_cases (vec3 0 0 0)) as [[_ E0] | [N _]];
      [exact E0 |].
    exfalso; apply N; unfold Vector3.lengthSq; simpl; ring.
  - assert (Hk2 : 0 < k * k) by nra.
    pose proof (lengthSq_nonneg v) as Hnn.
    assert (Hnz' : Vector3.lengthSq (Vector3.multiplyScalar v k) <> 0).
    { rewrite Hsq. nra. }
    destruct (Streamlines_windDir_cases (Vector3.multiplyScalar v k))
      as [[Hz' _] | [_ E']]; [contradiction |].
    rewrite E'.
    destruct (normalize_nonzero v Hnz) as (HL & Hn & _).
    destruct (normalize_nonzero _ Hnz') as (HL' & Hn' & _).
    assert (HLk : Vector3.length (Vector3.multiplyScalar v k) = k * Vector3.length v).
    { rewrite !Vector3_length_sqrt, Hsq.
      rewrite sqrt_mult by nra. rewrite sqrt_square by lra. reflexivity. }
    rewrite Hn, Hn', HLk.
    unfold Vector3.multiplyScalar; cbn [Vector3.x Vector3.y Vector3.z].
    f_equal; field; lra.
Qed.

Lemma windDir_scale_invariant_witness :
  0 < 2
  /\ slider_direction (vec3 0.5 0 0)
  /\ slider_direction (Vector3.multiplyScalar (vec3 0.5 0 0) 2)
  /\ Streamlines_windDir (Vector3.multiplyScalar (vec3 0.5 0 0) 2)
     = Streamlines_windDir (vec3 0.5 0 0).
Proof.
  assert (H : 0 < 2) by lra.
  assert (Hv : slider_direction (vec3 0.5 0 0)).
  { unfold slider_direction, Vector3.lengthSq; simpl.
    split; [lra |]. split; [lra |]. split; [lra |]. right; lra. }
  assert (Hkv : slider_direction (Vector3.multiplyScalar (vec3 0.5 0 0) 2)).
  { unfold slider_direction, Vector3.lengthSq, Vector3.multiplyScalar; simpl.
    split; [lra |]. split; [lra |]. split; [lra |]. right; lra. }
  split; [exact H |]. split; [exact Hv |]. split; [exact Hkv |].
  exact (windDir_scale_invariant (vec3 0.5 0 0) 2 H Hv Hkv).
Defined.

(** ** The fragment shader on arbitrary inputs *)

Lemma GLSL_normalize_nonzero (v : Vector3.t) :
  Vector3.lengthSq v <> 0 -> Vector3.lengthSq (GLSL.normalize v) = 1.
Proof.
  intros Hnz. pose proof (lengthSq_nonneg v) as Hnn.
  unfold GLSL.normalize, GLSL.dot, Vector3.dot.
  change (Vector3.x v * Vector3.x v + Vector3.y v * Vector3.y v
          + Vector3.z v * Vector3.z v) with (Vector3.lengthSq v).
  assert (HL : 0 < sqrt (Vector3.lengthSq v)) by (apply sqrt_lt_R0; lra).
  assert (HLL : sqrt (Vector3.lengthSq v) * sqrt (Vector3.lengthSq v)
                = Vector3.lengthSq v) by (apply sqrt_sqrt; exact Hnn).
  set (L := sqrt (Vector3.lengthSq v)) in *.
  unfold Vector3.lengthSq at 1. cbn [Vector3.x Vector3.y Vector3.z].
  replace (Vector3.x v / L * (Vector3.x v / L) + Vector3.y v / L * (Vector3.y v / L)
           + Vector3.z v / L * (Vector3.z v / L))
    with (Vector3.lengthSq v / (L * L)) by (unfold Vector3.lengthSq; field; lra).
  rewrite HLL. field. lra.
Qed.

Lemma GLSL_normalize_scale (v : Vector3.t) (k : R) :
  0 < k -> Vector3.lengthSq v <> 0 ->
  GLSL.normalize (GLSL.scale v k) = GLSL.normalize v.
Proof.
  intros Hk Hnz. pose proof (lengthSq_nonneg v) as Hnn.
  unfold GLSL.normalize, GLSL.dot, Vector3.dot, GLSL.scale.
  cbn [Vector3.x Vector3.y Vector3.z].
  replace (Vector3.x v * k * (Vector3.x v * k) + Vector3.y v * k * (Vector3.y v * k)
           + Vector3.z v * k * (Vector3.z v * k))
    with (k * k * Vector3.lengthSq v) by (unfold Vector3.lengthSq; ring).
  change (Vector3.x v * Vector3.x v + Vector3.y v * Vector3.y v
          + Vector3.z v * Vector3.z v) with (Vector3.lengthSq v).
  rewrite sqrt_mult by nra. rewrite sqrt_square by lra.
  assert (HL : 0 < sqrt (Vector3.lengthSq v)) by (apply sqrt_lt_R0; lra).
  f_equal; field; lra.
Qed.

Lemma smoothstep_range (e0 e1 a : R) : 0 <= GLSL.smoothstep e0 e1 a <= 1.
Proof.
  unfold GLSL.smoothstep.
  pose proof (clamp01_range ((a - e0) / (e1 - e0))) as [H0 H1].
  set (c := GLSL.clamp _ 0 1) in *.
  pose proof (hermite_step 0 c ltac:(lra) H0 H1) as [Ha _].
  pose proof (hermite_step c 1 H0 H1 ltac:(lra)) as [Hb _].
  lra.
Qed.

(** X3: the shader does its own normalisation, so for every non-zero
    normal and wind vector, of any length, the intensity lies in [-1, 1]
    and the adjusted intensity in [-1.15, 1.05]; and the colour written
    does not change when the interpolated normal or the wind uniform is
    multiplied by a positive factor. *)
Theorem fragment_independent_of_lengths
        (u : Uniforms) (N P : Vector3.t) (j k : R)
        (HN : Vector3.lengthSq N <> 0) (HW : Vector3.lengthSq (uWindDir u) <> 0)
        (Hj : 0 < j) (Hk : 0 < k) :
  let u' := mkUniforms (GLSL.scale (uWindDir u) k) (uColorHigh u) (uColorMid u)
                       (uColorLow u) (uTime u) in
  -1 <= AerodynamicMaterial.intensity0 u N <= 1
  /\ -1.15 <= AerodynamicMaterial.adjustedIntensity u N P <= 1.05
  /\ AerodynamicMaterial.fragmentShader u' (GLSL.scale N j) P
     = AerodynamicMaterial.fragmentShader u N P.
Proof.
  intros u'.
  assert (H0 : -1 <= AerodynamicMaterial.intensity0 u N <= 1).
  { unfold AerodynamicMaterial.intensity0.
    pose proof (unit_dot_range _ _ (GLSL_normalize_nonzero N HN)
                               (GLSL_normalize_nonzero _ HW)) as Hd.
    unfold GLSL.dot, GLSL.neg, Vector3.dot in *.
    cbn [Vector3.x Vector3.y Vector3.z]. lra. }
  split; [exact H0 |]. split.
  - unfold AerodynamicMaterial.adjustedIntensity.
    pose proof (flowEffect_range u P). pose proof (turbulence_range u P).
    destruct (Rlt_dec _ (-0.2)); lra.
  - unfold AerodynamicMaterial.fragmentShader, AerodynamicMaterial.adjustedIntensity,
      AerodynamicMaterial.intensity0, AerodynamicMaterial.flowEffect,
      AerodynamicMaterial.flowPhase, AerodynamicMaterial.turbulence,
      AerodynamicMaterial.colorMapping.
    subst u'. cbn [uWindDir uColorHigh uColorMid uColorLow uTime].
    rewrite (GLSL_normalize_scale (uWindDir u) k Hk HW).
    rewrite (GLSL_normalize_scale N j Hj HN). reflexivity.
Qed.

Lemma fragment_independent_of_lengths_witness :
  Vector3.lengthSq (vec3 0 2 0) <> 0
  /\ Vector3.lengthSq (uWindDir AerodynamicMaterial.uniforms) <> 0
  /\ 0 < 3 /\ 0 < 5
  /\ -1 <= AerodynamicMaterial.intensity0 AerodynamicMaterial.uniforms (vec3 0 2 0) <= 1.
Proof.
  assert (HN : Vector3.lengthSq (vec3 0 2 0) <> 0)
    by (unfold Vector3.lengthSq; simpl; lra).
  assert (HW : Vector3.lengthSq (uWindDir AerodynamicMaterial.uniforms) <> 0)
    by (unfold Vector3.lengthSq; simpl; lra).
  assert (Hj : 0 < 3) by lra. assert (Hk : 0 < 5) by lra.
  split; [exact HN |]. split; [exact HW |]. split; [exact Hj |]. split; [exact Hk |].
  exact (proj1 (fragment_independent_of_lengths
                  AerodynamicMaterial.uniforms (vec3 0 2 0) (vec3 0 0 0) 3 5
                  HN HW Hj Hk)).
Defined.

(** X4: with the material's three reference colours, every fragment
    colour is a valid one: each channel lies in [0, 1], for every normal,
    position, wind uniform and time; and alpha is 1. *)
Theorem fragment_color_in_unit_cube (W N P : Vector3.t) (t : R) :
  let out := AerodynamicMaterial.fragmentShader (frameUniforms W t) N P in
  0 <= Vector3.x (fst out) <= 1
  /\ 0 <= Vector3.y (fst out) <= 1
  /\ 0 <= Vector3.z (fst out) <= 1
  /\ snd out = 1.
Proof.
  intros out. subst out. unfold AerodynamicMaterial.fragmentShader. cbn [fst snd].
  set (fe := AerodynamicMaterial.flowEffect (frameUniforms W t) P).
  set (i := AerodynamicMaterial.adjustedIntensity (frameUniforms W t) N P).
  pose proof (flowEffect_range (frameUniforms W t) P) as Hfe. fold fe in Hfe.
  unfold AerodynamicMaterial.colorMapping.
  pose proof (smoothstep_range 0.2 1 i) as Hs1.
  pose proof (smoothstep_range (-0.2) 0.2 i) as Hs2.
  destruct (Rgt_dec i 0.2); [| destruct (Rgt_dec i (-0.2))];
    unfold GLSL.mix, GLSL.mix1, GLSL.scale; simpl;
    repeat split; try lra; nra.
Qed.

(** X5: which band a face falls in, read off the raw intensity
    [dot(N, -W)]: below -0.2 the Mid-to-High branch is never taken
    (turbulence moves the intensity by less than 0.15); above 0.25 it is
    always taken; and strictly between -0.15 and 0.15 the colour is always
    the Low-to-Mid blend of the intensity plus the flow ripple. *)
Theorem band_chosen_by_raw_intensity (u : Uniforms) (N P : Vector3.t) :
  let i0 := AerodynamicMaterial.intensity0 u N in
  let fe := AerodynamicMaterial.flowEffect u P in
  let a := AerodynamicMaterial.adjustedIntensity u N P in
  let color := fst (AerodynamicMaterial.fragmentShader u N P) in
  (i0 < -0.2 ->
     a < -0.05
     /\ (color = GLSL.mix (uColorLow u) (uColorMid u) (GLSL.smoothstep (-0.2) 0.2 a)
         \/ color = GLSL.scale (uColorLow u) (0.6 + fe)))
  /\ (0.25 < i0 ->
        color = GLSL.mix (uColorMid u) (uColorHigh u)
                         (GLSL.smoothstep 0.2 1 (i0 + fe)))
  /\ (-0.15 < i0 < 0.15 ->
        color = GLSL.mix (uColorLow u) (uColorMid u)
                         (GLSL.smoothstep (-0.2) 0.2 (i0 + fe))).
Proof.
  intros i0 fe a color.
  pose proof (flowEffect_range u P) as Hfe. fold fe in Hfe.
  pose proof (turbulence_range u P) as Htu.
  subst color a. unfold AerodynamicMaterial.fragmentShader. cbn [fst].
  unfold AerodynamicMaterial.adjustedIntensity. fold i0. fold fe.
  unfold AerodynamicMaterial.colorMapping.
  split; [| split]; intros Hi.
  - destruct (Rlt_dec i0 (-0.2)) as [_ | Hn]; [| contradiction].
    split; [lra |].
    destruct (Rgt_dec _ 0.2); [lra |].
    destruct (Rgt_dec _ (-0.2)); [left | right]; reflexivity.
  - destruct (Rlt_dec i0 (-0.2)); [lra |].
    destruct (Rgt_dec _ 0.2); [reflexivity | lra].
  - destruct (Rlt_dec i0 (-0.2)); [lra |].
    destruct (Rgt_dec _ 0.2); [lra |].
    destruct (Rgt_dec _ (-0.2)); [reflexivity | lra].
Qed.

Lemma band_chosen_by_raw_intensity_witness :
  AerodynamicMaterial.intensity0 AerodynamicMaterial.uniforms (vec3 1 0 0) < -0.2
  /\ AerodynamicMaterial.adjustedIntensity
       AerodynamicMaterial.uniforms (vec3 1 0 0) (vec3 0 0 0) < -0.05.
Proof.
  assert (H : AerodynamicMaterial.intensity0 AerodynamicMaterial.uniforms (vec3 1 0 0)
              < -0.2).
  { assert (Hu : Vector3.lengthSq (vec3 1 0 0) = 1)
      by (unfold Vector3.lengthSq; simpl; ring).
    unfold AerodynamicMaterial.intensity0.
    change (uWindDir AerodynamicMaterial.uniforms) with (vec3 1 0 0).
    rewrite (GLSL_normalize_unit _ Hu).
    unfold GLSL.dot, GLSL.neg, Vector3.dot; simpl. lra. }
  split; [exact H |].
  exact (proj1 (proj1 (band_chosen_by_raw_intensity
                         AerodynamicMaterial.uniforms (vec3 1 0 0) (vec3 0 0 0)) H)).
Defined.

(** X6: turning a face around negates its intensity: the intensity of
    the opposite normal is the opposite number, so a face that reads
    above 0.25 (always Mid-to-High) reads below -0.2 once flipped, where
    the Mid-to-High branch is never taken. *)
Theorem intensity_of_flipped_normal (u : Uniforms) (N : Vector3.t) :
  AerodynamicMaterial.intensity0 u (GLSL.neg N) = - AerodynamicMaterial.intensity0 u N
  /\ (0.25 < AerodynamicMaterial.intensity0 u N ->
      AerodynamicMaterial.intensity0 u (GLSL.neg N) < -0.2).
Proof.
  assert (H : AerodynamicMaterial.intensity0 u (GLSL.neg N)
              = - AerodynamicMaterial.intensity0 u N).
  { unfold AerodynamicMaterial.intensity0.
    assert (Hn : GLSL.normalize (GLSL.neg N) = GLSL.neg (GLSL.normalize N)).
    { unfold GLSL.normalize, GLSL.neg, GLSL.dot, Vector3.dot.
      cbn [Vector3.x Vector3.y Vector3.z].
      replace (- Vector3.x N * - Vector3.x N + - Vector3.y N * - Vector3.y N
               + - Vector3.z N * - Vector3.z N)
        with (Vector3.x N * Vector3.x N + Vector3.y N * Vector3.y N
              + Vector3.z N * Vector3.z N) by ring.
      unfold Rdiv. f_equal; ring. }
    rewrite Hn. unfold GLSL.dot, GLSL.neg, Vector3.dot.
    cbn [Vector3.x Vector3.y Vector3.z]. ring. }
  split; [exact H |]. intros Hi. rewrite H. lra.
Qed.

Lemma intensity_of_flipped_normal_witness :
  0.25 < AerodynamicMaterial.intensity0 AerodynamicMaterial.uniforms (vec3 (-1) 0 0)
  /\ AerodynamicMaterial.intensity0 AerodynamicMaterial.uniforms
       (GLSL.neg (vec3 (-1) 0 0)) < -0.2.
Proof.
  assert (H : 0.25 < AerodynamicMaterial.intensity0 AerodynamicMaterial.uniforms
                       (vec3 (-1) 0 0)).
  { assert (Hu : Vector3.lengthSq (vec3 1 0 0) = 1)
      by (unfold Vector3.lengthSq; simpl; ring).
    assert (Hv : Vector3.lengthSq (vec3 (-1) 0 0) = 1)
      by (unfold Vector3.lengthSq; simpl; ring).
    unfold AerodynamicMaterial.intensity0.
    change (uWindDir AerodynamicMaterial.uniforms) with (vec3 1 0 0).
    rewrite (GLSL_normalize_unit _ Hu), (GLSL_normalize_unit _ Hv).
    unfold GLSL.dot, GLSL.neg, Vector3.dot; simpl. lra. }
  split; [exact H |].
  exact (proj2 (intensity_of_flipped_normal
                  AerodynamicMaterial.uniforms (vec3 (-1) 0 0)) H).
Defined.

Lemma band_nondecreasing (lo mid hi i j : R) :
  lo <= mid -> mid <= hi -> i <= j -> band lo mid hi i <= band lo mid hi j.
Proof.
  intros H1 H2 Hij. unfold band.
  pose proof (smoothstep_range 0.2 1 i). pose proof (smoothstep_range 0.2 1 j).
  pose proof (smoothstep_range (-0.2) 0.2 i). pose proof (smoothstep_range (-0.2) 0.2 j).
  pose proof (smoothstep_mono 0.2 1 i j ltac:(lra) Hij).
  pose proof (smoothstep_mono (-0.2) 0.2 i j ltac:(lra) Hij).
  unfold GLSL.mix1.
  destruct (Rgt_dec i 0.2); destruct (Rgt_dec j 0.2); try lra; nra.
Qed.

Lemma band_nonincreasing (lo mid hi i j : R) :
  mid <= lo -> hi <= mid -> i <= j -> band lo mid hi j <= band lo mid hi i.
Proof.
  intros H1 H2 Hij. unfold band.
  pose proof (smoothstep_range 0.2 1 i). pose proof (smoothstep_range 0.2 1 j).
  pose proof (smoothstep_range (-0.2) 0.2 i). pose proof (smoothstep_range (-0.2) 0.2 j).
  pose proof (smoothstep_mono 0.2 1 i j ltac:(lra) Hij).
  pose proof (smoothstep_mono (-0.2) 0.2 i j ltac:(lra) Hij).
  unfold GLSL.mix1.
  destruct (Rgt_dec i 0.2); destruct (Rgt_dec j 0.2); try lra; nra.
Qed.

(** X7: above the wake threshold the colour scale runs one way: as the
    adjusted intensity grows the red channel never decreases and the blue
    channel never increases, and from intensity 1 on the colour is exactly
    the High colour. *)
Theorem color_scale_monotone (W : Vector3.t) (t fe i j : R)
        (Hi : -0.2 < i) (Hij : i <= j) :
  let u := frameUniforms W t in
  Vector3.x (AerodynamicMaterial.colorMapping u fe i)
  <= Vector3.x (AerodynamicMaterial.colorMapping u fe j)
  /\ Vector3.z (AerodynamicMaterial.colorMapping u fe j)
     <= Vector3.z (AerodynamicMaterial.colorMapping u fe i)
  /\ (1 <= j -> AerodynamicMaterial.colorMapping u fe j = uColorHigh u).
Proof.
  intros u.
  destruct (colorMapping_bands u fe i ltac:(lra)) as (Rx & _ & Rz).
  destruct (colorMapping_bands u fe j ltac:(lra)) as (Rx' & _ & Rz').
  rewrite Rx, Rx', Rz, Rz'. simpl.
  split; [apply band_nondecreasing; lra |].
  split; [apply band_nonincreasing; lra |].
  intros Hj. unfold AerodynamicMaterial.colorMapping.
  destruct (Rgt_dec j 0.2); [| lra].
  assert (Hs : GLSL.smoothstep 0.2 1 j = 1).
  { pose proof (smoothstep_range 0.2 1 j) as [_ Hle].
    pose proof (smoothstep_mono 0.2 1 1 j ltac:(lra) Hj) as Hge.
    rewrite (smoothstep_upper 0.2 1) in Hge by lra. lra. }
  rewrite Hs. unfold GLSL.mix, GLSL.mix1; simpl. f_equal; ring.
Qed.

Lemma color_scale_monotone_witness :
  -0.2 < 0 /\ 0 <= 0.5
  /\ Vector3.x (AerodynamicMaterial.colorMapping (frameUniforms (vec3 1 0 0) 0) 0 0)
     <= Vector3.x (AerodynamicMaterial.colorMapping (frameUniforms (vec3 1 0 0) 0) 0 0.5).
Proof.
  assert (H1 : -0.2 < 0) by lra. assert (H2 : 0 <= 0.5) by lra.
  split; [exact H1 |]. split; [exact H2 |].
  exact (proj1 (color_scale_monotone (vec3 1 0 0) 0 0 0 0.5 H1 H2)).
Defined.

(** ** The instance buffer *)

Lemma setMatrixAt_length (buffer : list Matrix4.t) (i : nat) (m : Matrix4.t) :
  List.length (Streamlines.setMatrixAt buffer i m) = List.length buffer.
Proof.
  revert i. induction buffer as [| b rest IH]; intros i; simpl; [reflexivity |].
  destruct i; simpl; [reflexivity | rewrite IH; reflexivity].
Qed.

Lemma setMatrixAt_same (buffer : list Matrix4.t) (i : nat) (m : Matrix4.t) :
  (i < List.length buffer)%nat ->
  nth_error (Streamlines.setMatrixAt buffer i m) i = Some m.
Proof.
  revert i. induction buffer as [| b rest IH]; intros i H; simpl in *; [lia |].
  destruct i; simpl; [reflexivity | apply IH; lia].
Qed.

Lemma setMatrixAt_other (buffer : list Matrix4.t) (i j : nat) (m : Matrix4.t) :
  j <> i ->
  nth_error (Streamlines.setMatrixAt buffer i m) j = nth_error buffer j.
Proof.
  revert i j. induction buffer as [| b rest IH]; intros i j H; simpl; [reflexivity |].
  destruct i; destruct j; simpl; try reflexivity; try lia.
  apply IH. lia.
Qed.

Lemma setMatrixAt_beyond (buffer : list Matrix4.t) (i : nat) (m : Matrix4.t) :
  (List.length buffer <= i)%nat -> Streamlines.setMatrixAt buffer i m = buffer.
Proof.
  revert i. induction buffer as [| b rest IH]; intros i H; simpl in *; [reflexivity |].
  destruct i; [lia |]. rewrite IH by lia. reflexivity.
Qed.

Lemma forEach_buffer (speed delta bounds : R) (dir : Vector3.t)
      (ps : list Particle.t) :
  forall (i : nat) (buffer : list Matrix4.t) (g : Rng) ps' buffer' g',
    Streamlines.forEach speed delta bounds dir ps i buffer g = (ps', buffer', g') ->
    List.length buffer' = List.length buffer
    /\ (forall j, (j < i)%nat \/ (i + List.length ps <= j)%nat ->
          nth_error buffer' j = nth_error buffer j)
    /\ (forall k p', nth_error ps' k = Some p' ->
          (i + k < List.length buffer)%nat ->
          nth_error buffer' (i + k)
          = Some (Streamlines.instanceMatrix speed dir p')).
Proof.
  induction ps as [| p ps IH]; intros i buffer g ps' buffer' g' H; simpl in H.
  - inversion H; subst. split; [reflexivity |]. split; [reflexivity |].
    intros k p' Hk. destruct k; discriminate.
  - unfold bind, ret in H.
    destruct (Streamlines.moveParticle speed delta bounds dir p g) as [p1 g1].
    destruct (Streamlines.forEach speed delta bounds dir ps (S i) _ g1)
      as [[ps1 buf1] g2] eqn:E.
    apply IH in E. destruct E as (Hl & Hout & Hin).
    inversion H; subst. cbn [fst snd]. clear H.
    rewrite setMatrixAt_length in Hl.
    split; [exact Hl |]. split.
    + intros j Hj. rewrite Hout by (simpl in Hj; lia).
      apply setMatrixAt_other. simpl in Hj. lia.
    + intros k p' Hk Hlt. destruct k as [| k]; simpl in Hk.
      * inversion Hk; subst. rewrite Nat.add_0_r in *.
        rewrite Hout by lia. apply setMatrixAt_same. exact Hlt.
      * replace (i + S k)%nat with (S i + k)%nat by lia.
        apply Hin; [exact Hk |]. rewrite setMatrixAt_length. lia.
Qed.

(** X8: a frame commits the transform of every particle at the
    particle's own index: the instance buffer keeps its length, the entry
    at each index below the pool size is the matrix built from the moved
    particle, with the particle's new position as translation, and the
    entries past the pool are left as they were. *)
Theorem frame_commits_every_transform
        (delta : R) (st : Streamlines.State) (buffer : list Matrix4.t) (g : Rng)
        (Hmesh : Streamlines.mesh st = Some buffer) :
  let st' := fst (Streamlines.useFrame delta st g) in
  let speed := Streamlines.speed (Streamlines.props st) in
  let dir := Streamlines_windDir (Streamlines.direction (Streamlines.props st)) in
  exists buffer',
    Streamlines.mesh st' = Some buffer'
    /\ List.length buffer' = List.length buffer
    /\ (forall k p', nth_error (Streamlines.particles (Streamlines.memo st')) k = Some p' ->
          (k < List.length buffer)%nat ->
          nth_error buffer' k = Some (Streamlines.instanceMatrix speed dir p')
          /\ Matrix4.origin (Streamlines.instanceMatrix speed dir p') = positionOf p')
    /\ (forall j, (List.length (Streamlines.particles (Streamlines.memo st)) <= j)%nat ->
          nth_error buffer' j = nth_error buffer j).
Proof.
  intros st' speed dir. subst st'. unfold Streamlines.useFrame. rewrite Hmesh.
  unfold bind, ret. fold speed dir.
  destruct (Streamlines.forEach speed delta _ dir _ 0 buffer g)
    as [[ps' buf'] g'] eqn:E.
  apply forEach_buffer in E. destruct E as (Hl & Hout & Hin).
  exists buf'. cbn. split; [reflexivity |]. split; [exact Hl |]. split.
  - intros k p' Hk Hlt. split; [| reflexivity].
    apply (Hin k p' Hk). simpl. exact Hlt.
  - intros j Hj. apply Hout. right. simpl. exact Hj.
Qed.

Lemma frame_commits_every_transform_witness :
  Streamlines.mesh scenario_state = Some [Matrix4.identity]
  /\ exists buffer',
       Streamlines.mesh (fst (Streamlines.useFrame 0 scenario_state scenario_rng))
       = Some buffer'
       /\ List.length buffer' = 1%nat.
Proof.
  assert (H : Streamlines.mesh scenario_state = Some [Matrix4.identity])
    by reflexivity.
  split; [exact H |].
  destruct (frame_commits_every_transform 0 scenario_state [Matrix4.identity]
              scenario_rng H) as (b & Hm & Hl & _).
  exists b. split; [exact Hm | exact Hl].
Defined.

(** ** Where particles can be after a frame *)

Lemma respawned_within_jitter (c d b c' : R) :
  0 <= b -> respawned c d b c' -> - (b / 2) - 5 <= c' <= b / 2 + 5.
Proof.
  intros Hb [Hout Hin].
  destruct (Rgt_dec (Rabs c) (b / 2)) as [Hc | Hc].
  - destruct (Hout Hc) as [Hbig Hsmall].
    destruct (Rgt_dec (Rabs d) 0.1) as [Hd | Hd].
    + destruct (Hbig Hd) as (r & Hr & Hj & _ & Hpos & Hneg).
      destruct (Rlt_dec 0 d) as [Hp | Hp].
      * rewrite (Hpos Hp). lra.
      * assert (Hn : d < 0).
        { unfold Rabs in Hd. destruct (Rcase_abs d); lra. }
        rewrite (Hneg Hn). lra.
    + destruct (Hsmall ltac:(lra)) as (r & _ & _ & Hrange). lra.
  - rewrite (Hin ltac:(lra)).
    unfold Rabs in Hc. destruct (Rcase_abs c); lra.
Qed.

(** X9: after a frame every particle of the pool lies within 5 units of
    the volume on every axis, wherever it was before the frame: a
    coordinate is either within the bounds or has just been respawned with
    a jitter of at most 5. *)
Theorem frame_keeps_particles_near_volume
        (delta : R) (st : Streamlines.State) (g : Rng)
        (Hg : unit_samples g)
        (Hb : 0 <= Streamlines.bounds (Streamlines.props st))
        (Hmesh : Streamlines.mesh st <> None) :
  Forall (inside (Streamlines.bounds (Streamlines.props st) + 10))
         (Streamlines.particles
            (Streamlines.memo (fst (Streamlines.useFrame delta st g)))).
Proof.
  unfold Streamlines.useFrame.
  destruct (Streamlines.mesh st) as [buffer |]; [| contradiction].
  unfold bind, ret.
  destruct (Streamlines.forEach _ delta _ _ _ 0 buffer g) as [[ps' buf'] g'] eqn:E.
  cbn. apply (forEach_wrapped _ _ _ _ _ Hb _ _ _ _ _ _ Hg) in E.
  set (b := Streamlines.bounds (Streamlines.props st)) in *.
  induction E as [| p p' ps ps' Hw _ IH]; constructor; [| exact IH].
  destruct Hw as (Hx & Hy & Hz).
  pose proof (respawned_within_jitter _ _ _ _ Hb Hx).
  pose proof (respawned_within_jitter _ _ _ _ Hb Hy).
  pose proof (respawned_within_jitter _ _ _ _ Hb Hz).
  unfold inside. repeat split; lra.
Qed.

Lemma frame_keeps_particles_near_volume_witness :
  unit_samples scenario_rng
  /\ 0 <= Streamlines.bounds (Streamlines.props scenario_state)
  /\ Streamlines.mesh scenario_state <> None
  /\ Forall (inside (150 + 10))
            (Streamlines.particles
               (Streamlines.memo
                  (fst (Streamlines.useFrame 0 scenario_state scenario_rng)))).
Proof.
  assert (Hg : unit_samples scenario_rng) by (intros n; simpl; lra).
  assert (Hb : 0 <= Streamlines.bounds (Streamlines.props scenario_state))
    by (simpl; lra).
  assert (Hm : Streamlines.mesh scenario_state <> None) by discriminate.
  split; [exact Hg |]. split; [exact Hb |]. split; [exact Hm |].
  exact (frame_keeps_particles_near_volume 0 scenario_state scenario_rng Hg Hb Hm).
Defined.

(** ** Frames without motion *)

Lemma wrap_within (c d b : R) (g : Rng) :
  - (b / 2) <= c <= b / 2 -> Streamlines.wrap c d b g = (c, g).
Proof.
  intros H. unfold Streamlines.wrap, Math_abs.
  destruct (Rgt_dec (Rabs c) (b / 2)) as [Hc | _]; [| reflexivity].
  unfold Rabs in Hc. destruct (Rcase_abs c); lra.
Qed.

Lemma moveParticle_still (speed delta bounds : R) (dir : Vector3.t)
      (p : Particle.t) (g : Rng) :
  speed * delta = 0 -> inside bounds p ->
  Streamlines.moveParticle speed delta bounds dir p g = (p, g).
Proof.
  intros H0 (Hx & Hy & Hz). unfold Streamlines.moveParticle.
  assert (Hm : speed * Particle.speedOffset p * delta * 5 = 0).
  { replace (speed * Particle.speedOffset p * delta * 5)
      with (speed * delta * (Particle.speedOffset p * 5)) by ring.
    rewrite H0. ring. }
  rewrite Hm. rewrite !Rmult_0_r, !Rplus_0_r.
  unfold bind, ret. rewrite !wrap_within by assumption.
  destruct p; reflexivity.
Qed.

Lemma forEach_still (speed delta bounds : R) (dir : Vector3.t)
      (ps : list Particle.t) :
  speed * delta = 0 -> Forall (inside bounds) ps ->
  forall (i : nat) (buffer : list Matrix4.t) (g : Rng),
    fst (fst (Streamlines.forEach speed delta bounds dir ps i buffer g)) = ps
    /\ snd (Streamlines.forEach speed delta bounds dir ps i buffer g) = g.
Proof.
  intros H0 Hin. induction Hin as [| p ps Hp _ IH]; intros i buffer g; simpl.
  - split; reflexivity.
  - unfold bind, ret. rewrite (moveParticle_still _ _ _ _ _ _ H0 Hp).
    specialize (IH (S i) (Streamlines.setMatrixAt buffer i
                            (Streamlines.instanceMatrix speed dir p)) g).
    destruct (Streamlines.forEach speed delta bounds dir ps (S i) _ g)
      as [[ps1 buf1] g1].
    cbn [fst snd] in *. destruct IH as [E1 E2]. subst. split; reflexivity.
Qed.

(** X10: with speed 0, or on frames of zero duration, nothing moves: a
    pool that lies inside the volume has the same particles after any
    number of such frames, no particle is respawned and no random number
    is consumed. *)
Theorem still_wind_moves_nothing
        (deltas : list R) (st : Streamlines.State) (g : Rng)
        (Hstill : Forall (fun delta => Streamlines.speed (Streamlines.props st) * delta = 0)
                         deltas)
        (Hin : Forall (inside (Streamlines.bounds (Streamlines.props st)))
                      (Streamlines.particles (Streamlines.memo st))) :
  let r := Streamlines.run (map Streamlines.Frame deltas) st g in
  Streamlines.particles (Streamlines.memo (fst r))
  = Streamlines.particles (Streamlines.memo st)
  /\ snd r = g.
Proof.
  revert st g Hstill Hin.
  induction deltas as [| d ds IH]; intros st g Hstill Hin; cbn [map Streamlines.run].
  - split; reflexivity.
  - inversion Hstill as [| ? ? Hd Hds]; subst.
    unfold bind. cbn [Streamlines.step].
    assert (Hf : Streamlines.particles
                   (Streamlines.memo (fst (Streamlines.useFrame d st g)))
                 = Streamlines.particles (Streamlines.memo st)
                 /\ snd (Streamlines.useFrame d st g) = g
                 /\ Streamlines.props (fst (Streamlines.useFrame d st g))
                    = Streamlines.props st).
    { unfold Streamlines.useFrame.
      destruct (Streamlines.mesh st) as [buffer |]; [| repeat split].
      unfold bind, ret.
      pose proof (forEach_still _ _ _
                    (Streamlines_windDir (Streamlines.direction (Streamlines.props st)))
                    _ Hd Hin 0%nat buffer g) as [E1 E2].
      destruct (Streamlines.forEach _ d _ _ _ 0 buffer g) as [[ps1 buf1] g1].
      cbn [fst snd] in *. subst. cbn. repeat split. }
    destruct Hf as (Hp & Hg & Hprops).
    destruct (Streamlines.useFrame d st g) as [st1 g1]. cbn [fst snd] in *. subst g1.
    specialize (IH st1 g).
    rewrite Hprops, Hp in IH. specialize (IH Hds Hin).
    cbv zeta in IH. destruct IH as [E1 E2]. cbv zeta. split; [exact E1 | exact E2].
Qed.

Lemma still_wind_moves_nothing_witness :
  Forall (fun delta => 0 * delta = 0) [0.016; 0.016]
  /\ Forall (inside 150) [Particle.mk 10 0 (-20) 1 1]
  /\ Streamlines.particles
       (Streamlines.memo
          (fst (Streamlines.run
                  (map Streamlines.Frame [0.016; 0.016])
                  (Streamlines.mkState
                     (Streamlines.mkProps 1 0 (vec3 0 0 0) 150)
                     (Streamlines.mkMemo 1 150 [Particle.mk 10 0 (-20) 1 1])
                     (Some [Matrix4.identity]))
                  scenario_rng)))
     = [Particle.mk 10 0 (-20) 1 1].
Proof.
  assert (H1 : Forall (fun delta => 0 * delta = 0) [0.016; 0.016])
    by (repeat constructor; lra).
  assert (H2 : Forall (inside 150) [Particle.mk 10 0 (-20) 1 1])
    by (repeat constructor; simpl; lra).
  split; [exact H1 |]. split; [exact H2 |].
  exact (proj1 (still_wind_moves_nothing
                  [0.016; 0.016]
                  (Streamlines.mkState
                     (Streamlines.mkProps 1 0 (vec3 0 0 0) 150)
                     (Streamlines.mkMemo 1 150 [Particle.mk 10 0 (-20) 1 1])
                     (Some [Matrix4.identity]))
                  scenario_rng H1 H2)).
Defined.

(** ** Sliders and the pool *)

Lemma useMemo_same (m : Streamlines.Memo) (g : Rng) :
  Streamlines.useMemo_particles
    (Some m) (Streamlines.dep_count m) (Streamlines.dep_bounds m) g
  = (m, g).
Proof.
  unfold Streamlines.useMemo_particles.
  assert (E : Streamlines.same_deps m (Streamlines.dep_count m)
                                    (Streamlines.dep_bounds m) = true)
    by (apply same_deps_true; split; reflexivity).
  rewrite E. reflexivity.
Qed.

Lemma render_same_deps (p : Streamlines.Props) (st : Streamlines.State) (g : Rng) :
  pool_ok st ->
  Streamlines.count p = Streamlines.count (Streamlines.props st) ->
  Streamlines.bounds p = Streamlines.bounds (Streamlines.props st) ->
  Streamlines.render p st g
  = (Streamlines.mkState p (Streamlines.memo st) (Streamlines.mesh st), g).
Proof.
  intros (_ & Hc & Hb) Ec Eb. unfold Streamlines.render.
  rewrite Ec, Eb, <- Hc, <- Hb. unfold bind, ret.
  rewrite useMemo_same. reflexivity.
Qed.

Lemma render_new_count (p : Streamlines.Props) (st : Streamlines.State) (g : Rng) :
  pool_ok st ->
  Streamlines.count p <> Streamlines.count (Streamlines.props st) ->
  Streamlines.render p st g
  = (Streamlines.mkState
       p
       (Streamlines.mkMemo (Streamlines.count p) (Streamlines.bounds p)
          (drawnPool (samples g) (cursor g)
                     (Streamlines.count p) (Streamlines.bounds p)))
       (Streamlines.mesh st),
     mkRng (samples g) (5 * Streamlines.count p + cursor g)).
Proof.
  intros (_ & Hc & _) Hd. unfold Streamlines.render, Streamlines.useMemo_particles.
  destruct (Streamlines.same_deps _ _ _) eqn:E.
  - apply same_deps_true in E. destruct E as [E _].
    exfalso. apply Hd. rewrite <- E. exact Hc.
  - unfold bind, ret. rewrite initParticles_drawn. reflexivity.
Qed.

(** X11: moving the speed slider or a direction slider never resets the
    particles.  With the settings [ws] on screen, the render that follows
    a move of the speed slider to [v] runs with exactly the props
    (count of [ws], speed [v], direction of [ws], bounds 150), and likewise
    a move of a direction slider replaces that one component by the slider
    value and nothing else; in each case the pool is the very same list
    and no random number is drawn, and the next frame displaces the old
    particles with the new speed.  Moving the density slider to a different
    count [n] replaces the pool by [n] particles built from the next
    [5 * n] samples of the generator, five per particle in the order
    x, y, z, speedOffset, sizeOffset. *)
Theorem wind_sliders_keep_pool
        (ws : WindSettings) (c : ControlPanel.SliderChange)
        (st : Streamlines.State) (g : Rng)
        (Hprops : Streamlines.props st = WindTunnelScene.streamlinesProps ws)
        (Hok : pool_ok st) :
  let r := Streamlines.render
             (WindTunnelScene.streamlinesProps
                (ControlPanel.handleSliderChange ws c)) st g in
  let kept := Streamlines.particles (Streamlines.memo (fst r))
              = Streamlines.particles (Streamlines.memo st)
              /\ Streamlines.mesh (fst r) = Streamlines.mesh st
              /\ snd r = g in
  (forall v, c = ControlPanel.Speed v ->
     Streamlines.props (fst r)
     = Streamlines.mkProps (particleCount ws) v
         (vec3 (directionX ws) (directionY ws) (directionZ ws)) 150
     /\ kept
     /\ forall delta, Streamlines.mesh st <> None ->
          pool_wrapped_by (samples g) (cursor g) v delta 150
            (Streamlines_windDir
               (vec3 (directionX ws) (directionY ws) (directionZ ws)))
            (Streamlines.particles (Streamlines.memo st))
            (Streamlines.particles
               (Streamlines.memo
                  (fst (Streamlines.useFrame delta (fst r) (snd r))))))
  /\ (forall v, c = ControlPanel.DirectionX v ->
        Streamlines.props (fst r)
        = Streamlines.mkProps (particleCount ws) (speed ws)
            (vec3 v (directionY ws) (directionZ ws)) 150
        /\ kept)
  /\ (forall v, c = ControlPanel.DirectionY v ->
        Streamlines.props (fst r)
        = Streamlines.mkProps (particleCount ws) (speed ws)
            (vec3 (directionX ws) v (directionZ ws)) 150
        /\ kept)
  /\ (forall v, c = ControlPanel.DirectionZ v ->
        Streamlines.props (fst r)
        = Streamlines.mkProps (particleCount ws) (speed ws)
            (vec3 (directionX ws) (directionY ws) v) 150
        /\ kept)
  /\ (forall n, c = ControlPanel.ParticleCount n ->
        Streamlines.props (fst r)
        = Streamlines.mkProps n (speed ws)
            (vec3 (directionX ws) (directionY ws) (directionZ ws)) 150
        /\ (n = particleCount ws -> kept)
        /\ (n <> particleCount ws ->
            Streamlines.particles (Streamlines.memo (fst r))
            = drawnPool (samples g) (cursor g) n 150
            /\ List.length (Streamlines.particles (Streamlines.memo (fst r))) = n
            /\ snd r = mkRng (samples g) (5 * n + cursor g))).
Proof.
  intros r kept.
  assert (Hsame : forall p,
             Streamlines.count p = particleCount ws ->
             Streamlines.bounds p = 150 ->
             Streamlines.render p st g
             = (Streamlines.mkState p (Streamlines.memo st) (Streamlines.mesh st), g)).
  { intros p Ec Eb. apply render_same_deps; [exact Hok | |];
      rewrite Hprops; assumption. }
  split; [| split; [| split; [| split]]].
  - intros v E. subst c. subst kept r.
    cbn [ControlPanel.handleSliderChange WindTunnelScene.streamlinesProps
         speed directionX directionY directionZ particleCount].
    rewrite Hsame by reflexivity. cbn [fst snd Streamlines.props
      Streamlines.memo Streamlines.mesh].
    split; [reflexivity |]. split; [split; [| split]; reflexivity |].
    intros delta Hmesh. unfold Streamlines.useFrame.
    cbn [Streamlines.mesh Streamlines.props Streamlines.memo Streamlines.speed
         Streamlines.bounds Streamlines.direction].
    destruct (Streamlines.mesh st) as [buffer |]; [| contradiction].
    unfold bind, ret.
    destruct (Streamlines.forEach _ _ _ _ _ 0 buffer g) as [[ps' buf'] g'] eqn:E.
    cbn. eapply forEach_wrapped_by; eassumption.
  - intros v E. subst c. subst kept r.
    cbn [ControlPanel.handleSliderChange WindTunnelScene.streamlinesProps
         speed directionX directionY directionZ particleCount].
    rewrite Hsame by reflexivity.
    split; [reflexivity |]. split; [| split]; reflexivity.
  - intros v E. subst c. subst kept r.
    cbn [ControlPanel.handleSliderChange WindTunnelScene.streamlinesProps
         speed directionX directionY directionZ particleCount].
    rewrite Hsame by reflexivity.
    split; [reflexivity |]. split; [| split]; reflexivity.
  - intros v E. subst c. subst kept r.
    cbn [ControlPanel.handleSliderChange WindTunnelScene.streamlinesProps
         speed directionX directionY directionZ particleCount].
    rewrite Hsame by reflexivity.
    split; [reflexivity |]. split; [| split]; reflexivity.
  - intros n E. subst c. subst kept r.
    cbn [ControlPanel.handleSliderChange WindTunnelScene.streamlinesProps
         speed directionX directionY directionZ particleCount].
    split; [| split].
    + unfold Streamlines.render, bind, ret.
      destruct (Streamlines.useMemo_particles _ _ _ g); reflexivity.
    + intros En. rewrite Hsame by (cbn; auto).
      split; [| split]; reflexivity.
    + intros Hn.
      rewrite render_new_count;
        [| exact Hok | rewrite Hprops; cbn; exact Hn].
      cbn [fst snd Streamlines.memo Streamlines.particles Streamlines.count
           Streamlines.bounds].
      split; [reflexivity |]. split; [| reflexivity].
      unfold drawnPool. rewrite length_map, length_seq. reflexivity.
Qed.

Lemma wind_sliders_keep_pool_witness :
  Streamlines.props scenario_state
  = WindTunnelScene.streamlinesProps (mkWindSettings 20 1 0 0 1)
  /\ pool_ok scenario_state
  /\ Streamlines.props
       (fst (Streamlines.render
               (WindTunnelScene.streamlinesProps
                  (ControlPanel.handleSliderChange (mkWindSettings 20 1 0 0 1)
                                                   (ControlPanel.Speed 35)))
               scenario_state scenario_rng))
     = Streamlines.mkProps 1 35 (vec3 1 0 0) 150.
Proof.
  assert (H1 : Streamlines.props scenario_state
               = WindTunnelScene.streamlinesProps (mkWindSettings 20 1 0 0 1))
    by reflexivity.
  assert (H2 : pool_ok scenario_state) by (repeat split).
  split; [exact H1 |]. split; [exact H2 |].
  exact (proj1 (proj1 (wind_sliders_keep_pool (mkWindSettings 20 1 0 0 1)
                         (ControlPanel.Speed 35) scenario_state scenario_rng H1 H2)
                      35 eq_refl)).
Defined.

(** ** Per-particle variation *)

Lemma draws_only_initParticles (n : nat) (b : R) :
  draws_only (Streamlines.initParticles n b).
Proof. apply draws_only_initLoop. Qed.

Lemma draws_only_useMemo (cell : option Streamlines.Memo) (n : nat) (b : R) :
  draws_only (Streamlines.useMemo_particles cell n b).
Proof.
  unfold Streamlines.useMemo_particles.
  destruct cell as [m |]; [destruct (Streamlines.same_deps m n b) |];
    try apply draws_only_ret;
    (apply draws_only_bind; [apply draws_only_initParticles |
                             intro; apply draws_only_ret]).
Qed.

Lemma draws_only_forEach (s dt b : R) (dir : Vector3.t) (ps : list Particle.t) :
  forall i buffer, draws_only (Streamlines.forEach s dt b dir ps i buffer).
Proof.
  induction ps as [| p ps IH]; intros i buffer; simpl.
  - apply draws_only_ret.
  - apply draws_only_bind; [apply draws_only_moveParticle | intro p'].
    apply draws_only_bind; [apply IH | intro; apply draws_only_ret].
Qed.

Lemma draws_only_step (e : Streamlines.Event) (st : Streamlines.State) :
  draws_only (Streamlines.step e st).
Proof.
  destruct e as [p | | delta]; cbn [Streamlines.step].
  - unfold Streamlines.render.
    apply draws_only_bind; [apply draws_only_useMemo | intro; apply draws_only_ret].
  - apply draws_only_ret.
  - unfold Streamlines.useFrame. destruct (Streamlines.mesh st); [| apply draws_only_ret].
    apply draws_only_bind; [apply draws_only_forEach | intro; apply draws_only_ret].
Qed.

Lemma newParticle_offsets (b : R) (g : Rng) :
  unit_samples g -> offsets_ok (fst (Streamlines.newParticle b g)).
Proof.
  intros Hg. unfold Streamlines.newParticle, bind, ret, Math_random; simpl.
  pose proof (Hg (S (S (S (cursor g))))) as H3.
  pose proof (Hg (S (S (S (S (cursor g)))))) as H4.
  unfold offsets_ok; simpl. lra.
Qed.

Lemma initLoop_offsets (n : nat) (b : R) (temp : list Particle.t) (g : Rng) :
  unit_samples g -> Forall offsets_ok temp ->
  Forall offsets_ok (fst (Streamlines.initLoop n b temp g)).
Proof.
  revert temp g. induction n as [| n IH]; intros temp g Hg Ht; simpl.
  - exact Ht.
  - unfold bind.
    pose proof (newParticle_offsets b g Hg) as Hp.
    pose proof (unit_samples_kept _ g (draws_only_newParticle b) Hg) as Hg1.
    destruct (Streamlines.newParticle b g) as [p g1]; simpl in *.
    apply IH; auto.
    apply Forall_app; split; [exact Ht | constructor; [exact Hp | constructor]].
Qed.

Lemma forEach_offsets (s dt b : R) (dir : Vector3.t) (ps : list Particle.t) :
  Forall offsets_ok ps ->
  forall i buffer g,
    Forall offsets_ok (fst (fst (Streamlines.forEach s dt b dir ps i buffer g))).
Proof.
  intros H. induction H as [| p ps Hp _ IH]; intros i buffer g; simpl.
  - constructor.
  - unfold bind, ret.
    pose proof (moveParticle_offsets s dt b dir p g) as [Hsp Hsz].
    destruct (Streamlines.moveParticle s dt b dir p g) as [p1 g1].
    cbn [fst] in Hsp, Hsz.
    specialize (IH (S i) (Streamlines.setMatrixAt buffer i
                            (Streamlines.instanceMatrix s dir p1)) g1).
    destruct (Streamlines.forEach s dt b dir ps (S i) _ g1) as [[ps1 buf1] g2].
    cbn [fst] in *. constructor; [| exact IH].
    unfold offsets_ok in *. rewrite Hsp, Hsz. exact Hp.
Qed.

Lemma step_offsets (e : Streamlines.Event) (st : Streamlines.State) (g : Rng) :
  unit_samples g ->
  Forall offsets_ok (Streamlines.particles (Streamlines.memo st)) ->
  Forall offsets_ok
         (Streamlines.particles (Streamlines.memo (fst (Streamlines.step e st g)))).
Proof.
  intros Hg H. destruct e as [p | | delta]; cbn [Streamlines.step].
  - unfold Streamlines.render, Streamlines.useMemo_particles.
    destruct (Streamlines.same_deps _ _ _); unfold bind, ret.
    + exact H.
    + pose proof (initLoop_offsets (Streamlines.count p) (Streamlines.bounds p)
                                   [] g Hg (Forall_nil _)) as Hi.
      fold (Streamlines.initParticles (Streamlines.count p) (Streamlines.bounds p)) in Hi.
      destruct (Streamlines.initParticles _ _ g) as [ps g1]. exact Hi.
  - unfold ret, Streamlines.commit; cbn [fst].
    destruct (Streamlines.mesh st) as [buffer |]; [destruct (Nat.eqb _ _) |]; exact H.
  - unfold Streamlines.useFrame.
    destruct (Streamlines.mesh st) as [buffer |]; [| exact H].
    unfold bind, ret.
    pose proof (forEach_offsets (Streamlines.speed (Streamlines.props st)) delta
                  (Streamlines.bounds (Streamlines.props st))
                  (Streamlines_windDir (Streamlines.direction (Streamlines.props st)))
                  _ H 0%nat buffer g) as Hf.
    destruct (Streamlines.forEach _ delta _ _ _ 0 buffer g) as [[ps1 buf1] g1].
    exact Hf.
Qed.

Lemma run_offsets (es : list Streamlines.Event) :
  forall st g,
    unit_samples g ->
    Forall offsets_ok (Streamlines.particles (Streamlines.memo st)) ->
    Forall offsets_ok
           (Streamlines.particles (Streamlines.memo (fst (Streamlines.run es st g)))).
Proof.
  induction es as [| e es IH]; intros st g Hg H; cbn [Streamlines.run].
  - exact H.
  - unfold bind.
    pose proof (step_offsets e st g Hg H) as H1.
    pose proof (unit_samples_kept _ g (draws_only_step e st) Hg) as Hg1.
    destruct (Streamlines.step e st g) as [st1 g1]. cbn [fst snd] in *.
    apply IH; assumption.
Qed.

(** X12: at every moment of the component's life, through renders,
    rebuilds and frames, every particle has a speed multiplier in
    [0.8, 1.3] and a size multiplier in [0.5, 1], so the thickness of every
    streak lies in [0.15, 0.3]. *)
Theorem particle_variation_bounded
        (p : Streamlines.Props) (es : list Streamlines.Event) (g : Rng)
        (Hg : unit_samples g) :
  let pool := Streamlines.particles (Streamlines.memo (fst (session p es g))) in
  Forall offsets_ok pool
  /\ Forall (fun q => 0.15 <= thickness (Particle.sizeOffset q) <= 0.3) pool.
Proof.
  intros pool.
  assert (H : Forall offsets_ok pool).
  { subst pool. unfold session, bind.
    assert (Hm : Forall offsets_ok
                   (Streamlines.particles (Streamlines.memo (fst (Streamlines.mount p g))))
                 /\ unit_samples (snd (Streamlines.mount p g))).
    { unfold Streamlines.mount, Streamlines.useMemo_particles, bind, ret.
      pose proof (initLoop_offsets (Streamlines.count p) (Streamlines.bounds p)
                                   [] g Hg (Forall_nil _)) as Hi.
      pose proof (unit_samples_kept _ g
                    (draws_only_initParticles (Streamlines.count p)
                                              (Streamlines.bounds p)) Hg) as Hg1.
      fold (Streamlines.initParticles (Streamlines.count p) (Streamlines.bounds p)) in Hi.
      destruct (Streamlines.initParticles _ _ g) as [ps g1]. split; assumption. }
    destruct Hm as [Hm Hg1].
    destruct (Streamlines.mount p g) as [st0 g0]. cbn [fst snd] in *.
    apply run_offsets; assumption. }
  split; [exact H |].
  eapply Forall_impl; [| exact H].
  intros q [_ Hs]. unfold thickness. lra.
Qed.

Lemma particle_variation_bounded_witness :
  unit_samples scenario_rng
  /\ Forall offsets_ok
            (Streamlines.particles
               (Streamlines.memo
                  (fst (session (Streamlines.mkProps 2 20 (vec3 1 0 0) 150)
                                [Streamlines.Commit; Streamlines.Frame 0.016]
                                scenario_rng)))).
Proof.
  assert (Hg : unit_samples scenario_rng) by (intros n; simpl; lra).
  split; [exact Hg |].
  exact (proj1 (particle_variation_bounded
                  (Streamlines.mkProps 2 20 (vec3 1 0 0) 150)
                  [Streamlines.Commit; Streamlines.Frame 0.016] scenario_rng Hg)).
Defined.

(** ** The analysis service *)

Open Scope string_scope.

Lemma dropLiteral_app (literal s : string) :
  geminiService.dropLiteral literal (literal ++ s) = Some s.
Proof.
  induction literal as [| c l IH]; simpl; [reflexivity |].
  rewrite Ascii.eqb_refl. exact IH.
Qed.

Lemma dropLiteral_Some (literal : string) :
  forall s rest, geminiService.dropLiteral literal s = Some rest -> s = literal ++ rest.
Proof.
  induction literal as [| c l IH]; intros s rest H; simpl in H.
  - inversion H; reflexivity.
  - destruct s as [| d s']; [discriminate |].
    destruct (Ascii.eqb c d) eqn:E; [| discriminate].
    apply Ascii.eqb_eq in E. subst d. simpl. f_equal. apply IH. exact H.
Qed.

Lemma dropWord_app (w rest : string) :
  all_word w = true ->
  geminiService.dropWord (w ++ String ";" rest) = String ";" rest.
Proof.
  induction w as [| c w IH]; intros H; simpl in *; [reflexivity |].
  apply andb_true_iff in H. destruct H as [Hc Hw].
  rewrite Hc. apply IH. exact Hw.
Qed.

Lemma dropWord_split (s : string) :
  exists w, all_word w = true /\ s = w ++ geminiService.dropWord s.
Proof.
  induction s as [| c s IH]; simpl.
  - exists "". split; reflexivity.
  - destruct (geminiService.is_word c) eqn:E.
    + destruct IH as (w & Hw & Hs). exists (String c w). simpl.
      rewrite E, Hw. split; [reflexivity |]. f_equal. exact Hs.
    + exists "". split; reflexivity.
Qed.

Lemma append_assoc (a b c : string) : (a ++ b) ++ c = a ++ (b ++ c).
Proof. induction a as [| x a IH]; simpl; [reflexivity | rewrite IH; reflexivity]. Qed.

Lemma stripHeader_matches (w base64Data : string) :
  w <> "" -> all_word w = true ->
  geminiService.stripHeader (dataUrlHeader w ++ base64Data) = base64Data.
Proof.
  intros Hne Hw. unfold geminiService.stripHeader, dataUrlHeader.
  rewrite !append_assoc. rewrite dropLiteral_app.
  assert (Hd : geminiService.dropWord (w ++ ";base64," ++ base64Data)
               = ";base64," ++ base64Data)
    by (apply (dropWord_app w ("base64," ++ base64Data)); exact Hw).
  destruct w as [| c w']; [contradiction |].
  simpl in Hw. apply andb_true_iff in Hw. destruct Hw as [Hc Hw'].
  change (String c w' ++ ";base64," ++ base64Data)
    with (String c (w' ++ ";base64," ++ base64Data)) in *.
  cbv iota beta. rewrite Hc, Hd. rewrite dropLiteral_app. reflexivity.
Qed.

Lemma stripHeader_cases (s : string) :
  geminiService.stripHeader s = s
  \/ exists w base64Data,
       w <> "" /\ all_word w = true
       /\ s = dataUrlHeader w ++ base64Data
       /\ geminiService.stripHeader s = base64Data.
Proof.
  unfold geminiService.stripHeader.
  destruct (geminiService.dropLiteral "data:image/" s) as [rest |] eqn:E1;
    [| left; reflexivity].
  destruct rest as [| c rest']; [left; reflexivity |].
  destruct (geminiService.is_word c) eqn:Ec; [| left; reflexivity].
  destruct (geminiService.dropLiteral ";base64," (geminiService.dropWord (String c rest')))
    as [payload |] eqn:E2; [| left; reflexivity].
  right.
  destruct (dropWord_split (String c rest')) as (w & Hw & Hs).
  apply dropLiteral_Some in E1. apply dropLiteral_Some in E2.
  exists w, payload. split.
  - intros ->. rewrite E2 in Hs. simpl in Hs. inversion Hs; subst.
    discriminate Ec.
  - split; [exact Hw |]. split; [| reflexivity].
    rewrite E1, Hs, E2. unfold dataUrlHeader. rewrite !append_assoc. reflexivity.
Qed.

Lemma stripHeader_png (base64Data : string) :
  geminiService.stripHeader ("data:image/png;base64," ++ base64Data) = base64Data.
Proof. apply (stripHeader_matches "png" base64Data); [discriminate | reflexivity]. Qed.

(** X13: the header strip of line 12 does what its regular expression
    says.  An input made of [data:image/], a non-empty run of word
    characters, [;base64,] and a payload is reduced to the payload, so the
    PNG data URL of the canvas yields its base64 data; every other input
    is returned unchanged. *)
Theorem stripHeader_removes_header_only :
  (forall w base64Data,
     w <> "" -> all_word w = true ->
     geminiService.stripHeader (dataUrlHeader w ++ base64Data) = base64Data)
  /\ (forall base64Data,
        geminiService.stripHeader ("data:image/png;base64," ++ base64Data)
        = base64Data)
  /\ (forall s,
        (forall w base64Data,
           w <> "" -> all_word w = true -> s <> dataUrlHeader w ++ base64Data) ->
        geminiService.stripHeader s = s).
Proof.
  split; [exact stripHeader_matches |]. split.
  - exact stripHeader_png.
  - intros s Hno. destruct (stripHeader_cases s) as [E | (w & d & Hne & Hw & Hs & _)];
      [exact E |].
    exfalso. exact (Hno w d Hne Hw Hs).
Qed.

Lemma stripHeader_removes_header_only_witness :
  "jpeg" <> "" /\ all_word "jpeg" = true
  /\ geminiService.stripHeader (dataUrlHeader "jpeg" ++ "AAAA") = "AAAA".
Proof.
  assert (H1 : "jpeg" <> "") by discriminate.
  assert (H2 : all_word "jpeg" = true) by reflexivity.
  split; [exact H1 |]. split; [exact H2 |].
  exact (proj1 stripHeader_removes_header_only "jpeg" "AAAA" H1 H2).
Defined.

Lemma textOrDefault_nonempty (text : option string) :
  geminiService.textOrDefault text <> "".
Proof.
  destruct text as [[| c t] |]; simpl; discriminate.
Qed.

(** X14: what an analysis can end in.  The service is called with the
    canvas data stripped of its header and with the wind speed; a report
    that resolves is never the empty string (a missing or empty answer
    becomes the fixed "No analysis" text, any other answer is passed on
    unchanged); and whatever the service throws, the rejection carries the
    same fixed message. *)
Theorem analysis_outcomes (generateContent : string -> R -> geminiService.Response)
        (imageBase64 : string) (windSpeed : R) :
  (forall base64Data,
     geminiService.analyzeAerodynamics
       generateContent ("data:image/png;base64," ++ base64Data) windSpeed
     = match generateContent base64Data windSpeed with
       | geminiService.Answered text =>
           geminiService.Resolved (geminiService.textOrDefault text)
       | geminiService.Threw _ => geminiService.Rejected geminiService.failureMessage
       end)
  /\ match geminiService.analyzeAerodynamics generateContent imageBase64 windSpeed with
     | geminiService.Resolved value => value <> ""
     | geminiService.Rejected message => message = geminiService.failureMessage
     end
  /\ (forall c t, geminiService.textOrDefault (Some (String c t)) = String c t).
Proof.
  split; [| split].
  - intros d. unfold geminiService.analyzeAerodynamics.
    rewrite stripHeader_png. reflexivity.
  - unfold geminiService.analyzeAerodynamics.
    destruct (generateContent _ windSpeed) as [text | cause];
      [apply textOrDefault_nonempty | reflexivity].
  - intros c t. reflexivity.
Qed.

(** ** The application: analysis state *)


Lemma App_step_gate (e : App.Event) (w : App.World) :
  (App.isAnalyzing (App.state w) = true /\ exists p, App.pending w = [p])
  \/ (App.isAnalyzing (App.state w) = false /\ App.pending w = []) ->
  (App.isAnalyzing (App.state (App.step e w)) = true
   /\ exists p, App.pending (App.step e w) = [p])
  \/ (App.isAnalyzing (App.state (App.step e w)) = false
      /\ App.pending (App.step e w) = []).
Proof.
  intros H. destruct e as [gl | url | c | | r]; simpl.
  - exact H.
  - exact H.
  - exact H.
  - destruct H as [[Ha (p & Hp)] | [Ha Hp]]; rewrite Ha.
    + left. split; [exact Ha | exists p; exact Hp].
    + unfold App.handleAnalyze_start.
      destruct (App.glRef (App.state w)) as [gl |]; simpl.
      * left. split; [reflexivity |]. rewrite Hp. eexists. reflexivity.
      * right. split; assumption.
  - destruct H as [[Ha (p & Hp)] | [Ha Hp]]; rewrite Hp; simpl.
    + right. split; reflexivity.
    + right. split; assumption.
Qed.

Lemma App_run_gate (es : list App.Event) :
  forall w,
    (App.isAnalyzing (App.state w) = true /\ exists p, App.pending w = [p])
    \/ (App.isAnalyzing (App.state w) = false /\ App.pending w = []) ->
    (App.isAnalyzing (App.state (App.run es w)) = true
     /\ exists p, App.pending (App.run es w) = [p])
    \/ (App.isAnalyzing (App.state (App.run es w)) = false
        /\ App.pending (App.run es w) = []).
Proof.
  unfold App.run. induction es as [| e es IH]; intros w H; simpl; [exact H |].
  apply IH. apply App_step_gate. exact H.
Qed.

(** X15: the analysis button cannot start a second analysis while one is
    running: after any sequence of events at most one analysis is in
    flight, and [isAnalyzing] is true exactly when one is. *)
Theorem at_most_one_analysis (es : list App.Event) :
  let w := App.run es App.start in
  (List.length (App.pending w) <= 1)%nat
  /\ (App.isAnalyzing (App.state w) = true <-> App.pending w <> []).
Proof.
  intros w.
  destruct (App_run_gate es App.start (or_intror (conj eq_refl eq_refl)))
    as [[Ha (p & Hp)] | [Ha Hp]]; fold w in Ha, Hp; rewrite Ha, Hp; simpl.
  - split; [lia |]. split; [discriminate | reflexivity].
  - split; [lia |]. split; [discriminate | intros H; contradiction].
Qed.

(** X16: when the service settles a running analysis, however it
    settles, the spinner stops and the report panel has something to
    show: [isAnalyzing] is false, the result is a non-empty string, no
    analysis is left in flight; if the service threw, the result is
    "Error: " followed by the fixed failure message. *)
Theorem settled_analysis_shows_report
        (es : list App.Event) (r : geminiService.Response)
        (Hrunning : App.pending (App.run es App.start) <> []) :
  let w' := App.step (App.ServiceSettled r) (App.run es App.start) in
  App.isAnalyzing (App.state w') = false
  /\ ControlPanel.reportShown (App.analysisResult (App.state w')) = true
  /\ App.pending w' = []
  /\ (forall cause, r = geminiService.Threw cause ->
        App.analysisResult (App.state w')
        = Some ("Error: " ++ geminiService.failureMessage)).
Proof.
  intros w'. subst w'.
  destruct (App_run_gate es App.start (or_intror (conj eq_refl eq_refl)))
    as [[Ha (p & Hp)] | [Ha Hp]]; [| contradiction].
  simpl. rewrite Hp. simpl.
  split; [reflexivity |]. split; [| split; [reflexivity |]].
  - unfold geminiService.analyzeAerodynamics.
    destruct r as [text | cause]; simpl; [| reflexivity].
    pose proof (textOrDefault_nonempty text) as Hne.
    destruct (geminiService.textOrDefault text); [contradiction | reflexivity].
  - intros cause ->. reflexivity.
Qed.

Lemma settled_analysis_shows_report_witness :
  App.pending (App.run [App.Created (App.mkRenderer "data:image/png;base64,AAAA");
                        App.AnalyzeClicked] App.start) <> []
  /\ App.isAnalyzing
       (App.state
          (App.step (App.ServiceSettled (geminiService.Threw "network"))
             (App.run [App.Created (App.mkRenderer "data:image/png;base64,AAAA");
                       App.AnalyzeClicked] App.start)))
     = false.
Proof.
  assert (H : App.pending
                (App.run [App.Created (App.mkRenderer "data:image/png;base64,AAAA");
                          App.AnalyzeClicked] App.start) <> [])
    by (simpl; discriminate).
  split; [exact H |].
  exact (proj1 (settled_analysis_shows_report
                  [App.Created (App.mkRenderer "data:image/png;base64,AAAA");
                   App.AnalyzeClicked]
                  (geminiService.Threw "network") H)).
Defined.

Lemma App_step_no_renderer (e : App.Event) (w : App.World) :
  notCreated e ->
  App.glRef (App.state w) = None /\ App.isAnalyzing (App.state w) = false
  /\ App.analysisResult (App.state w) = None /\ App.pending w = [] ->
  App.glRef (App.state (App.step e w)) = None
  /\ App.isAnalyzing (App.state (App.step e w)) = false
  /\ App.analysisResult (App.state (App.step e w)) = None
  /\ App.pending (App.step e w) = [].
Proof.
  intros He (Hg & Ha & Hr & Hp).
  destruct e as [gl | url | c | | r]; simpl in *; try contradiction.
  - repeat split; assumption.
  - repeat split; assumption.
  - rewrite Ha. unfold App.handleAnalyze_start. rewrite Hg. repeat split; assumption.
  - rewrite Hp. repeat split; assumption.
Qed.

(** X17: without a canvas nothing is ever analysed: as long as the
    renderer has not been handed over, clicks on the analysis button start
    nothing, [isAnalyzing] stays false, no result appears and no request
    is in flight, whatever else happens. *)
Theorem no_renderer_no_analysis (es : list App.Event)
        (Hes : Forall notCreated es) :
  let w := App.run es App.start in
  App.isAnalyzing (App.state w) = false
  /\ App.analysisResult (App.state w) = None
  /\ App.pending w = []
  /\ ControlPanel.reportShown (App.analysisResult (App.state w)) = false.
Proof.
  intros w.
  assert (H : App.glRef (App.state w) = None /\ App.isAnalyzing (App.state w) = false
              /\ App.analysisResult (App.state w) = None /\ App.pending w = []).
  { subst w. unfold App.run.
    assert (H0 : App.glRef (App.state App.start) = None
                 /\ App.isAnalyzing (App.state App.start) = false
                 /\ App.analysisResult (App.state App.start) = None
                 /\ App.pending App.start = []) by (repeat split).
    revert H0. generalize App.start.
    induction Hes as [| e es He _ IH]; intros w0 H0; simpl; [exact H0 |].
    apply IH. apply App_step_no_renderer; assumption. }
  destruct H as (_ & Ha & Hr & Hp).
  rewrite Hr. repeat split; assumption.
Qed.

Lemma no_renderer_no_analysis_witness :
  Forall notCreated [App.AnalyzeClicked; App.FileChosen "blob:1"; App.AnalyzeClicked]
  /\ App.pending
       (App.run [App.AnalyzeClicked; App.FileChosen "blob:1"; App.AnalyzeClicked]
                App.start) = [].
Proof.
  assert (H : Forall notCreated
                     [App.AnalyzeClicked; App.FileChosen "blob:1"; App.AnalyzeClicked])
    by (repeat constructor).
  split; [exact H |].
  exact (proj1 (proj2 (proj2 (no_renderer_no_analysis _ H)))).
Defined.




(** ** Streak orientation for every wind direction *)

Close Scope string_scope.

(** For the frame that [Matrix4.lookAt] builds, turning the rotation into
    a quaternion and composing it back with a scale gives the scaled
    frame: [X] across the wind, [Z] along it. *)
Lemma compose_lookAt_frame (a b c L : R) (pos scale : Vector3.t) :
  a * a + b * b + c * c = 1 -> 0 < L -> L * L = a * a + c * c ->
  let X := vec3 (c / L) (0 / L) (- a / L) in
  let Z := vec3 a b c in
  let Y := Vector3.crossVectors Z X in
  Matrix4.compose pos (Matrix4.toQuaternion (Matrix4.mkRotation X Y Z)) scale
  = Matrix4.mk (GLSL.scale X (Vector3.x scale)) (GLSL.scale Y (Vector3.y scale))
               (GLSL.scale Z (Vector3.z scale)) pos.
Proof.
  intros Hu HL HLL X Z Y. subst X Y Z.
  unfold Matrix4.toQuaternion, Vector3.crossVectors, GLSL.scale, Rdiv.
  cbn [Matrix4.col_x Matrix4.col_y Matrix4.col_z Vector3.x Vector3.y Vector3.z].
  set (ih := / L).
  assert (Hih : L * ih = 1) by (unfold ih; field; lra).
  assert (Hpos : 0 < ih) by (unfold ih; apply Rinv_0_lt_compat; exact HL).
  clearbody ih.
  destruct scale as [sx sy sz]. cbn [Vector3.x Vector3.y Vector3.z].
  assert (Hm22 : c * (c * ih) - a * (- a * ih) = L) by nsatz.
  assert (Hcl : - L <= c <= L) by nra.
  destruct (Rgt_dec (c * ih + (c * (c * ih) - a * (- a * ih)) + c) 0) as [Ht | Ht].
  - match goal with |- context [sqrt ?t] => set (T := t) end.
    assert (HT : 0 < T) by (unfold T; lra).
    assert (HrT : sqrt T * sqrt T = T) by (apply sqrt_sqrt; lra).
    assert (HrT0 : 0 < sqrt T) by (apply sqrt_lt_R0; exact HT).
    set (rT := sqrt T) in *.
    set (s := 0.5 * / rT).
    assert (Hs0 : 0 < s) by (unfold s; apply Rmult_lt_0_compat;
                             [lra | apply Rinv_0_lt_compat; exact HrT0]).
    assert (Hs : 4 * T * (s * s) = 1).
    { rewrite <- HrT. unfold s.
      assert (Hir : rT * / rT = 1) by (apply Rinv_r; lra).
      replace (4 * (rT * rT) * (0.5 * / rT * (0.5 * / rT)))
        with ((rT * / rT) * (rT * / rT)) by lra.
      rewrite Hir. ring. }
    set (w := 0.25 * / s).
    assert (Hw : 4 * (w * s) = 1).
    { unfold w. rewrite Rmult_assoc, Rinv_l by lra. lra. }
    unfold T in Hs. clear HrT HT. clearbody w s. clear rT HrT0 T.
    unfold Matrix4.compose.
    cbn [Quaternion.x Quaternion.y Quaternion.z Quaternion.w
         Vector3.x Vector3.y Vector3.z].
    f_equal; f_equal; nsatz.
  - assert (Hc : c < 0).
    { destruct (Rlt_dec c 0) as [H | H]; [exact H |].
      exfalso. apply Ht. rewrite Hm22.
      assert (0 <= c * ih) by (apply Rmult_le_pos; lra). lra. }
    assert (Hneg : c * ih < 0) by nra.
    unfold Rgtb at 1.
    destruct (Rgt_dec (c * ih) (c * (c * ih) - a * (- a * ih))) as [Hbad | _];
      [rewrite Hm22 in Hbad; lra |].
    cbn [andb].
    destruct (Rgt_dec (c * (c * ih) - a * (- a * ih)) c) as [_ | Hbad];
      [| rewrite Hm22 in Hbad; lra].
    match goal with |- context [sqrt ?t] => set (D := t) end.
    assert (HD : 0 < D) by (unfold D; rewrite Hm22; lra).
    assert (HrD : sqrt D * sqrt D = D) by (apply sqrt_sqrt; lra).
    assert (HrD0 : 0 < sqrt D) by (apply sqrt_lt_R0; exact HD).
    set (rD := sqrt D) in *.
    set (t := / (2 * rD)).
    assert (Ht0 : 0 < t) by (unfold t; apply Rinv_0_lt_compat; lra).
    assert (Hit : 2 * rD * t = 1) by (unfold t; apply Rinv_r; lra).
    assert (Hts : 4 * D * (t * t) = 1).
    { rewrite <- HrD.
      replace (4 * (rD * rD) * (t * t)) with ((2 * rD * t) * (2 * rD * t)) by ring.
      rewrite Hit. ring. }
    set (y := 0.25 * (2 * rD)).
    assert (Hy : 4 * (y * t) = 1).
    { unfold y. replace (4 * (0.25 * (2 * rD) * t)) with (2 * rD * t) by lra.
      exact Hit. }
    clear Hit.
    unfold D in Hts. clear HrD HD. clearbody y t. clear rD HrD0 D.
    unfold Matrix4.compose.
    cbn [Quaternion.x Quaternion.y Quaternion.z Quaternion.w
         Vector3.x Vector3.y Vector3.z].
    f_equal; f_equal; nsatz.
Qed.

Lemma not_near_vertical (a b c : R) :
  a * a + b * b + c * c = 1 ->
  ~ Math_abs (Vector3.dot (vec3 a b c) (vec3 0 1 0)) > 0.99 ->
  0.0199 <= a * a + c * c.
Proof.
  unfold Math_abs, Vector3.dot; cbn [Vector3.x Vector3.y Vector3.z].
  intros Hu Hb. replace (a * 0 + b * 1 + c * 0) with b in Hb by ring.
  assert (Hb' : -0.99 <= b <= 0.99).
  { unfold Rabs in Hb. destruct (Rcase_abs b); lra. }
  nra.
Qed.

Lemma lookAt_frame (a b c px py pz : R) :
  a * a + b * b + c * c = 1 -> 0 < a * a + c * c ->
  let L := Vector3.length (vec3 c 0 (- a)) in
  let X := vec3 (c / L) (0 / L) (- a / L) in
  0 < L /\ L * L = a * a + c * c
  /\ acrossWind (vec3 a b c) = X
  /\ Matrix4.lookAt (vec3 (px + a) (py + b) (pz + c)) (vec3 px py pz) (vec3 0 1 0)
     = Matrix4.mkRotation X (Vector3.crossVectors (vec3 a b c) X) (vec3 a b c).
Proof.
  intros Hu Hh L X.
  assert (Hx : Vector3.crossVectors (vec3 0 1 0) (vec3 a b c) = vec3 c 0 (- a)).
  { unfold Vector3.crossVectors; simpl. f_equal; ring. }
  assert (Hsq : Vector3.lengthSq (vec3 c 0 (- a)) = a * a + c * c)
    by (unfold Vector3.lengthSq; simpl; ring).
  assert (Hnz : Vector3.lengthSq (vec3 c 0 (- a)) <> 0) by (rewrite Hsq; lra).
  destruct (normalize_nonzero _ Hnz) as (HL & Hn & _).
  cbn [Vector3.x Vector3.y Vector3.z] in Hn. fold L in HL, Hn.
  assert (HLL : L * L = a * a + c * c).
  { unfold L. rewrite Vector3_length_sqrt, Hsq. apply sqrt_sqrt. lra. }
  split; [exact HL |]. split; [exact HLL |]. split.
  - unfold acrossWind. rewrite Hx. exact Hn.
  - unfold Matrix4.lookAt.
    assert (Hz : Vector3.subVectors (vec3 (px + a) (py + b) (pz + c)) (vec3 px py pz)
                 = vec3 a b c).
    { unfold Vector3.subVectors; simpl. f_equal; ring. }
    rewrite Hz.
    assert (H1 : Vector3.lengthSq (vec3 a b c) = 1)
      by (unfold Vector3.lengthSq; simpl; exact Hu).
    destruct (Req_dec_T (Vector3.lengthSq (vec3 a b c)) 0) as [E | _]; [lra |].
    rewrite (Vector3_normalize_unit _ (Vector3_unit_length _ H1)).
    rewrite Hx.
    destruct (Req_dec_T (Vector3.lengthSq (vec3 c 0 (- a))) 0) as [E | _];
      [contradiction |].
    rewrite Hn. reflexivity.
Qed.

(** X19: on the look-at branch, for every unit wind direction that is
    not near-vertical, every speed and every particle, the instance matrix
    is the look-at frame scaled: the local X axis, the one carrying the
    stretch factor, is sent to the horizontal unit vector across the wind,
    perpendicular to the direction of travel, and it is the local Z axis,
    scaled by the thickness, that is sent along the wind. *)
Theorem lookAt_streak_perpendicular_to_wind
        (speed : R) (dir : Vector3.t) (particle : Particle.t)
        (Hunit : Vector3.lengthSq dir = 1)
        (Hbranch : ~ Math_abs (Vector3.dot dir (vec3 0 1 0)) > 0.99) :
  let m := Streamlines.instanceMatrix speed dir particle in
  let th := thickness (Particle.sizeOffset particle) in
  Matrix4.axis_x m = GLSL.scale (acrossWind dir) (stretch speed)
  /\ Matrix4.axis_y m = GLSL.scale (Vector3.crossVectors dir (acrossWind dir)) th
  /\ Matrix4.axis_z m = GLSL.scale dir th
  /\ Vector3.lengthSq (acrossWind dir) = 1
  /\ Vector3.dot (acrossWind dir) dir = 0
  /\ Vector3.dot (Matrix4.axis_x m) dir = 0.
Proof.
  intros m th. destruct dir as [a b c].
  assert (Hu : a * a + b * b + c * c = 1) by exact Hunit.
  pose proof (not_near_vertical a b c Hu Hbranch) as Hh.
  destruct (lookAt_frame a b c (Particle.x particle) (Particle.y particle)
                         (Particle.z particle) Hu ltac:(lra))
    as (HL & HLL & Hside & Hlook).
  assert (Hm : m = Matrix4.mk
                     (GLSL.scale (acrossWind (vec3 a b c)) (stretch speed))
                     (GLSL.scale (Vector3.crossVectors (vec3 a b c)
                                                       (acrossWind (vec3 a b c))) th)
                     (GLSL.scale (vec3 a b c) th)
                     (positionOf particle)).
  { subst m. unfold Streamlines.instanceMatrix, Streamlines.orientation.
    destruct (Rgt_dec _ 0.99) as [Hbad | _]; [contradiction |].
    unfold Streamlines.Object3D_lookAt. cbn [Vector3.x Vector3.y Vector3.z].
    rewrite Hlook, Hside.
    apply (compose_lookAt_frame a b c _ _ (Streamlines.dummyScale speed particle)
                                Hu HL HLL). }
  rewrite Hm. cbn [Matrix4.axis_x Matrix4.axis_y Matrix4.axis_z].
  split; [reflexivity |]. split; [reflexivity |]. split; [reflexivity |].
  rewrite Hside.
  set (L := Vector3.length (vec3 c 0 (- a))) in *.
  assert (Hone : Vector3.lengthSq (vec3 (c / L) (0 / L) (- a / L)) = 1).
  { unfold Vector3.lengthSq; cbn [Vector3.x Vector3.y Vector3.z].
    replace (c / L * (c / L) + 0 / L * (0 / L) + - a / L * (- a / L))
      with ((a * a + c * c) / (L * L)) by (field; lra).
    rewrite HLL. field. lra. }
  assert (Hperp : Vector3.dot (vec3 (c / L) (0 / L) (- a / L)) (vec3 a b c) = 0).
  { unfold Vector3.dot; cbn [Vector3.x Vector3.y Vector3.z]. field. lra. }
  split; [exact Hone |]. split; [exact Hperp |].
  unfold GLSL.scale, Vector3.dot in *. cbn [Vector3.x Vector3.y Vector3.z] in *.
  replace (c / L * stretch speed * a + 0 / L * stretch speed * b
           + - a / L * stretch speed * c)
    with (stretch speed * (c / L * a + 0 / L * b + - a / L * c)) by ring.
  rewrite Hperp. ring.
Qed.

Lemma lookAt_streak_perpendicular_to_wind_witness :
  Vector3.lengthSq (vec3 0 0 (-1)) = 1
  /\ ~ Math_abs (Vector3.dot (vec3 0 0 (-1)) (vec3 0 1 0)) > 0.99
  /\ Matrix4.axis_z (Streamlines.instanceMatrix 20 (vec3 0 0 (-1))
                                                (Particle.mk 1 2 3 1 1))
     = GLSL.scale (vec3 0 0 (-1)) (thickness 1).
Proof.
  assert (H1 : Vector3.lengthSq (vec3 0 0 (-1)) = 1)
    by (unfold Vector3.lengthSq; simpl; ring).
  assert (H2 : ~ Math_abs (Vector3.dot (vec3 0 0 (-1)) (vec3 0 1 0)) > 0.99).
  { unfold Math_abs, Vector3.dot; simpl.
    replace (0 * 0 + 0 * 1 + -1 * 0) with 0 by ring. rewrite Rabs_R0. lra. }
  split; [exact H1 |]. split; [exact H2 |].
  exact (proj1 (proj2 (proj2 (lookAt_streak_perpendicular_to_wind
                                20 (vec3 0 0 (-1)) (Particle.mk 1 2 3 1 1) H1 H2)))).
Defined.

Lemma compose_unit_frame (pos scale : Vector3.t) (q : Quaternion.t) :
  normSq q = 1 ->
  let m := Matrix4.compose pos q scale in
  Vector3.dot (Matrix4.axis_x m) (Matrix4.axis_y m) = 0
  /\ Vector3.dot (Matrix4.axis_x m) (Matrix4.axis_z m) = 0
  /\ Vector3.dot (Matrix4.axis_y m) (Matrix4.axis_z m) = 0
  /\ Vector3.lengthSq (Matrix4.axis_x m) = Vector3.x scale * Vector3.x scale
  /\ Vector3.lengthSq (Matrix4.axis_y m) = Vector3.y scale * Vector3.y scale
  /\ Vector3.lengthSq (Matrix4.axis_z m) = Vector3.z scale * Vector3.z scale.
Proof.
  destruct q as [x y z w], scale as [sx sy sz].
  unfold normSq, Matrix4.compose, Vector3.dot, Vector3.lengthSq.
  cbn [Quaternion.x Quaternion.y Quaternion.z Quaternion.w
       Matrix4.axis_x Matrix4.axis_y Matrix4.axis_z
       Vector3.x Vector3.y Vector3.z].
  intros H. repeat split; nsatz.
Qed.

Lemma Quaternion_normalize_unit (q : Quaternion.t) :
  0 < normSq q -> normSq (Quaternion.normalize q) = 1.
Proof.
  intros H. unfold Quaternion.normalize, Quaternion.length.
  change (Quaternion.x q * Quaternion.x q + Quaternion.y q * Quaternion.y q
          + Quaternion.z q * Quaternion.z q + Quaternion.w q * Quaternion.w q)
    with (normSq q).
  assert (HL : 0 < sqrt (normSq q)) by (apply sqrt_lt_R0; exact H).
  assert (HLL : sqrt (normSq q) * sqrt (normSq q) = normSq q)
    by (apply sqrt_sqrt; lra).
  destruct (Req_dec_T (sqrt (normSq q)) 0) as [E | _]; [lra |].
  set (L := sqrt (normSq q)) in *.
  unfold normSq at 1. cbn [Quaternion.x Quaternion.y Quaternion.z Quaternion.w].
  replace (Quaternion.x q * (1 / L) * (Quaternion.x q * (1 / L))
           + Quaternion.y q * (1 / L) * (Quaternion.y q * (1 / L))
           + Quaternion.z q * (1 / L) * (Quaternion.z q * (1 / L))
           + Quaternion.w q * (1 / L) * (Quaternion.w q * (1 / L)))
    with (normSq q / (L * L)) by (unfold normSq; field; lra).
  rewrite HLL. field. lra.
Qed.

Lemma orientation_near_vertical_unit (dir : Vector3.t) (particle : Particle.t) :
  Vector3.lengthSq dir = 1 ->
  Math_abs (Vector3.dot dir (vec3 0 1 0)) > 0.99 ->
  normSq (Streamlines.orientation dir particle) = 1.
Proof.
  destruct dir as [a b c]. unfold Vector3.lengthSq, Math_abs, Vector3.dot.
  cbn [Vector3.x Vector3.y Vector3.z]. intros Hn Hv.
  assert (Hb : b * b > 0.98).
  { replace (a * 0 + b * 1 + c * 0) with b in Hv by ring.
    unfold Rabs in Hv. destruct (Rcase_abs b); nra. }
  assert (Ha : -0.15 < a) by nra.
  unfold Streamlines.orientation, Math_abs, Vector3.dot.
  cbn [Vector3.x Vector3.y Vector3.z].
  destruct (Rgt_dec _ 0.99) as [_ | Hbad]; [| contradiction].
  unfold Quaternion.setFromUnitVectors, Vector3.dot.
  cbn [Vector3.x Vector3.y Vector3.z].
  pose proof Number_EPSILON_small as He.
  destruct (Rlt_dec (1 * a + 0 * b + 0 * c + 1) Number_EPSILON) as [Hr | _]; [lra |].
  apply Quaternion_normalize_unit.
  unfold normSq. cbn [Quaternion.x Quaternion.y Quaternion.z Quaternion.w]. nra.
Qed.

(** X20: on the near-vertical branch, for every unit wind direction
    within the 0.99 threshold of the vertical, the local X axis with the
    stretch factor is sent onto the wind direction, and the three axes of
    the instance matrix are mutually perpendicular with lengths stretch,
    thickness and thickness: the streak is a box along the wind, without
    shear. *)
Theorem near_vertical_streak_along_wind
        (speed : R) (dir : Vector3.t) (particle : Particle.t)
        (Hunit : Vector3.lengthSq dir = 1)
        (Hbranch : Math_abs (Vector3.dot dir (vec3 0 1 0)) > 0.99) :
  let m := Streamlines.instanceMatrix speed dir particle in
  let th := thickness (Particle.sizeOffset particle) in
  Matrix4.axis_x m = GLSL.scale dir (stretch speed)
  /\ Vector3.dot (Matrix4.axis_x m) (Matrix4.axis_y m) = 0
  /\ Vector3.dot (Matrix4.axis_x m) (Matrix4.axis_z m) = 0
  /\ Vector3.dot (Matrix4.axis_y m) (Matrix4.axis_z m) = 0
  /\ Vector3.lengthSq (Matrix4.axis_x m) = stretch speed * stretch speed
  /\ Vector3.lengthSq (Matrix4.axis_y m) = th * th
  /\ Vector3.lengthSq (Matrix4.axis_z m) = th * th.
Proof.
  intros m th.
  split; [apply setFromUnitVectors_branch_stretch_along_wind; assumption |].
  pose proof (orientation_near_vertical_unit dir particle Hunit Hbranch) as Hq.
  exact (compose_unit_frame (positionOf particle)
                            (Streamlines.dummyScale speed particle)
                            (Streamlines.orientation dir particle) Hq).
Qed.

Lemma near_vertical_streak_along_wind_witness :
  Vector3.lengthSq (vec3 0 1 0) = 1
  /\ Math_abs (Vector3.dot (vec3 0 1 0) (vec3 0 1 0)) > 0.99
  /\ Matrix4.axis_x (Streamlines.instanceMatrix 20 (vec3 0 1 0) (Particle.mk 1 2 3 1 1))
     = GLSL.scale (vec3 0 1 0) (stretch 20).
Proof.
  assert (H1 : Vector3.lengthSq (vec3 0 1 0) = 1)
    by (unfold Vector3.lengthSq; simpl; ring).
  assert (H2 : Math_abs (Vector3.dot (vec3 0 1 0) (vec3 0 1 0)) > 0.99).
  { unfold Math_abs, Vector3.dot; simpl.
    replace (0 * 0 + 1 * 1 + 0 * 0) with 1 by ring. rewrite Rabs_R1. lra. }
  split; [exact H1 |]. split; [exact H2 |].
  exact (proj1 (near_vertical_streak_along_wind
                  20 (vec3 0 1 0) (Particle.mk 1 2 3 1 1) H1 H2)).
Defined.

(** ** What the mesh component can render *)

Open Scope string_scope.

Lemma onLoadCallback_geometry (onLoad : Model.OnLoadProp)
      (geo : Model.BufferGeometry) (s : Model.Store) :
  Model.geometry (Model.onLoadCallback onLoad geo s)
  = Some (Model.computeVertexNormals (Model.center (Model.computeBoundingBox geo))).
Proof. unfold Model.onLoadCallback. destruct onLoad; reflexivity. Qed.

Lemma Model_step_rendered (onLoad : Model.OnLoadProp) (e : Model.Event)
      (w : Model.World) (P : string -> Prop) :
  Model.prop_onLoad w = onLoad ->
  Forall (fun r => r = Model.loader_load (Model.url r) onLoad /\ P (Model.url r))
         (Model.inflight w) ->
  (match e with Model.Upload u => P u | _ => True end) ->
  (Model.rendered w = None \/ exists u, P u /\ Model.rendered w = Some (Model.loaded u)) ->
  Model.prop_onLoad (Model.step e w) = onLoad
  /\ Forall (fun r => r = Model.loader_load (Model.url r) onLoad /\ P (Model.url r))
            (Model.inflight (Model.step e w))
  /\ (Model.rendered (Model.step e w) = None
      \/ exists u, P u /\ Model.rendered (Model.step e w) = Some (Model.loaded u))
  /\ (Model.rendered w <> None -> Model.rendered (Model.step e w) <> None).
Proof.
  intros Hp Hf He Hr. destruct e as [u | u o]; simpl.
  - unfold Model.setUrl.
    destruct (Model.prop_url w) as [u' |];
      [destruct (String.eqb u' u) |]; simpl;
      (split; [exact Hp |]); (split; [| split; [exact Hr | tauto]]);
      try exact Hf;
      (apply Forall_app; split; [exact Hf |]);
      (constructor; [| constructor]); (split; [rewrite Hp; reflexivity | exact He]).
  - pose proof (take_Forall _ u _ Hf) as Ht.
    destruct (Model.take u (Model.inflight w)) as [[r rest] |] eqn:E;
      [| split; [exact Hp |]; split; [exact Hf |]; split; [exact Hr | tauto]].
    destruct Ht as [[Hr1 Hr2] Hrest]. simpl.
    split; [exact Hp |]. split; [exact Hrest |].
    unfold Model.rendered in *. simpl.
    destruct o as [| message].
    + rewrite Hr1. unfold Model.complete, Model.loader_load.
      cbn [Model.onLoad Model.url]. rewrite onLoadCallback_geometry.
      split; [right; exists (Model.url r); split; [exact Hr2 | reflexivity] |].
      intros _. discriminate.
    + unfold Model.complete. rewrite Hr1. cbn [Model.onError Model.loader_load].
      split; [exact Hr | tauto].
Qed.

(** X21: what the mesh component shows.  At every moment the rendered
    geometry, if any, is the post-processed parse (bounding box computed,
    centred, vertex normals computed) of a file that was uploaded; and
    once a geometry is rendered the component never goes back to rendering
    nothing, neither while a new file loads nor when a load fails. *)
Theorem rendered_geometry_is_from_upload
        (onLoad : Model.OnLoadProp) (es es' : list Model.Event) :
  let w := Model.run es (Model.mounted onLoad) in
  (Model.rendered w = None
   \/ exists u, In (Model.Upload u) es /\ Model.rendered w = Some (Model.loaded u))
  /\ (Model.rendered w <> None -> Model.rendered (Model.run es' w) <> None)
  /\ (forall g, Model.rendered w = Some g ->
        Model.boundingBox g = true /\ Model.centered g = true
        /\ Model.vertexNormals g = true).
Proof.
  intros w.
  assert (Hgen : forall (P : string -> Prop) (l : list Model.Event) (w0 : Model.World),
             Model.prop_onLoad w0 = onLoad ->
             Forall (fun r => r = Model.loader_load (Model.url r) onLoad /\ P (Model.url r))
                    (Model.inflight w0) ->
             (forall u, In (Model.Upload u) l -> P u) ->
             (Model.rendered w0 = None
              \/ exists u, P u /\ Model.rendered w0 = Some (Model.loaded u)) ->
             Model.prop_onLoad (Model.run l w0) = onLoad
             /\ Forall (fun r => r = Model.loader_load (Model.url r) onLoad
                                 /\ P (Model.url r))
                       (Model.inflight (Model.run l w0))
             /\ (Model.rendered (Model.run l w0) = None
                 \/ exists u, P u /\ Model.rendered (Model.run l w0)
                                     = Some (Model.loaded u))
             /\ (Model.rendered w0 <> None -> Model.rendered (Model.run l w0) <> None)).
  { intros P l. unfold Model.run.
    induction l as [| e l IH]; intros w0 Hp Hf HP Hr; simpl.
    - repeat split; try assumption. tauto.
    - assert (He : match e with Model.Upload u => P u | _ => True end).
      { destruct e as [u | u o]; [apply HP; left; reflexivity | exact I]. }
      destruct (Model_step_rendered onLoad e w0 P Hp Hf He Hr) as (Hp1 & Hf1 & Hr1 & Hk1).
      destruct (IH (Model.step e w0) Hp1 Hf1
                   (fun u Hu => HP u (or_intror Hu)) Hr1) as (Hp2 & Hf2 & Hr2 & Hk2).
      repeat split; try assumption. intros Hn. apply Hk2. apply Hk1. exact Hn. }
  destruct (Hgen (fun u => In (Model.Upload u) es) es (Model.mounted onLoad)
                 eq_refl (Forall_nil _) (fun u Hu => Hu) (or_introl eq_refl))
    as (Hp & Hf & Hr & _).
  fold w in Hp, Hf, Hr.
  split; [exact Hr |]. split.
  - destruct (Hgen (fun _ => True) es' w Hp) as (_ & _ & _ & Hk).
    + eapply Forall_impl; [| exact Hf]. intros r [H1 _]. split; [exact H1 | exact I].
    + intros; exact I.
    + destruct Hr as [Hn | (u & _ & Hu)]; [left; exact Hn | right; exists u; tauto].
    + exact Hk.
  - intros g Hg. destruct Hr as [Hn | (u & _ & Hu)]; [congruence |].
    rewrite Hu in Hg. injection Hg as <-. repeat split.
Qed.

Lemma rendered_geometry_is_from_upload_witness :
  Model.rendered (Model.run [Model.Upload "a.stl"; Model.Complete "a.stl" Model.Parsed]
                            Model.initial) <> None
  /\ Model.rendered
       (Model.run [Model.Upload "b.stl"; Model.Complete "b.stl" (Model.Failed "malformed")]
          (Model.run [Model.Upload "a.stl"; Model.Complete "a.stl" Model.Parsed]
                     Model.initial)) <> None.
Proof.
  assert (H : Model.rendered
                (Model.run [Model.Upload "a.stl"; Model.Complete "a.stl" Model.Parsed]
                           Model.initial) <> None) by (simpl; discriminate).
  split; [exact H |].
  exact (proj1 (proj2 (rendered_geometry_is_from_upload
                         None
                         [Model.Upload "a.stl"; Model.Complete "a.stl" Model.Parsed]
                         [Model.Upload "b.stl";
                          Model.Complete "b.stl" (Model.Failed "malformed")])) H).
Defined.
